(** * The AI logistics planner of Solaris (src/server/services/ai.js)

    A shallow embedding of [AIService] and of the parts of
    [DistanceService] it calls, followed by the properties of the planner.

    JavaScript values are modelled as the code uses them:
    - a [Set] of vertex or triangle indices is a duplicate-free list in
      insertion order (iteration order is observable through [for ... of]
      and [Array.from(...).find]);
    - a [Map] keyed by an index is an association list in insertion order;
    - a thrown exception is the [Throw] outcome of [result]; reading an
      identifier that no enclosing scope declares throws [ReferenceError],
      reading a property of [undefined] or iterating [undefined] throws
      [TypeError];
    - numbers are IEEE-754 doubles restricted to what the planner needs:
      the special values and exact arithmetic on the finite ones. *)

From Stdlib Require Import String List Arith Bool ZArith QArith Lia Lqa.
Import ListNotations.
Close Scope Q_scope.
Close Scope Z_scope.
Open Scope nat_scope.
Open Scope list_scope.

(* ================================================================== *)
(** ** Outcomes of evaluation                                          *)
(* ================================================================== *)

Inductive error : Type :=
| TypeError (what : string)
| ReferenceError (identifier : string)
| Error (message : string)
| Foreign (code : nat).

Inductive result (A : Type) : Type :=
| Ok (a : A)
| Throw (e : error)
| OutOfFuel.

Arguments Ok {A} a.
Arguments Throw {A} e.
Arguments OutOfFuel {A}.

Definition bind {A B : Type} (r : result A) (k : A -> result B) : result B :=
  match r with
  | Ok a => k a
  | Throw e => Throw e
  | OutOfFuel => OutOfFuel
  end.

Declare Scope js_scope.
Delimit Scope js_scope with js.
Notation "x <- c ;; k" := (bind c (fun x => k))
  (at level 100, c at next level, right associativity) : js_scope.
Notation "' p <- c ;; k" := (bind c (fun x => match x with p => k end))
  (at level 100, p pattern, c at next level, right associativity) : js_scope.
Open Scope js_scope.

(** [for (let x of xs) { acc = body(acc, x) }] where the body may throw. *)
Fixpoint forOf {A S : Type} (xs : list A) (body : S -> A -> result S) (s : S)
  : result S :=
  match xs with
  | [] => Ok s
  | x :: rest => s' <- body s x ;; forOf rest body s'
  end.

(** Evaluating an identifier that is declared in no enclosing scope. *)
Definition unbound {A : Type} (identifier : string) : result A :=
  Throw (ReferenceError identifier).

(** [for (... of v)], [Array.from(v)] and property access on a value that
    may be [undefined]. *)
Definition defined {A : Type} (what : string) (v : option A) : result A :=
  match v with
  | Some a => Ok a
  | None => Throw (TypeError what)
  end.

(* ================================================================== *)
(** ** [Set] and [Map] in insertion order                              *)
(* ================================================================== *)

Definition jsset := list nat.

Definition set_has (s : jsset) (x : nat) : bool := existsb (Nat.eqb x) s.

Definition set_add (s : jsset) (x : nat) : jsset :=
  if set_has s x then s else s ++ [x].

Definition set_delete (s : jsset) (x : nat) : jsset :=
  filter (fun y => negb (Nat.eqb x y)) s.

Definition set_addAll (s : jsset) (xs : list nat) : jsset :=
  fold_left set_add xs s.

Definition jsmap (V : Type) := list (nat * V).

Fixpoint map_get {V : Type} (m : jsmap V) (k : nat) : option V :=
  match m with
  | [] => None
  | (k', v) :: rest => if Nat.eqb k k' then Some v else map_get rest k
  end.

(** [Map.prototype.set]: an existing key keeps its position. *)
Fixpoint map_set {V : Type} (m : jsmap V) (k : nat) (v : V) : jsmap V :=
  match m with
  | [] => [(k, v)]
  | (k', v') :: rest =>
      if Nat.eqb k k' then (k, v) :: rest else (k', v') :: map_set rest k v
  end.

Definition map_keys {V : Type} (m : jsmap V) : list nat := map fst m.

(** [m.get(k) || new Set()] : a [Set] object is always truthy. *)
Definition getOrNewSet (m : jsmap jsset) (k : nat) : jsset :=
  match map_get m k with
  | Some s => s
  | None => []
  end.

(** [k] is related to [x] by the set-valued map [m]. *)
Definition related (m : jsmap jsset) (k x : nat) : Prop :=
  exists s, map_get m k = Some s /\ In x s.

(* ================================================================== *)
(** ** The dual mappings built by [_setupAi] (lines 63-77)             *)
(* ================================================================== *)

Record DualMaps : Type := mkDual {
  vertexIndexToTriangleIndices : jsmap jsset;
  triangleIndexToVertexIndices : jsmap jsset
}.

(** One iteration of [for (let i = 0; i < delaunay.triangles.length; i++)]. *)
Definition registerCorner (i vertexIndex : nat) (d : DualMaps) : DualMaps :=
  let triangleIndex := i / 3 in
  let triangleIndices := getOrNewSet (vertexIndexToTriangleIndices d) vertexIndex in
  let triangleIndices := set_add triangleIndices triangleIndex in
  let v2t := map_set (vertexIndexToTriangleIndices d) vertexIndex triangleIndices in
  let vertexIndices := getOrNewSet (triangleIndexToVertexIndices d) triangleIndex in
  let vertexIndices := set_add vertexIndices vertexIndex in
  let t2v := map_set (triangleIndexToVertexIndices d) triangleIndex vertexIndices in
  mkDual v2t t2v.

Fixpoint registerFrom (i : nat) (triangles : list nat) (d : DualMaps) : DualMaps :=
  match triangles with
  | [] => d
  | vertexIndex :: rest => registerFrom (S i) rest (registerCorner i vertexIndex d)
  end.

Definition dualMaps (triangles : list nat) : DualMaps :=
  registerFrom 0 triangles (mkDual [] []).

(* ================================================================== *)
(** ** [_computeVertexGraph] (lines 110-124)                           *)
(* ================================================================== *)

(** Lines 113-119: the points of the triangles of one vertex. *)
Definition otherVerticesOf (triangleIndexToVertexIndices : jsmap jsset)
  (triangleIndices : jsset) : result jsset :=
  forOf triangleIndices
    (fun otherVertices triangleIndex =>
       verticesForTriangle <-
         defined "verticesForTriangle is not iterable"
           (map_get triangleIndexToVertexIndices triangleIndex) ;;
       Ok (set_addAll otherVertices verticesForTriangle))
    [].

Definition _computeVertexGraph
  (vertexIndexToTriangleIndices triangleIndexToVertexIndices : jsmap jsset)
  : result (jsmap jsset) :=
  forOf vertexIndexToTriangleIndices
    (fun vertexIndexToConnectedVertexIndices entry =>
       let '(vertexIndex, triangleIndices) := entry in
       otherVertices <- otherVerticesOf triangleIndexToVertexIndices triangleIndices ;;
       Ok (map_set vertexIndexToConnectedVertexIndices vertexIndex otherVertices))
    [].

Definition vertexGraphOf (triangles : list nat) : result (jsmap jsset) :=
  let d := dualMaps triangles in
  _computeVertexGraph (vertexIndexToTriangleIndices d) (triangleIndexToVertexIndices d).

(* ================================================================== *)
(** ** [_computeBorderVertices] (lines 126-171)                        *)
(* ================================================================== *)

(** Modelled from the spec: [intersectionOfSets] is imported from
    [../utils.js], which is not among the sources.  The spec speaks of the
    points a candidate triangle "shares" with a triangle, so the result is
    the set of the members of the first set that the second set has. *)
Definition intersectionOfSets (a b : jsset) : jsset := filter (set_has b) a.

Record Candidate : Type := mkCandidate {
  sharedVertices : jsset;
  triangleCandidate : nat
}.

(** Lines 133-139: all triangles the triangle shares vertices with. *)
Definition triangleCandidatesOf
  (vertexIndexToTriangleIndices : jsmap jsset) (vertexIndices : jsset)
  : result jsset :=
  forOf vertexIndices
    (fun triangleCandidates vertexIndex =>
       trianglesForVertex <-
         defined "trianglesForVertex is not iterable"
           (map_get vertexIndexToTriangleIndices vertexIndex) ;;
       Ok (set_addAll triangleCandidates trianglesForVertex))
    [].

(** [Array.prototype.map] with a callback that may throw. *)
Fixpoint arrayMap {A B : Type} (f : A -> result B) (xs : list A) : result (list B) :=
  match xs with
  | [] => Ok []
  | x :: rest => y <- f x ;; ys <- arrayMap f rest ;; Ok (y :: ys)
  end.

(** Lines 141-148. *)
Definition trianglesWithTwoSharedVerticesOf
  (triangleIndexToVertexIndices : jsmap jsset)
  (vertexIndices triangleCandidates : jsset) : result (list Candidate) :=
  mapped <-
    arrayMap
      (fun triangleCandidate =>
         verticesOfCandidate <-
           defined "verticesOfCandidate is undefined"
             (map_get triangleIndexToVertexIndices triangleCandidate) ;;
         let sharedVertices := intersectionOfSets verticesOfCandidate vertexIndices in
         Ok (mkCandidate sharedVertices triangleCandidate))
      triangleCandidates ;;
  Ok (filter (fun cand => length (sharedVertices cand) =? 2) mapped).

(** The number of edge-sharing neighbours the code counts for a triangle. *)
Definition edgeNeighbourCount
  (triangleIndexToVertexIndices vertexIndexToTriangleIndices : jsmap jsset)
  (vertexIndices : jsset) : result nat :=
  triangleCandidates <- triangleCandidatesOf vertexIndexToTriangleIndices vertexIndices ;;
  trianglesWithTwoSharedVertices <-
    trianglesWithTwoSharedVerticesOf triangleIndexToVertexIndices
      vertexIndices triangleCandidates ;;
  Ok (length trianglesWithTwoSharedVertices).

Record BorderTriangles : Type := mkBorder {
  borderTriangles : jsset;
  borderTrianglesToTrianglesWithSharedVertices : jsmap jsset
}.

(** Lines 128-154: the first loop. *)
Definition classifyTriangle
  (triangleIndexToVertexIndices vertexIndexToTriangleIndices : jsmap jsset)
  (b : BorderTriangles) (entry : nat * jsset) : result BorderTriangles :=
  let '(triangleIndex, vertexIndices) := entry in
  triangleCandidates <- triangleCandidatesOf vertexIndexToTriangleIndices vertexIndices ;;
  trianglesWithTwoSharedVertices <-
    trianglesWithTwoSharedVerticesOf triangleIndexToVertexIndices
      vertexIndices triangleCandidates ;;
  if length trianglesWithTwoSharedVertices <? 3
  then Ok (mkBorder
             (set_add (borderTriangles b) triangleIndex)
             (map_set (borderTrianglesToTrianglesWithSharedVertices b)
                triangleIndex triangleCandidates))
  else Ok b.

Definition classifyTriangles
  (triangleIndexToVertexIndices vertexIndexToTriangleIndices : jsmap jsset)
  : result BorderTriangles :=
  forOf triangleIndexToVertexIndices
    (classifyTriangle triangleIndexToVertexIndices vertexIndexToTriangleIndices)
    (mkBorder [] []).

Definition _computeBorderVertices
  (triangleIndexToVertexIndices vertexIndexToTriangleIndices : jsmap jsset)
  : result jsset :=
  b <- classifyTriangles triangleIndexToVertexIndices vertexIndexToTriangleIndices ;;
  forOf (borderTriangles b)
    (fun borderVertices borderTriangle =>
       trianglesWithSharedVertices <-
         defined "trianglesWithSharedVertices is not iterable"
           (map_get (borderTrianglesToTrianglesWithSharedVertices b) borderTriangle) ;;
       let sharedBorderTriangles :=
         filter (set_has (borderTriangles b)) trianglesWithSharedVertices in
       forOf sharedBorderTriangles
         (fun borderVertices sharedBorderTriangle =>
            ofBorder <-
              defined "intersectionOfSets of undefined"
                (map_get triangleIndexToVertexIndices borderTriangle) ;;
            ofShared <-
              defined "intersectionOfSets of undefined"
                (map_get triangleIndexToVertexIndices sharedBorderTriangle) ;;
            let commonVertices := intersectionOfSets ofBorder ofShared in
            Ok (set_addAll borderVertices commonVertices))
         borderVertices)
    [].

(* ================================================================== *)
(** ** Numbers                                                         *)
(* ================================================================== *)

(** A double is [NaN], an infinity, a signed zero or a non-zero finite
    value ([Finite q] with [q] different from 0); finite values are kept
    as exact rationals, so rounding, overflow and underflow of finite
    results are not represented. *)
Inductive number : Type :=
| NaN
| Infinity (negative : bool)
| Zero (negative : bool)
| Finite (q : Q).

Definition Qltb (a b : Q) : bool := negb (Qle_bool b a).

Definition Qnegative (q : Q) : bool := Qltb q 0.

Definition ofQ (q : Q) : number :=
  if Qeq_bool q 0 then Zero false else Finite q.

Definition signOf (n : number) : bool :=
  match n with
  | NaN => false
  | Infinity s | Zero s => s
  | Finite q => Qnegative q
  end.

Definition valueOf (n : number) : Q :=
  match n with
  | Finite q => q
  | _ => 0%Q
  end.

Definition num_neg (a : number) : number :=
  match a with
  | NaN => NaN
  | Infinity s => Infinity (negb s)
  | Zero s => Zero (negb s)
  | Finite q => Finite (- q)
  end.

(** [a + b] *)
Definition num_add (a b : number) : number :=
  match a, b with
  | NaN, _ | _, NaN => NaN
  | Infinity s, Infinity t => if Bool.eqb s t then Infinity s else NaN
  | Infinity s, _ | _, Infinity s => Infinity s
  | Zero s, Zero t => Zero (s && t)
  | Zero _, Finite q | Finite q, Zero _ => Finite q
  | Finite p, Finite q => ofQ (p + q)
  end.

(** [a - b] *)
Definition num_sub (a b : number) : number := num_add a (num_neg b).

(** [a * b] *)
Definition num_mul (a b : number) : number :=
  match a, b with
  | NaN, _ | _, NaN => NaN
  | Infinity _, Zero _ | Zero _, Infinity _ => NaN
  | Infinity s, x | x, Infinity s => Infinity (xorb s (signOf x))
  | Zero s, x | x, Zero s => Zero (xorb s (signOf x))
  | Finite p, Finite q => Finite (p * q)
  end.

(** [a / b]: division by a zero is not an exception, it yields an
    infinity (or [NaN] for [0 / 0]). *)
Definition num_div (a b : number) : number :=
  match a, b with
  | NaN, _ | _, NaN => NaN
  | Infinity _, Infinity _ => NaN
  | Infinity s, x => Infinity (xorb s (signOf x))
  | x, Infinity t => Zero (xorb (signOf x) t)
  | Zero _, Zero _ => NaN
  | Zero s, Finite q => Zero (xorb s (Qnegative q))
  | Finite p, Zero t => Infinity (xorb (Qnegative p) t)
  | Finite p, Finite q => Finite (p / q)
  end.

(** [a < b]: false whenever an operand is [NaN]. *)
Definition num_lt (a b : number) : bool :=
  match a, b with
  | NaN, _ | _, NaN => false
  | Infinity s, Infinity t => s && negb t
  | Infinity s, _ => s
  | _, Infinity t => negb t
  | x, y => Qltb (valueOf x) (valueOf y)
  end.

(** Truthiness of a number: [NaN] and the zeros are falsy. *)
Definition num_truthy (a : number) : bool :=
  match a with
  | NaN | Zero _ => false
  | _ => true
  end.

(** [a || b] on numbers. *)
Definition num_or (a b : number) : number := if num_truthy a then a else b.

Definition isNaN (a : number) : bool :=
  match a with
  | NaN => true
  | _ => false
  end.

(** [a <= b]: false whenever an operand is [NaN]. *)
Definition num_le (a b : number) : bool :=
  negb (isNaN a) && negb (isNaN b) && negb (num_lt b a).

(** [Math.max(a, b)]: [NaN] when an operand is [NaN], and [+0] counts as
    larger than [-0]. *)
Definition Math_max (a b : number) : number :=
  match a, b with
  | NaN, _ | _, NaN => NaN
  | Zero s, Zero t => Zero (s && t)
  | _, _ => if num_lt a b then b else a
  end.

(** [Number.MAX_VALUE], the largest finite double: (2^53 - 1) * 2^971. *)
Definition Number_MAX_VALUE : number :=
  Finite (inject_Z ((2 ^ 53 - 1) * 2 ^ 971)).

(* ================================================================== *)
(** ** The priority queue ([qheap], an npm dependency)                 *)
(* ================================================================== *)

(** The queue is a [qheap] heap, a library outside the repository.  It is
    modelled by its documented contract: the heap is built from an
    ordering, [insert] adds an item, [length] counts the items, and
    [dequeue] (an alias of [remove]) removes and returns the root, an item
    that no other item of the heap is ordered before.  Which of several
    such items is returned is not part of the contract; the model takes
    the earliest inserted one. *)
Module Heap.

Record options (T : Type) : Type := mkOptions {
  comparBefore : T -> T -> bool;
  compar : T -> T -> number
}.
Arguments mkOptions {T} comparBefore compar.
Arguments comparBefore {T} _.
Arguments compar {T} _.

Record t (T : Type) : Type := mk {
  opts : options T;
  items : list T
}.
Arguments mk {T} opts items.
Arguments opts {T} _.
Arguments items {T} _.

Definition new {T : Type} (o : options T) : t T := mk o [].

Definition isBefore {T : Type} (h : t T) (a b : T) : bool :=
  comparBefore (opts h) a b.

Definition length {T : Type} (h : t T) : nat := List.length (items h).

Definition insert {T : Type} (h : t T) (item : T) : t T :=
  mk (opts h) (items h ++ [item]).

(** The root of a list of items and the items that remain. *)
Fixpoint extract {T : Type} (before : T -> T -> bool) (l : list T)
  : option (T * list T) :=
  match l with
  | [] => None
  | item :: rest =>
      match extract before rest with
      | None => Some (item, [])
      | Some (root, rest') =>
          if before root item then Some (root, item :: rest')
          else Some (item, rest)
      end
  end.

(** [dequeue] returns [undefined] on an empty heap. *)
Definition dequeue {T : Type} (h : t T) : option T * t T :=
  match extract (isBefore h) (items h) with
  | None => (None, h)
  | Some (root, rest) => (Some root, mk (opts h) rest)
  end.

End Heap.

(* ================================================================== *)
(** ** Game data read by the planner                                   *)
(* ================================================================== *)

Record Location : Type := mkLocation {
  x : number;
  y : number
}.

Record Star : Type := mkStar {
  ownedByPlayerId : option nat;
  location : Location;
  ignoreBulkUpgrade : bool
}.

(** [credits] is a JavaScript number, [NaN] included.  A player object
    without credits ([undefined]) is read by [play] only through
    [!credits], comparisons with 0 and [Math.max], which all treat
    [undefined] as they treat [NaN].  The tick counters of the game are
    whole numbers. *)
Record Player : Type := mkPlayer {
  _id : nat;
  defeated : bool;
  ai : bool;
  credits : number;
  researchingNext : string;
  research_hyperspace_level : number
}.

Record Game : Type := mkGame {
  galaxy_stars : list Star;
  galaxy_players : list Player;
  state_tick : Z;
  settings_galaxy_productionTicks : Z;
  constants_distances_lightYear : number
}.

(** A priority queue entry [{ score, vertex }]. *)
Record BorderStar : Type := mkBorderStar {
  score : number;
  vertex : nat
}.

(** Everything the methods of [AIService] and of its collaborators can
    mutate: the game, the player passed to [play], and the console. *)
Record World : Type := mkWorld {
  game : Game;
  player : Player;
  console : list error
}.

(** How a call into code outside the repository sources completes. *)
Inductive completion (A : Type) : Type :=
| Returns (a : A)
| Throws (e : error).
Arguments Returns {A} a.
Arguments Throws {A} e.

Definition lift {A : Type} (c : completion A) : result A :=
  match c with
  | Returns a => Ok a
  | Throws e => Throw e
  end.

(** The collaborators handed to the constructor.  Their classes are not
    among the sources; a method is any function of the world that returns
    or throws.  [listStarsOwnedByPlayer] returns star objects of
    [game.galaxy.stars], given by their positions in that array. *)
Record StarUpgradeService : Type := mkStarUpgradeService {
  upgradeBulk : string -> string -> number -> bool -> World -> World * completion unit
}.

Record CarrierService : Type := mkCarrierService {
  clearPlayerCarrierWaypointsLooped : World -> World * completion unit
}.

Record StarService : Type := mkStarService {
  listStarsOwnedByPlayer : World -> World * completion (list nat)
}.

(** [DistanceService] (distance.js) has no fields. *)
Inductive DistanceService : Type := mkDistanceService.

Record AIService : Type := mkAIService {
  starUpgradeService : StarUpgradeService;
  carrierService : CarrierService;
  starService : StarService;
  distanceService : option DistanceService
}.

(** Lines 11-16.  The last statement of the constructor is the expression
    [this.distanceService;], not an assignment: the field stays
    [undefined]. *)
Definition constructor (starUpgradeService : StarUpgradeService)
  (carrierService : CarrierService) (starService : StarService)
  (distanceService : DistanceService) : AIService :=
  mkAIService starUpgradeService carrierService starService None.

(* ------------------------------------------------------------------ *)
(** *** Stateful code: the world survives a throw                      *)
(* ------------------------------------------------------------------ *)

Definition action (A : Type) : Type := World -> World * result A.

Definition ret {A : Type} (a : A) : action A := fun w => (w, Ok a).

Definition abind {A B : Type} (c : action A) (k : A -> action B) : action B :=
  fun w =>
    match c w with
    | (w', Ok a) => k a w'
    | (w', Throw e) => (w', Throw e)
    | (w', OutOfFuel) => (w', OutOfFuel)
    end.

Notation "x <~ c ;; k" := (abind c (fun x => k))
  (at level 100, c at next level, right associativity) : js_scope.

Definition local {A : Type} (r : result A) : action A := fun w => (w, r).

Definition call {A : Type} (method : World -> World * completion A) : action A :=
  fun w => let (w', c) := method w in (w', lift c).

Definition getWorld : action World := fun w => (w, Ok w).

Definition modify (f : World -> World) : action unit := fun w => (f w, Ok tt).

(** [try { body } catch (e) { handler(e) }] *)
Definition tryCatch (body : action unit) (handler : error -> action unit)
  : action unit :=
  fun w =>
    match body w with
    | (w', Throw e) => handler e w'
    | other => other
    end.

Definition console_error (e : error) : action unit :=
  modify (fun w => mkWorld (game w) (player w) (console w ++ [e])).

Definition setPlayer (f : Player -> Player) : action unit :=
  modify (fun w => mkWorld (game w) (f (player w)) (console w)).

Definition setGame (f : Game -> Game) : action unit :=
  modify (fun w => mkWorld (f (game w)) (player w) (console w)).

Definition withAi (b : bool) (p : Player) : Player :=
  mkPlayer (_id p) (defeated p) b (credits p) (researchingNext p)
    (research_hyperspace_level p).

Definition withResearchingNext (s : string) (p : Player) : Player :=
  mkPlayer (_id p) (defeated p) (ai p) (credits p) s
    (research_hyperspace_level p).

Definition withCredits (c : number) (p : Player) : Player :=
  mkPlayer (_id p) (defeated p) (ai p) c (researchingNext p)
    (research_hyperspace_level p).

Definition withIgnoreBulkUpgrade (b : bool) (s : Star) : Star :=
  mkStar (ownedByPlayerId s) (location s) b.

Fixpoint updateAt {A : Type} (i : nat) (f : A -> A) (l : list A) : list A :=
  match l, i with
  | [], _ => []
  | a :: rest, 0 => f a :: rest
  | a :: rest, S i' => a :: updateAt i' f rest
  end.

Definition withStars (stars : list Star) (g : Game) : Game :=
  mkGame stars (galaxy_players g) (state_tick g)
    (settings_galaxy_productionTicks g) (constants_distances_lightYear g).

(* ================================================================== *)
(** ** [_computeCarrierLoopsFromGraph] (lines 95-108)                  *)
(* ================================================================== *)

Module CarrierLoop.
(** [{ from: playerStars[start], to: playerStars[end] }]; indexing an
    array out of range yields [undefined]. *)
Record t (E : Type) : Type := mk {
  from : option E;
  to : option E
}.
Arguments mk {E} from to.
Arguments from {E} _.
Arguments to {E} _.
End CarrierLoop.

(** A slot of an array: [new Array(n)] creates [n] empty slots. *)
Inductive slot (A : Type) : Type :=
| Empty
| Item (a : A).
Arguments Empty {A}.
Arguments Item {A} a.

Definition new_Array {A : Type} (n : nat) : list (slot A) := repeat Empty n.

Definition push {A : Type} (arr : list (slot A)) (a : A) : list (slot A) :=
  arr ++ [Item a].

Definition _computeCarrierLoopsFromGraph {E : Type}
  (logisticsGraph : jsmap jsset) (playerStars : list E)
  : list (slot (CarrierLoop.t E)) :=
  let loops := new_Array (List.length logisticsGraph) in
  fold_left
    (fun loops entry =>
       let '(start, connected) := entry in
       fold_left
         (fun loops end_ =>
            push loops
              (CarrierLoop.mk (nth_error playerStars start)
                              (nth_error playerStars end_)))
         connected loops)
    logisticsGraph loops.

(** The edges of a logistics graph, in iteration order. *)
Definition edgesOf (logisticsGraph : jsmap jsset) : list (nat * nat) :=
  flat_map (fun entry => map (fun end_ => (fst entry, end_)) (snd entry))
    logisticsGraph.

(* ================================================================== *)
(** ** [DistanceService] (distance.js) and the threat scorer           *)
(* ================================================================== *)

Definition one : number := Finite 1.
Definition FIRST_TICK_BULK_UPGRADE_SCI_PERCENTAGE : Z := 20.
Definition FIRST_TICK_BULK_UPGRADE_IND_PERCENTAGE : Z := 30.
Definition LAST_TICK_BULK_UPGRADE_ECO_PERCENTAGE : Z := 100.

(** distance.js, lines 26-35. *)
Definition getDistanceSquaredBetweenLocations (loc1 loc2 : Location) : number :=
  let xs := num_sub (x loc2) (x loc1) in
  let ys := num_sub (y loc2) (y loc1) in
  let xs := num_mul xs xs in
  let ys := num_mul ys ys in
  num_add xs ys.

(** distance.js, lines 70-72. *)
Definition getHyperspaceDistance (game : Game) (hyperspace : number) : number :=
  num_mul (num_add (num_or hyperspace one) (Finite (3 # 2)))
          (constants_distances_lightYear game).

(** ai.js, lines 178-181: the ordering handed to the heap. *)
Definition borderStarOptions : Heap.options BorderStar :=
  Heap.mkOptions
    (fun b1 b2 => num_lt (score b1) (score b2))
    (fun b1 b2 => num_sub (score b1) (score b2)).

(** ai.js, lines 186-195: what the loop does with a border vertex once
    the distance to the closest enemy star is known. *)
Definition scoreBorderVertex
  (distanceToClosesEnemyStar highestHyperspaceDistance : number)
  (borderVertex : nat) (borderStarQueue : Heap.t BorderStar)
  : Heap.t BorderStar :=
  let distanceRelative := num_div distanceToClosesEnemyStar highestHyperspaceDistance in
  if num_lt distanceRelative (Finite (5 # 2)) then
    let score := num_div one distanceRelative in
    Heap.insert borderStarQueue (mkBorderStar score borderVertex)
  else borderStarQueue.

(** The scorer of §4.4 of the specification, in its words: at least 2.5
    is excluded, a relative distance of exactly 0 receives the maximum
    representable score "rather than dividing by zero", anything else
    [1 / relDist].  The quotient of 1 by 0 is an infinity, so the score
    that replaces it is the greatest finite number. *)
Definition guardedScore (relDist : number) : option number :=
  if num_lt relDist (Finite (5 # 2)) then
    match relDist with
    | Zero _ => Some Number_MAX_VALUE
    | _ => Some (num_div one relDist)
    end
  else None.

(** [Array.prototype.filter] with a predicate that may throw. *)
Fixpoint arrayFilter {A : Type} (f : A -> result bool) (xs : list A)
  : result (list A) :=
  match xs with
  | [] => Ok []
  | a :: rest =>
      keep <- f a ;;
      kept <- arrayFilter f rest ;;
      Ok (if keep then a :: kept else kept)
  end.

Section Collaborators.

(** [Math.sqrt]. *)
Variable Math_sqrt : number -> number.

(** [maxBy] of [../utils.js], which is not among the sources. *)
Variable maxBy : (Player -> number) -> list Player -> completion number.

(** [Delaunator.from(coords).triangles] (npm dependency). *)
Variable Delaunator_from : list (number * number) -> completion (list nat).

(** [Math.floor(credits / 100 * percentage)], computed in doubles. *)
Variable floorPercent : number -> Z -> number.

(** distance.js, lines 5-7. *)
Definition getDistanceBetweenLocations (loc1 loc2 : Location) : number :=
  Math_sqrt (getDistanceSquaredBetweenLocations loc1 loc2).

(** ai.js, lines 173-199.  [player] and [minBy] are declared neither in
    the method nor in the module. *)
Definition _computeBorderStarQueue (this : AIService) (game : Game)
  (borderVertices : jsset) (playerStars : list Star)
  : result (Heap.t BorderStar) :=
  highestHyperspaceLevel <-
    lift (maxBy research_hyperspace_level (galaxy_players game)) ;;
  _ <- defined "Cannot read properties of undefined (reading 'getHyperspaceDistance')"
         (distanceService this) ;;
  let highestHyperspaceDistance := getHyperspaceDistance game highestHyperspaceLevel in
  enemyStars <-
    arrayFilter
      (fun star =>
         match ownedByPlayerId star with
         | None => Ok false
         | Some owner =>
             player <- unbound (A := Player) "player" ;;
             Ok (negb (owner =? _id player))
         end)
      (galaxy_stars game) ;;
  let borderStarQueue := Heap.new borderStarOptions in
  forOf borderVertices
    (fun borderStarQueue borderVertex =>
       let borderStar := nth_error playerStars borderVertex in
       minBy <- unbound (A := (Star -> result number) -> list Star -> result number)
                  "minBy" ;;
       distanceToClosesEnemyStar <-
         minBy
           (fun es =>
              _ <- defined "Cannot read properties of undefined (reading 'getDistanceBetweenLocations')"
                     (distanceService this) ;;
              borderStar <- defined "Cannot read properties of undefined (reading 'location')"
                              borderStar ;;
              Ok (getDistanceBetweenLocations (location es) (location borderStar)))
           enemyStars ;;
       Ok (scoreBorderVertex distanceToClosesEnemyStar highestHyperspaceDistance
             borderVertex borderStarQueue))
    borderStarQueue.

(* ---------------------------------------------------------------- *)
(** *** The logistics graph (ai.js, lines 201-247)                   *)
(* ---------------------------------------------------------------- *)

(** What [unmarkedVertices] can hold: the loop of lines 203-207
    iterates a [Map], whose iterator yields [[key, value]] arrays, while
    lines 231-233 look up and delete vertex indices. *)
Inductive member : Type :=
| VertexIndex (v : nat)
| MapEntry (key : nat) (value : jsset).

Definition isVertex (v : nat) (m : member) : bool :=
  match m with
  | VertexIndex w => v =? w
  | MapEntry _ _ => false
  end.

(** [unmarkedVertices.has(v)] for a number [v]. *)
Definition unmarked_has (unmarkedVertices : list member) (v : nat) : bool :=
  existsb (isVertex v) unmarkedVertices.

(** [unmarkedVertices.delete(v)] for a number [v]. *)
Definition unmarked_delete (unmarkedVertices : list member) (v : nat)
  : list member :=
  filter (fun m => negb (isVertex v m)) unmarkedVertices.

(** [s.has(entry)] and [s.add(entry)] for the array the iterator has just
    created: an object is a member only by identity, so no set has it
    yet. *)
Definition hasEntry (s : jsset) (entry : nat * jsset) : bool := false.

Definition unmarked_addEntry (unmarkedVertices : list member)
  (entry : nat * jsset) : list member :=
  unmarkedVertices ++ [MapEntry (fst entry) (snd entry)].

Record Connection : Type := mkConnection {
  from : nat;
  to : nat
}.

(** [if (direct)]: [find] yields [undefined] or a vertex index, and the
    index 0 is falsy. *)
Definition truthyIndex (direct : option nat) : option nat :=
  match direct with
  | Some (S d) => Some (S d)
  | _ => None
  end.

(** Lines 229-247.  The recursion follows the edges of the logistics
    graph; [fuel] bounds its depth. *)
Fixpoint _findNextLogisticsConnection (fuel : nat)
  (vertexIndexToConnectedVertexIndices logisticsGraph : jsmap jsset)
  (unmarkedVertices : list member) (startingVertex : nat)
  : result (option Connection * list member) :=
  match fuel with
  | 0 => OutOfFuel
  | S fuel' =>
      possibleConnections <-
        defined "possibleConnections is not iterable"
          (map_get vertexIndexToConnectedVertexIndices startingVertex) ;;
      let direct := find (unmarked_has unmarkedVertices) possibleConnections in
      match truthyIndex direct with
      | Some direct =>
          Ok (Some (mkConnection startingVertex direct),
              unmarked_delete unmarkedVertices direct)
      | None =>
          connected <-
            defined "connected is not iterable"
              (map_get logisticsGraph startingVertex) ;;
          (fix each (cs : list nat) (unmarkedVertices : list member)
             : result (option Connection * list member) :=
             match cs with
             | [] => Ok (None, unmarkedVertices)
             | c :: rest =>
                 ' (newConnection, unmarkedVertices) <-
                   _findNextLogisticsConnection fuel'
                     vertexIndexToConnectedVertexIndices logisticsGraph
                     unmarkedVertices c ;;
                 match newConnection with
                 | Some _ => Ok (newConnection, unmarkedVertices)
                 | None => each rest unmarkedVertices
                 end
             end) connected unmarkedVertices
      end
  end.

Record LoopState : Type := mkLoopState {
  unmarkedVertices : list member;
  borderStarQueue : Heap.t BorderStar;
  logisticsGraph : jsmap jsset
}.

(** The guard of the [while] of line 210. *)
Definition loopGuard (st : LoopState) : bool :=
  negb (List.length (unmarkedVertices st) =? 0)
  && negb (Heap.length (borderStarQueue st) =? 0).

(** Lines 214-223, the rest of a pass once line 213 has given [oldScore]
    a value: the search and, for a connection, the new edge and the
    re-insertion.  [st] holds the queue the entry was taken from. *)
Definition loopTail (fuel : nat)
  (vertexIndexToConnectedVertexIndices : jsmap jsset) (st : LoopState)
  (borderVertex : nat) (oldScore : number) : result LoopState :=
  ' (nextConnection, unmarkedVertices) <-
    _findNextLogisticsConnection fuel vertexIndexToConnectedVertexIndices
      (logisticsGraph st) (unmarkedVertices st) borderVertex ;;
  match nextConnection with
  | Some nextConnection =>
      let fromConnections := getOrNewSet (logisticsGraph st) (from nextConnection) in
      let fromConnections := set_add fromConnections (to nextConnection) in
      let logisticsGraph :=
        map_set (logisticsGraph st) (from nextConnection) fromConnections in
      let borderStarQueue :=
        Heap.insert (borderStarQueue st)
          (mkBorderStar (num_mul oldScore (Finite (1 # 2))) borderVertex) in
      Ok (mkLoopState unmarkedVertices borderStarQueue logisticsGraph)
  | None =>
      Ok (mkLoopState unmarkedVertices (borderStarQueue st) (logisticsGraph st))
  end.

(** Lines 211-223, one pass through the body of the [while].  [score] is
    declared neither in the method nor in the module. *)
Definition loopBody (fuel : nat)
  (vertexIndexToConnectedVertexIndices : jsmap jsset) (st : LoopState)
  : result LoopState :=
  let (dequeued, borderStarQueue) := Heap.dequeue (borderStarQueue st) in
  item <- defined "Cannot read properties of undefined (reading 'vertex')"
            dequeued ;;
  let borderVertex := vertex item in
  oldScore <- unbound (A := number) "score" ;;
  loopTail fuel vertexIndexToConnectedVertexIndices
    (mkLoopState (unmarkedVertices st) borderStarQueue (logisticsGraph st))
    borderVertex oldScore.

(** Lines 210-224; [fuel] bounds the number of iterations. *)
Fixpoint logisticsLoop (fuel : nat)
  (vertexIndexToConnectedVertexIndices : jsmap jsset) (st : LoopState)
  : result LoopState :=
  if loopGuard st then
    match fuel with
    | 0 => OutOfFuel
    | S fuel' =>
        st' <- loopBody fuel' vertexIndexToConnectedVertexIndices st ;;
        logisticsLoop fuel' vertexIndexToConnectedVertexIndices st'
    end
  else Ok st.

(** Lines 202-207.  [borderVertices] is declared neither in the method
    nor in the module. *)
Definition initialUnmarked
  (vertexIndexToConnectedVertexIndices : jsmap jsset) : result (list member) :=
  forOf vertexIndexToConnectedVertexIndices
    (fun unmarkedVertices vertexIndex =>
       borderVertices <- unbound (A := jsset) "borderVertices" ;;
       if negb (hasEntry borderVertices vertexIndex)
       then Ok (unmarked_addEntry unmarkedVertices vertexIndex)
       else Ok unmarkedVertices)
    [].

(** Lines 201-227. *)
Definition _createLogisticsGraph (fuel : nat)
  (vertexIndexToConnectedVertexIndices : jsmap jsset)
  (borderStarQueue : Heap.t BorderStar) : result (jsmap jsset) :=
  unmarkedVertices <- initialUnmarked vertexIndexToConnectedVertexIndices ;;
  st <- logisticsLoop fuel vertexIndexToConnectedVertexIndices
          (mkLoopState unmarkedVertices borderStarQueue []) ;;
  Ok (logisticsGraph st).

(* ---------------------------------------------------------------- *)
(** *** [_setupAi], the two spending rules and [play]                *)
(* ---------------------------------------------------------------- *)

Fixpoint forEach {A : Type} (xs : list A) (body : A -> action unit)
  : action unit :=
  match xs with
  | [] => ret tt
  | a :: rest => _ <~ body a ;; forEach rest body
  end.

(** Lines 56-58: [star.ignoreBulkUpgrade = false] on a star object of
    [game.galaxy.stars]. *)
Definition markNotIgnored (star : nat) : action unit :=
  w <~ getWorld ;;
  _ <~ local (defined "Cannot set properties of undefined"
                (nth_error (galaxy_stars (game w)) star)) ;;
  setGame (fun g =>
    withStars (updateAt star (withIgnoreBulkUpgrade false) (galaxy_stars g)) g).

(** Lines 49-93. *)
Definition _setupAi (this : AIService) (fuel : nat) : action unit :=
  _ <~ call (clearPlayerCarrierWaypointsLooped (carrierService this)) ;;
  _ <~ setPlayer (withResearchingNext "random") ;;
  playerStars <~ call (listStarsOwnedByPlayer (starService this)) ;;
  _ <~ forEach playerStars markNotIgnored ;;
  w <~ getWorld ;;
  playerStars <~
    local (arrayMap
             (fun star =>
                defined "Cannot read properties of undefined (reading 'location')"
                  (nth_error (galaxy_stars (game w)) star))
             playerStars) ;;
  let coords := map (fun star => (x (location star), y (location star))) playerStars in
  triangles <~ local (lift (Delaunator_from coords)) ;;
  let d := dualMaps triangles in
  vertexIndexToConnectedVertexIndices <~
    local (_computeVertexGraph (vertexIndexToTriangleIndices d)
             (triangleIndexToVertexIndices d)) ;;
  borderVertices <~
    local (_computeBorderVertices (triangleIndexToVertexIndices d)
             (vertexIndexToTriangleIndices d)) ;;
  borderStarQueue <~
    local (_computeBorderStarQueue this (game w) borderVertices playerStars) ;;
  logisticsGraph <~
    local (_createLogisticsGraph fuel vertexIndexToConnectedVertexIndices
             borderStarQueue) ;;
  let carrierLoops := _computeCarrierLoopsFromGraph logisticsGraph playerStars in
  ret tt.

(** Lines 249-266. *)
Definition _playFirstTick (this : AIService) : action unit :=
  w <~ getWorld ;;
  let credits := credits (player w) in
  if negb (num_truthy credits) || num_lt credits (Zero false) then ret tt
  else
    let creditsToSpendSci := floorPercent credits FIRST_TICK_BULK_UPGRADE_SCI_PERCENTAGE in
    let creditsToSpendInd := floorPercent credits FIRST_TICK_BULK_UPGRADE_IND_PERCENTAGE in
    _ <~ (if num_truthy creditsToSpendSci
          then call (upgradeBulk (starUpgradeService this)
                       "totalCredits" "science" creditsToSpendSci false)
          else ret tt) ;;
    if num_truthy creditsToSpendInd
    then call (upgradeBulk (starUpgradeService this)
                 "totalCredits" "industry" creditsToSpendInd false)
    else ret tt.

(** Lines 268-280. *)
Definition _playLastTick (this : AIService) : action unit :=
  w <~ getWorld ;;
  let credits := credits (player w) in
  if negb (num_truthy credits) || num_le credits (Zero false) then ret tt
  else
    let creditsToSpendEco := floorPercent credits LAST_TICK_BULK_UPGRADE_ECO_PERCENTAGE in
    if num_truthy creditsToSpendEco
    then call (upgradeBulk (starUpgradeService this)
                 "totalCredits" "economy" creditsToSpendEco false)
    else ret tt.

(** [a % b === c] on integers: the remainder takes the sign of the
    dividend, and [a % 0] is [NaN], which equals nothing. *)
Definition remainderIs (a b c : Z) : bool :=
  if (b =? 0)%Z then false else (Z.rem a b =? c)%Z.

Definition throw {A : Type} (e : error) : action A := fun w => (w, Throw e).

(** Lines 18-47. *)
Definition play (this : AIService) (fuel : nat) : action unit :=
  w <~ getWorld ;;
  if negb (defeated (player w)) then
    throw (Error "The player is not under AI control.")
  else
    _ <~ tryCatch
           (w <~ getWorld ;;
            _ <~ (if negb (ai (player w)) then
                    _ <~ setPlayer (withAi true) ;;
                    _setupAi this fuel
                  else ret tt) ;;
            w <~ getWorld ;;
            let tick := state_tick (game w) in
            let productionTicks := settings_galaxy_productionTicks (game w) in
            let isFirstTick := remainderIs tick productionTicks 1 in
            let isLastTick := remainderIs tick productionTicks (productionTicks - 1) in
            if isFirstTick then _playFirstTick this
            else if isLastTick then _playLastTick this
            else ret tt)
           (fun e => console_error e) ;;
    w <~ getWorld ;;
    setPlayer (withCredits (Math_max (Zero false) (credits (player w)))).

End Collaborators.

(* ================================================================== *)
(** ** The other methods of [DistanceService] (distance.js)            *)
(* ================================================================== *)

(** [a === b] on numbers: [NaN] equals nothing, the two zeros are equal. *)
Definition num_strictEq (a b : number) : bool :=
  match a, b with
  | Infinity s, Infinity t => Bool.eqb s t
  | Zero _, Zero _ => true
  | Finite p, Finite q => Qeq_bool p q
  | _, _ => false
  end.

(** [Array.prototype.sort(compare)]: the sort is stable, an element moves
    in front of another only if the comparator is negative for the pair.
    This is the order ECMAScript prescribes when the comparator is a
    consistent ordering; otherwise only the members of the result are
    prescribed. *)
Fixpoint sortInsert {A : Type} (compare : A -> A -> number) (a : A) (sorted : list A)
  : list A :=
  match sorted with
  | [] => [a]
  | b :: rest =>
      if num_lt (compare b a) (Zero false) then b :: sortInsert compare a rest
      else a :: b :: rest
  end.

Definition arraySort {A : Type} (compare : A -> A -> number) (xs : list A) : list A :=
  fold_right (sortInsert compare) [] xs.

Section Distances.

Variable Math_sqrt : number -> number.

(** Lines 9-24: [null] for a missing list and for fewer than two
    locations, otherwise the sum of the legs. *)
Definition getDistanceAlongLocationList (locations : option (list Location))
  : option number :=
  match locations with
  | None => None
  | Some [] => None
  | Some (first :: rest) =>
      if List.length (first :: rest) <? 2 then None
      else
        Some (fst (fold_left
                     (fun state current =>
                        let '(distance, last) := state in
                        (num_add distance
                           (getDistanceBetweenLocations Math_sqrt last current),
                         current))
                     rest (Zero false, first)))
  end.

(** Line 39: the filter of [getClosestLocations]. *)
Definition differsInBothCoordinates (loc a : Location) : bool :=
  negb (num_strictEq (x a) (x loc)) && negb (num_strictEq (y a) (y loc)).

(** Lines 37-46. *)
Definition getClosestLocations (loc : Location) (locs : list Location)
  (amount : nat) : list Location :=
  let sorted :=
    arraySort
      (fun a b =>
         num_sub (getDistanceBetweenLocations Math_sqrt loc a)
                 (getDistanceBetweenLocations Math_sqrt loc b))
      (filter (differsInBothCoordinates loc) locs) in
  firstn amount sorted.

(** Lines 48-50: [undefined] when no location qualifies. *)
Definition getClosestLocation (loc : Location) (locs : list Location)
  : option Location :=
  nth_error (getClosestLocations loc locs 1) 0.

(** Lines 52-56: reading [x] of an [undefined] closest location throws. *)
Definition getDistanceToClosestLocation (loc : Location) (locs : list Location)
  : result number :=
  let closest := getClosestLocation loc locs in
  closest <- defined "Cannot read properties of undefined (reading 'x')" closest ;;
  Ok (getDistanceBetweenLocations Math_sqrt loc closest).

(** Lines 58-60. *)
Definition getFurthestLocations (loc : Location) (locs : list Location)
  (amount : nat) : list Location :=
  firstn amount (rev (getClosestLocations loc locs (List.length locs))).

(** Lines 62-64. *)
Definition getFurthestLocation (loc : Location) (locs : list Location)
  : option Location :=
  nth_error (getFurthestLocations loc locs 1) 0.

End Distances.

(** Lines 66-68. *)
Definition getScanningDistance (game : Game) (scanning : number) : number :=
  num_mul (num_add (num_or scanning one) one)
          (constants_distances_lightYear game).

(* ================================================================== *)
(** ** [GameService] (game.ts): quitting, conceding, deleting          *)
(* ================================================================== *)

Module GameService.

(** A [ValidationError] of the service, or whatever a collaborator threw. *)
Inductive failure : Type :=
| ValidationError (message : string)
| Raised (e : error).

Inductive outcome (A : Type) : Type :=
| Done (a : A)
| Fail (f : failure).
Arguments Done {A} a.
Arguments Fail {A} f.

(** The fields of a player and of a game that the methods read or write.
    Object ids are numbers, dates are numbers, [null] is [None]. *)
Record Player : Type := mkPlayer {
  _id : nat;
  userId : option nat;
  alias : string;
  defeated : bool;
  ready : bool;
  readyToQuit : bool
}.

Record Game : Type := mkGame {
  game_id : nat;
  settings_general_type : string;
  settings_general_createdByUserId : option nat;
  settings_general_advancedAI : string;
  state_startDate : option nat;
  state_endDate : option nat;
  state_players : Z;
  state_tick : Z;
  quitters : list (option nat);
  galaxy_players : list Player
}.

Inductive Event : Type :=
| onPlayerQuit (gameId : nat) (gameTick : Z) (playerId : nat) (playerAlias : string)
| onPlayerDefeated (gameId : nat) (gameTick : Z) (playerId : nat)
    (playerAlias : string) (openSlot : bool)
| onGameDeleted (gameId : nat).

Section Service.

(** Whatever lies outside the two objects: the database, the listeners. *)
Variable Outside : Type.

(** The game and the player handed to a method (the player is also one
    of [game.galaxy.players]; no method below reads it through that path
    after writing it) and the state outside them. *)
Record World : Type := mkWorld {
  game : Game;
  player : Player;
  outside : Outside
}.

(** The collaborators of the constructor (lines 38-66), none of them
    among the sources: the two predicates of the game type service, and
    methods that may throw.  A method that is handed the game (and the
    player) may change them; one that is handed only an id, an amount or
    an event works on what lies outside. *)
Record Services : Type := mkServices {
  isTutorialGame : Game -> bool;
  isNewPlayerGame : Game -> bool;
  incrementQuit : nat -> Outside -> Outside * completion unit;
  incrementDefeated : nat -> Z -> Outside -> Outside * completion unit;
  incrementJoined : nat -> Z -> Outside -> Outside * completion unit;
  resetPlayerForGameStart : World -> World * completion unit;
  updateStatePlayerCount : World -> World * completion unit;
  setPlayerAsDefeated : bool -> World -> World * completion unit;
  clearPlayerCarrierWaypointsLooped : World -> World * completion unit;
  save : World -> World * completion unit;
  deleteOne : nat -> Outside -> Outside * completion unit;
  emit : Event -> Outside -> Outside * completion unit
}.

Definition act (A : Type) : Type := World -> World * outcome A.

Definition done {A : Type} (a : A) : act A := fun w => (w, Done a).

Definition throwValidation {A : Type} (message : string) : act A :=
  fun w => (w, Fail (ValidationError message)).

Definition andThen {A B : Type} (c : act A) (k : A -> act B) : act B :=
  fun w =>
    match c w with
    | (w', Done a) => k a w'
    | (w', Fail f) => (w', Fail f)
    end.

Definition invoke {A : Type} (method : World -> World * completion A) : act A :=
  fun w =>
    match method w with
    | (w', Returns a) => (w', Done a)
    | (w', Throws e) => (w', Fail (Raised e))
    end.

Definition elsewhere {A : Type} (method : Outside -> Outside * completion A)
  : World -> World * completion A :=
  fun w =>
    match method (outside w) with
    | (o, c) => (mkWorld (game w) (player w) o, c)
    end.

Definition readWorld : act World := fun w => (w, Done w).

Definition writeGame (f : Game -> Game) : act unit :=
  fun w => (mkWorld (f (game w)) (player w) (outside w), Done tt).

Definition when (b : bool) (c : act unit) : act unit :=
  if b then c else done tt.

Fixpoint forEachPlayer (ps : list Player) (body : Player -> act unit) : act unit :=
  match ps with
  | [] => done tt
  | p :: rest => andThen (body p) (fun _ => forEachPlayer rest body)
  end.

Definition isSome {A : Type} (o : option A) : bool :=
  match o with
  | Some _ => true
  | None => false
  end.

Definition pushQuitter (u : option nat) (g : Game) : Game :=
  mkGame (game_id g) (settings_general_type g)
    (settings_general_createdByUserId g) (settings_general_advancedAI g)
    (state_startDate g) (state_endDate g) (state_players g) (state_tick g)
    (quitters g ++ [u]) (galaxy_players g).

Definition decrementPlayers (g : Game) : Game :=
  mkGame (game_id g) (settings_general_type g)
    (settings_general_createdByUserId g) (settings_general_advancedAI g)
    (state_startDate g) (state_endDate g) (state_players g - 1) (state_tick g)
    (quitters g) (galaxy_players g).

Variable this : Services.

(** Lines 422-452. *)
Definition delete (deletedByUserId : option nat) : act unit :=
  andThen readWorld (fun w =>
  if isSome deletedByUserId && isSome (state_startDate (game w)) then
    throwValidation "Cannot delete games that are in progress or completed."
  else if match deletedByUserId, settings_general_createdByUserId (game w) with
          | Some deleter, Some creator => negb (creator =? deleter)
          | _, _ => false
          end then
    throwValidation "Cannot delete this game, you did not create it."
  else
    andThen
      (when (negb (isSome (state_startDate (game w)))
             && negb (isTutorialGame this (game w)))
         (forEachPlayer (galaxy_players (game w))
            (fun player =>
               match userId player with
               | Some user => invoke (elsewhere (incrementJoined this user (-1)))
               | None => done tt
               end)))
      (fun _ =>
    andThen readWorld (fun w =>
    andThen (invoke (elsewhere (deleteOne this (game_id (game w))))) (fun _ =>
    andThen readWorld (fun w =>
    invoke (elsewhere (emit this (onGameDeleted (game_id (game w)))))))))).

(** Lines 325-369; the result is the player, or [null] for a tutorial
    game. *)
Definition quit : act (option Player) :=
  andThen readWorld (fun w =>
  if isSome (state_startDate (game w)) then
    throwValidation "Cannot quit a game that has started."
  else if isSome (state_endDate (game w)) then
    throwValidation "Cannot quit a game that has finished."
  else if isTutorialGame this (game w) then
    andThen (delete None) (fun _ => done None)
  else
    let alias := alias (player w) in
    andThen
      (when (isSome (userId (player w)) && negb (isNewPlayerGame this (game w)))
         (writeGame (pushQuitter (userId (player w)))))
      (fun _ =>
    andThen readWorld (fun w =>
    andThen
      (match userId (player w) with
       | Some user =>
           if negb (isTutorialGame this (game w))
           then invoke (elsewhere (incrementQuit this user))
           else done tt
       | None => done tt
       end)
      (fun _ =>
    andThen (invoke (resetPlayerForGameStart this)) (fun _ =>
    andThen (invoke (updateStatePlayerCount this)) (fun _ =>
    andThen (invoke (save this)) (fun _ =>
    andThen readWorld (fun w =>
    andThen
      (invoke (elsewhere (emit this
                 (onPlayerQuit (game_id (game w)) (state_tick (game w))
                    (_id (player w)) alias))))
      (fun _ =>
    andThen readWorld (fun w => done (Some (player w)))))))))))).

(** Lines 371-420. *)
Definition concedeDefeat (openSlot : bool) : act unit :=
  andThen readWorld (fun w =>
  if defeated (player w) then
    throwValidation "The player has already been defeated."
  else if negb (isSome (state_startDate (game w))) then
    throwValidation "Cannot concede defeat in a game that has not yet started."
  else if isSome (state_endDate (game w)) then
    throwValidation "Cannot concede defeat in a game that has finished."
  else if isTutorialGame this (game w) then
    delete None
  else
    andThen (writeGame (pushQuitter (userId (player w)))) (fun _ =>
    andThen (invoke (setPlayerAsDefeated this openSlot)) (fun _ =>
    andThen (writeGame decrementPlayers) (fun _ =>
    andThen readWorld (fun w =>
    andThen
      (when (String.eqb (settings_general_advancedAI (game w)) "disabled")
         (invoke (clearPlayerCarrierWaypointsLooped this)))
      (fun _ =>
    andThen readWorld (fun w =>
    andThen
      (match userId (player w) with
       | Some user =>
           if negb (isTutorialGame this (game w))
           then invoke (elsewhere (incrementDefeated this user 1))
           else done tt
       | None => done tt
       end)
      (fun _ =>
    andThen (invoke (save this)) (fun _ =>
    andThen readWorld (fun w =>
    invoke (elsewhere (emit this
              (onPlayerDefeated (game_id (game w)) (state_tick (game w))
                 (_id (player w)) (alias (player w)) openSlot))))))))))))).

(** Lines 492-498. *)
Definition listAllUndefeatedPlayers (game : Game) : list Player :=
  if isTutorialGame this game
  then filter (fun p => isSome (userId p)) (galaxy_players game)
  else filter (fun p => negb (defeated p)) (galaxy_players game).

(** Lines 500-504. *)
Definition isAllUndefeatedPlayersReady (game : Game) : bool :=
  let undefeatedPlayers := listAllUndefeatedPlayers game in
  List.length (filter (fun x => ready x) undefeatedPlayers)
  =? List.length undefeatedPlayers.

(** Lines 506-510. *)
Definition isAllUndefeatedPlayersReadyToQuit (game : Game) : bool :=
  let undefeatedPlayers := listAllUndefeatedPlayers game in
  List.length (filter (fun x => readyToQuit x) undefeatedPlayers)
  =? List.length undefeatedPlayers.

(** The players [listAllUndefeatedPlayers] keeps. *)
Definition counted (game : Game) (p : Player) : Prop :=
  if isTutorialGame this game then userId p <> None else defeated p = false.

(** A collaborator that leaves the log of quitters and the number of
    active players as they are. *)
Definition keepsLog (method : World -> World * completion unit) : Prop :=
  forall w,
    quitters (game (fst (method w))) = quitters (game w)
    /\ state_players (game (fst (method w))) = state_players (game w).

(** A collaborator that leaves the log of quitters as it is. *)
Definition keepsQuitters (method : World -> World * completion unit) : Prop :=
  forall w, quitters (game (fst (method w))) = quitters (game w).

End Service.

Arguments mkWorld {Outside} game player outside.
Arguments game {Outside} w.
Arguments player {Outside} w.
Arguments outside {Outside} w.
Arguments isTutorialGame {Outside} s g.
Arguments isNewPlayerGame {Outside} s g.
Arguments incrementQuit {Outside} s userId o.
Arguments incrementDefeated {Outside} s userId amount o.
Arguments incrementJoined {Outside} s userId amount o.
Arguments resetPlayerForGameStart {Outside} s w.
Arguments updateStatePlayerCount {Outside} s w.
Arguments setPlayerAsDefeated {Outside} s openSlot w.
Arguments clearPlayerCarrierWaypointsLooped {Outside} s w.
Arguments save {Outside} s w.
Arguments deleteOne {Outside} s gameId o.
Arguments emit {Outside} s event o.
Arguments delete {Outside} this deletedByUserId w.
Arguments quit {Outside} this w.
Arguments concedeDefeat {Outside} this openSlot w.
Arguments listAllUndefeatedPlayers {Outside} this game.
Arguments isAllUndefeatedPlayersReady {Outside} this game.
Arguments isAllUndefeatedPlayersReadyToQuit {Outside} this game.
Arguments counted {Outside} this game p.
Arguments keepsLog {Outside} method.
Arguments keepsQuitters {Outside} method.

(** A service whose collaborators do nothing and return, and a game in
    progress with one registered and one unregistered player. *)
Definition quietServices : Services unit :=
  mkServices unit (fun _ => false) (fun _ => false)
    (fun _ o => (o, Returns tt)) (fun _ _ o => (o, Returns tt))
    (fun _ _ o => (o, Returns tt))
    (fun w => (w, Returns tt)) (fun w => (w, Returns tt))
    (fun _ w => (w, Returns tt)) (fun w => (w, Returns tt))
    (fun w => (w, Returns tt))
    (fun _ o => (o, Returns tt)) (fun _ o => (o, Returns tt)).

Definition registered : Player := mkPlayer 1 (Some 10) "Ada" false true false.

Definition unregistered : Player := mkPlayer 2 None "Empty Slot" false false false.

Definition gameInProgress : Game :=
  mkGame 5 "standard_rt" (Some 10) "disabled" (Some 100) None 2 12 []
    [registered; unregistered].

Definition gameNotStarted : Game :=
  mkGame 6 "standard_rt" (Some 10) "disabled" None None 2 0 []
    [registered; unregistered].

End GameService.

(* ================================================================== *)
(** ** Properties named by the specification                           *)
(* ================================================================== *)

(** Point [v] is a corner of triangle [t] of the flat triangle array. *)
Definition incident (triangles : list nat) (v t : nat) : Prop :=
  exists i, nth_error triangles i = Some v /\ i / 3 = t.

(** §4.2 as the specification words it: the adjacency set of a point is
    the union of the points of its triangles, the point itself excluded. *)
Definition adjacencyExcludesSelf (triangles : list nat) : Prop :=
  forall g v adj,
    vertexGraphOf triangles = Ok g ->
    map_get g v = Some adj ->
    forall w, In w adj <->
              (w <> v /\ exists t, incident triangles v t /\ incident triangles w t).

(** Every set stored in the map is free of duplicates, as a [Set] is. *)
Definition setsNoDup (m : jsmap jsset) : Prop :=
  forall k s, map_get m k = Some s -> NoDup s.

(** The number of triangles that have both [a] and [b] among their points. *)
Definition edgeCount (triangleToPoints : jsmap jsset) (a b : nat) : nat :=
  List.length
    (filter (fun e => set_has (snd e) a && set_has (snd e) b) triangleToPoints).

Definition pointsOf (triangleToPoints : jsmap jsset) : list nat :=
  flat_map snd triangleToPoints.

(** A triangulation: every triangle has three points, and an edge (two
    different points) belongs to at most two triangles. *)
Definition isTriangulation (triangleToPoints : jsmap jsset) : bool :=
  forallb (fun e => List.length (snd e) =? 3) triangleToPoints
  && forallb
       (fun a =>
          forallb (fun b => (a =? b) || (edgeCount triangleToPoints a b <=? 2))
            (pointsOf triangleToPoints))
       (pointsOf triangleToPoints).

(** Line 148: the candidate shares exactly two points with the triangle
    whose points are [vertexIndices]. *)
Definition sharesEdge (triangleToPoints : jsmap jsset) (vertexIndices : jsset)
  (candidate : nat) : bool :=
  List.length
    (intersectionOfSets (getOrNewSet triangleToPoints candidate) vertexIndices)
  =? 2.

(** §4.3 in the words of the specification, on the flat triangle array
    and with no reference to the maps or the counting of the border
    detector: triangle [c] shares an edge with triangle [t] when exactly
    two points are corners of both. *)
Definition sharesExactlyTwoPoints (triangles : list nat) (t c : nat) : Prop :=
  exists a b,
    a <> b
    /\ forall v, incident triangles v t /\ incident triangles v c <-> v = a \/ v = b.

(** [neighbours] lists, each once, the triangles sharing an edge with [t]. *)
Definition edgeNeighbours (triangles : list nat) (t : nat) (neighbours : list nat)
  : Prop :=
  NoDup neighbours
  /\ forall c, In c neighbours <-> sharesExactlyTwoPoints triangles t c.



(** What the loop of lines 68-77 maintains. *)
Record dualInvariant (d : DualMaps) : Prop := mkDualInvariant {
  vertexKeys : NoDup (map_keys (vertexIndexToTriangleIndices d));
  triangleKeys : NoDup (map_keys (triangleIndexToVertexIndices d));
  vertexSets : setsNoDup (vertexIndexToTriangleIndices d);
  triangleSets : setsNoDup (triangleIndexToVertexIndices d)
}.

(** §4.4 read as a refinement: what the scoring step inserts for a border
    vertex is what the guarded scorer of the specification prescribes. *)
Definition scorerRefinesGuarded (distance maxRange : number) : Prop :=
  forall borderVertex queue,
    Heap.items (scoreBorderVertex distance maxRange borderVertex queue)
    = Heap.items queue
      ++ match guardedScore (num_div distance maxRange) with
         | Some s => [mkBorderStar s borderVertex]
         | None => []
         end.


(** The last part of the claim about [play], as the claim words it:
    whenever the method returns, the player's credits are not negative. *)
Definition creditsNotNegativeOnReturn (play : action unit) : Prop :=
  forall w w',
    play w = (w', Ok tt) -> num_le (Zero false) (credits (player w')) = true.

(** The evaluation comes to an end: it returns or it throws. *)
Definition settled {A : Type} (r : result A) : Prop := r <> OutOfFuel.

Definition settles {A : Type} (c : action A) : Prop :=
  forall w, settled (snd (c w)).

(** The action never completes normally. *)
Definition neverReturns {A : Type} (c : action A) : Prop :=
  forall w w' a, c w <> (w', Ok a).

(** What line 46 of [play] does to the world. *)
Definition clampCredits (w : World) : World :=
  mkWorld (game w)
    (withCredits (Math_max (Zero false) (credits (player w))) (player w))
    (console w).

(** Two numbers are the same value: the same special value, or finite
    values that are equal as rationals. *)
Definition num_eqv (a b : number) : Prop :=
  match a, b with
  | NaN, NaN => True
  | Infinity s, Infinity t => s = t
  | Zero s, Zero t => s = t
  | Finite p, Finite q => (p == q)%Q
  | _, _ => False
  end.

(** One number is the other with the sign changed; the two zeros count as
    opposite to each other and to themselves. *)
Definition opposite (a b : number) : Prop :=
  match a, b with
  | NaN, NaN => True
  | Infinity s, Infinity t => s = negb t
  | Zero _, Zero _ => True
  | Finite p, Finite q => (p == - q)%Q
  | _, _ => False
  end.

(* ================================================================== *)
(** ** Inputs of the examples                                          *)
(* ================================================================== *)

Definition idleUpgrades : StarUpgradeService :=
  mkStarUpgradeService (fun _ _ _ _ w => (w, Returns tt)).

Definition idleCarriers : CarrierService :=
  mkCarrierService (fun w => (w, Returns tt)).

(** The star service of a player who owns the first star of the galaxy. *)
Definition firstStarOnly : StarService :=
  mkStarService (fun w => (w, Returns [0])).

Definition origin : Location := mkLocation (Zero false) (Zero false).

Definition defeatedPlayer : Player := mkPlayer 7 true false (Finite 10) "" one.

Definition activePlayer : Player := mkPlayer 7 false false (Finite 10) "" one.

(** A galaxy whose only star belongs to the player: no hostile star. *)
Definition peacefulGame : Game :=
  mkGame [mkStar (Some 7) origin false] [defeatedPlayer] 1 10 (Finite 50).

Definition aiService : AIService :=
  constructor idleUpgrades idleCarriers firstStarOnly mkDistanceService.

(* ================================================================== *)
(** ** Sets and maps                                                   *)
(* ================================================================== *)

Lemma set_has_In (s : jsset) (a : nat) : set_has s a = true <-> In a s.
Proof.
  unfold set_has. rewrite existsb_exists. split.
  - intros [b [Hb Heq]]. apply Nat.eqb_eq in Heq. now subst.
  - intro H. exists a. split; [assumption | apply Nat.eqb_refl].
Qed.

Lemma set_has_false (s : jsset) (a : nat) : set_has s a = false <-> ~ In a s.
Proof.
  rewrite <- set_has_In. destruct (set_has s a); split; intro H;
    try reflexivity; try discriminate; try (intro; discriminate).
  exfalso. now apply H.
Qed.

Lemma set_add_In (s : jsset) (a b : nat) : In b (set_add s a) <-> In b s \/ b = a.
Proof.
  unfold set_add. destruct (set_has s a) eqn:E.
  - apply set_has_In in E. split; [now left | intros [H | ->]; assumption].
  - rewrite in_app_iff. simpl. intuition.
Qed.

Lemma set_add_NoDup (s : jsset) (a : nat) : NoDup s -> NoDup (set_add s a).
Proof.
  intro H. unfold set_add. destruct (set_has s a) eqn:E; [assumption |].
  apply set_has_false in E.
  apply NoDup_rev in H. rewrite <- (rev_involutive (s ++ [a])).
  apply NoDup_rev. rewrite rev_app_distr. simpl. constructor.
  - now rewrite <- in_rev.
  - assumption.
Qed.

Lemma set_addAll_In (xs : list nat) (s : jsset) (b : nat) :
  In b (set_addAll s xs) <-> In b s \/ In b xs.
Proof.
  unfold set_addAll. revert s. induction xs as [| a xs IH]; intro s; simpl.
  - intuition.
  - rewrite IH, set_add_In. intuition.
Qed.

Lemma set_addAll_NoDup (xs : list nat) (s : jsset) :
  NoDup s -> NoDup (set_addAll s xs).
Proof.
  unfold set_addAll. revert s. induction xs as [| a xs IH]; intros s H; simpl.
  - assumption.
  - apply IH. now apply set_add_NoDup.
Qed.

Lemma map_get_set {V : Type} (m : jsmap V) (k k' : nat) (v : V) :
  map_get (map_set m k v) k' = if k' =? k then Some v else map_get m k'.
Proof.
  induction m as [| [k0 v0] m IH]; simpl.
  - destruct (k' =? k); reflexivity.
  - destruct (k =? k0) eqn:E; simpl.
    + apply Nat.eqb_eq in E. subst k0.
      destruct (k' =? k); reflexivity.
    + destruct (k' =? k0) eqn:E'.
      * apply Nat.eqb_eq in E'. subst k0.
        rewrite Nat.eqb_sym in E. now rewrite E.
      * apply IH.
Qed.

Lemma map_keys_set {V : Type} (m : jsmap V) (k k' : nat) (v : V) :
  In k' (map_keys (map_set m k v)) <-> In k' (map_keys m) \/ k' = k.
Proof.
  unfold map_keys. induction m as [| [k0 v0] m IH]; simpl.
  - intuition.
  - destruct (k =? k0) eqn:E; simpl.
    + apply Nat.eqb_eq in E. subst k0. intuition.
    + rewrite IH. intuition.
Qed.

Lemma map_set_NoDup {V : Type} (m : jsmap V) (k : nat) (v : V) :
  NoDup (map_keys m) -> NoDup (map_keys (map_set m k v)).
Proof.
  unfold map_keys. induction m as [| [k0 v0] m IH]; simpl; intro H.
  - constructor; [intros [] | constructor].
  - destruct (k =? k0) eqn:E; simpl.
    + apply Nat.eqb_eq in E. now subst k0.
    + inversion H as [| ? ? Hnin Hnd]; subst. constructor.
      * intro Hin. apply (map_keys_set m k k0 v) in Hin.
        destruct Hin as [Hin | ->]; [now apply Hnin |].
        now rewrite Nat.eqb_refl in E.
      * now apply IH.
Qed.

Lemma map_get_In {V : Type} (m : jsmap V) (k : nat) (v : V) :
  map_get m k = Some v -> In (k, v) m.
Proof.
  induction m as [| [k0 v0] m IH]; simpl; [discriminate |].
  destruct (k =? k0) eqn:E.
  - apply Nat.eqb_eq in E. subst k0. intro H. injection H as ->. now left.
  - intro H. right. now apply IH.
Qed.

Lemma map_get_keys {V : Type} (m : jsmap V) (k : nat) :
  In k (map_keys m) <-> map_get m k <> None.
Proof.
  unfold map_keys. induction m as [| [k0 v0] m IH]; simpl.
  - intuition.
  - destruct (k =? k0) eqn:E.
    + apply Nat.eqb_eq in E. subst k0. split; [discriminate | now left].
    + rewrite <- IH. apply Nat.eqb_neq in E. intuition.
Qed.

Lemma In_map_get {V : Type} (m : jsmap V) (k : nat) (v : V) :
  NoDup (map_keys m) -> In (k, v) m -> map_get m k = Some v.
Proof.
  unfold map_keys. induction m as [| [k0 v0] m IH]; simpl; [intros _ [] |].
  intros Hnd [Heq | Hin].
  - injection Heq as -> ->. now rewrite Nat.eqb_refl.
  - inversion Hnd as [| ? ? Hnin Hnd']; subst.
    destruct (k =? k0) eqn:E.
    + apply Nat.eqb_eq in E. subst k0. exfalso. apply Hnin.
      apply in_map_iff. now exists (k, v).
    + now apply IH.
Qed.

(** Registering [a] under key [k] adds exactly the pair [(k, a)]. *)
Lemma related_register (m : jsmap jsset) (k a k' a' : nat) :
  related (map_set m k (set_add (getOrNewSet m k) a)) k' a'
  <-> related m k' a' \/ (k' = k /\ a' = a).
Proof.
  unfold related, getOrNewSet. split.
  - intros [s [Hget Hin]]. rewrite map_get_set in Hget.
    destruct (k' =? k) eqn:E.
    + apply Nat.eqb_eq in E. subst k'. injection Hget as <-.
      apply set_add_In in Hin. destruct Hin as [Hin | ->]; [| now right].
      left. destruct (map_get m k) as [s0 |]; [| destruct Hin].
      now exists s0.
    + left. now exists s.
  - intros [[s [Hget Hin]] | [-> ->]].
    + destruct (k' =? k) eqn:E.
      * apply Nat.eqb_eq in E. subst k'.
        exists (set_add s a). rewrite map_get_set, Nat.eqb_refl, Hget.
        split; [reflexivity | apply set_add_In; now left].
      * exists s. now rewrite map_get_set, E.
    + eexists. rewrite map_get_set, Nat.eqb_refl. split; [reflexivity |].
      apply set_add_In. now right.
Qed.

(* ================================================================== *)
(** ** The dual mappings                                               *)
(* ================================================================== *)

Lemma incident_cons (a : nat) (rest : list nat) (i v t : nat) :
  (exists j, nth_error (a :: rest) j = Some v /\ (i + j) / 3 = t)
  <-> (v = a /\ t = i / 3)
      \/ exists j, nth_error rest j = Some v /\ (S i + j) / 3 = t.
Proof.
  split.
  - intros [[| j] [Hj Ht]]; cbn [nth_error] in Hj.
    + injection Hj as <-. rewrite Nat.add_0_r in Ht. left. now split.
    + right. exists j. split; [assumption |].
      now rewrite <- plus_n_Sm in Ht.
  - intros [[-> ->] | [j [Hj Ht]]].
    + exists 0. split; [reflexivity | now rewrite Nat.add_0_r].
    + exists (S j). split; [exact Hj |]. now rewrite <- plus_n_Sm.
Qed.

Lemma registerFrom_vertex_side (triangles : list nat) :
  forall i d v t,
    related (vertexIndexToTriangleIndices (registerFrom i triangles d)) v t
    <-> related (vertexIndexToTriangleIndices d) v t
        \/ exists j, nth_error triangles j = Some v /\ (i + j) / 3 = t.
Proof.
  induction triangles as [| a rest IH]; intros i d v t; cbn [registerFrom].
  - split; [now left | intros [H | [j [Hj _]]]; [assumption |]].
    destruct j; discriminate.
  - rewrite IH, incident_cons. unfold registerCorner at 1.
    cbn [vertexIndexToTriangleIndices]. rewrite related_register. tauto.
Qed.

Lemma registerFrom_triangle_side (triangles : list nat) :
  forall i d v t,
    related (triangleIndexToVertexIndices (registerFrom i triangles d)) t v
    <-> related (triangleIndexToVertexIndices d) t v
        \/ exists j, nth_error triangles j = Some v /\ (i + j) / 3 = t.
Proof.
  induction triangles as [| a rest IH]; intros i d v t; cbn [registerFrom].
  - split; [now left | intros [H | [j [Hj _]]]; [assumption |]].
    destruct j; discriminate.
  - rewrite IH, incident_cons. unfold registerCorner at 1.
    cbn [triangleIndexToVertexIndices]. rewrite related_register. tauto.
Qed.

Lemma related_empty (k a : nat) : ~ related [] k a.
Proof. intros [s [H _]]. discriminate. Qed.

(** Both mappings describe the incidence of the flat triangle array. *)
Lemma dualMaps_vertex_side (triangles : list nat) (v t : nat) :
  related (vertexIndexToTriangleIndices (dualMaps triangles)) v t
  <-> incident triangles v t.
Proof.
  unfold dualMaps, incident. rewrite registerFrom_vertex_side.
  cbn [vertexIndexToTriangleIndices Nat.add].
  split; [intros [H | H]; [now apply related_empty in H | assumption] | now right].
Qed.

Lemma dualMaps_triangle_side (triangles : list nat) (v t : nat) :
  related (triangleIndexToVertexIndices (dualMaps triangles)) t v
  <-> incident triangles v t.
Proof.
  unfold dualMaps, incident. rewrite registerFrom_triangle_side.
  cbn [triangleIndexToVertexIndices Nat.add].
  split; [intros [H | H]; [now apply related_empty in H | assumption] | now right].
Qed.

Lemma register_setsNoDup (m : jsmap jsset) (k a : nat) :
  setsNoDup m -> setsNoDup (map_set m k (set_add (getOrNewSet m k) a)).
Proof.
  intros H k' s. rewrite map_get_set. destruct (k' =? k).
  - intro E. injection E as <-. apply set_add_NoDup.
    unfold getOrNewSet. destruct (map_get m k) as [s0 |] eqn:E0.
    + now apply (H k).
    + constructor.
  - apply H.
Qed.

Lemma registerFrom_invariant (triangles : list nat) :
  forall i d, dualInvariant d -> dualInvariant (registerFrom i triangles d).
Proof.
  induction triangles as [| a rest IH]; intros i d H; simpl; [assumption |].
  apply IH. destruct H as [H1 H2 H3 H4]. unfold registerCorner.
  constructor; simpl.
  - now apply map_set_NoDup.
  - now apply map_set_NoDup.
  - now apply register_setsNoDup.
  - now apply register_setsNoDup.
Qed.

Lemma dualMaps_invariant (triangles : list nat) : dualInvariant (dualMaps triangles).
Proof.
  apply registerFrom_invariant. constructor; simpl; try constructor;
    intros k s H; discriminate.
Qed.

(* ================================================================== *)
(** ** The adjacency graph                                             *)
(* ================================================================== *)

Lemma related_cons (k : nat) (ts : jsset) (m : jsmap jsset) (v t : nat) :
  related ((k, ts) :: m) v t <-> (v = k /\ In t ts) \/ (v <> k /\ related m v t).
Proof.
  unfold related. cbn [map_get]. destruct (v =? k) eqn:E.
  - apply Nat.eqb_eq in E. subst v. split.
    + intros [s [Hs Ht]]. injection Hs as <-. left. now split.
    + intros [[_ Ht] | [Hc _]]; [| now contradiction Hc]. now exists ts.
  - apply Nat.eqb_neq in E. split.
    + intro H. right. now split.
    + intros [[Hc _] | [_ H]]; [now contradiction E | assumption].
Qed.

Lemma related_set (m : jsmap jsset) (k : nat) (s : jsset) (v w : nat) :
  related (map_set m k s) v w <-> (v = k /\ In w s) \/ (v <> k /\ related m v w).
Proof.
  unfold related. rewrite map_get_set. destruct (v =? k) eqn:E.
  - apply Nat.eqb_eq in E. subst v. split.
    + intros [s0 [Hs Hw]]. injection Hs as <-. left. now split.
    + intros [[_ Hw] | [Hc _]]; [| now contradiction Hc]. now exists s.
  - apply Nat.eqb_neq in E. split.
    + intro H. right. now split.
    + intros [[Hc _] | [_ H]]; [now contradiction E | assumption].
Qed.

Lemma map_get_cons_None {V : Type} (k : nat) (x : V) (m : jsmap V) (v : nat) :
  map_get ((k, x) :: m) v = None <-> v <> k /\ map_get m v = None.
Proof.
  cbn [map_get]. destruct (v =? k) eqn:E.
  - apply Nat.eqb_eq in E. split; [discriminate | intros [Hc _]; now contradiction Hc].
  - apply Nat.eqb_neq in E. tauto.
Qed.

(** The loop shared by lines 114-119 and 134-139: the union of the sets
    a map stores for the members of [ks]. *)
Lemma forOf_union (what : string) (m : jsmap jsset) (ks : list nat) :
  (forall k, In k ks -> map_get m k <> None) ->
  forall acc,
  exists s,
    forOf ks
      (fun union k =>
         members <- defined what (map_get m k) ;;
         Ok (set_addAll union members))
      acc = Ok s
    /\ (NoDup acc -> NoDup s)
    /\ forall w, In w s <-> In w acc \/ exists k, In k ks /\ related m k w.
Proof.
  induction ks as [| k ks IH]; intros H acc; cbn [forOf].
  - exists acc. split; [reflexivity |]. split; [trivial |].
    intro w. split; [now left |].
    intros [Hw | [k [[] _]]]. assumption.
  - destruct (map_get m k) as [vs |] eqn:E.
    + cbn [defined bind].
      destruct (IH (fun k' Hk' => H k' (or_intror Hk')) (set_addAll acc vs))
        as [s [Hs [Hnd Hin]]].
      exists s. split; [exact Hs |]. split.
      { intro Hacc. apply Hnd. now apply set_addAll_NoDup. }
      intro w. rewrite Hin, set_addAll_In.
      split.
      * intros [[Hw | Hw] | [k' [Hk' Hr]]].
        -- now left.
        -- right. exists k. split; [now left |]. now exists vs.
        -- right. exists k'. split; [now right | assumption].
      * intros [Hw | [k' [[<- | Hk'] Hr]]].
        -- left. now left.
        -- left. right. destruct Hr as [vs' [Hvs' Hw]]. rewrite E in Hvs'.
           now injection Hvs' as <-.
        -- right. now exists k'.
    + exfalso. apply (H k); [now left | assumption].
Qed.

Lemma otherVerticesOf_spec (triangleToPoints : jsmap jsset) (ts : list nat) :
  (forall t, In t ts -> map_get triangleToPoints t <> None) ->
  exists s,
    otherVerticesOf triangleToPoints ts = Ok s
    /\ forall w, In w s <-> exists t, In t ts /\ related triangleToPoints t w.
Proof.
  intro H.
  destruct (forOf_union "verticesForTriangle is not iterable"
              triangleToPoints ts H []) as [s [Hs [_ Hin]]].
  exists s. split; [exact Hs |]. intro w. rewrite Hin. split.
  - intros [[] | Hw]. assumption.
  - intro Hw. now right.
Qed.

Lemma triangleCandidatesOf_spec (pointToTriangles : jsmap jsset) (vs : list nat) :
  (forall v, In v vs -> map_get pointToTriangles v <> None) ->
  exists cs,
    triangleCandidatesOf pointToTriangles vs = Ok cs
    /\ NoDup cs
    /\ forall c, In c cs <-> exists v, In v vs /\ related pointToTriangles v c.
Proof.
  intro H.
  destruct (forOf_union "trianglesForVertex is not iterable"
              pointToTriangles vs H []) as [s [Hs [Hnd Hin]]].
  exists s. split; [exact Hs |]. split; [apply Hnd; constructor |].
  intro w. rewrite Hin. split.
  - intros [[] | Hw]. assumption.
  - intro Hw. now right.
Qed.

(** The graph has the keys of the point-to-triangles map, and the set
    stored for a point is the union of the points of its triangles. *)
Lemma computeVertexGraph_spec (pointToTriangles triangleToPoints : jsmap jsset) :
  NoDup (map_keys pointToTriangles) ->
  (forall v t, related pointToTriangles v t -> map_get triangleToPoints t <> None) ->
  exists g,
    _computeVertexGraph pointToTriangles triangleToPoints = Ok g
    /\ (forall v, map_get g v = None <-> map_get pointToTriangles v = None)
    /\ (forall v w, related g v w
                    <-> exists t, related pointToTriangles v t
                                  /\ related triangleToPoints t w).
Proof.
  unfold _computeVertexGraph.
  enough (Hgen : forall entries acc,
            NoDup (map_keys entries) ->
            (forall v t, related entries v t -> map_get triangleToPoints t <> None) ->
            exists g,
              forOf entries
                (fun acc entry =>
                   let '(vertexIndex, triangleIndices) := entry in
                   otherVertices <- otherVerticesOf triangleToPoints triangleIndices ;;
                   Ok (map_set acc vertexIndex otherVertices))
                acc = Ok g
              /\ (forall v, map_get g v = None
                            <-> map_get entries v = None /\ map_get acc v = None)
              /\ (forall v w, related g v w
                              <-> (exists t, related entries v t
                                             /\ related triangleToPoints t w)
                                  \/ (map_get entries v = None /\ related acc v w))).
  { intros Hnd Hclosed. destruct (Hgen pointToTriangles [] Hnd Hclosed)
      as [g [Hg [Hkeys Hrel]]].
    exists g. split; [exact Hg |]. split.
    - intro v. rewrite Hkeys. cbn [map_get]. tauto.
    - intros v w. rewrite Hrel. split; [| now left].
      intros [H | [_ H]]; [assumption | now apply related_empty in H]. }
  induction entries as [| [k ts] entries IH]; intros acc Hnd Hclosed; cbn [forOf].
  - exists acc. split; [reflexivity |]. split.
    + intro v. cbn [map_get]. tauto.
    + intros v w. cbn [map_get]. split; [now right |].
      intros [[t [H _]] | [_ H]]; [now apply related_empty in H | assumption].
  - assert (Hts : forall t, In t ts -> map_get triangleToPoints t <> None).
    { intros t Ht. apply (Hclosed k t). exists ts. cbn [map_get].
      rewrite Nat.eqb_refl. now split. }
    destruct (otherVerticesOf_spec triangleToPoints ts Hts) as [s [Hs Hin]].
    rewrite Hs. cbn [bind].
    unfold map_keys in Hnd. cbn [map fst] in Hnd.
    inversion Hnd as [| ? ? Hnin Hnd']; subst.
    assert (Hk : map_get entries k = None).
    { destruct (map_get entries k) eqn:E; [| reflexivity].
      exfalso. apply Hnin. apply (map_get_keys entries k). now rewrite E. }
    destruct (IH (map_set acc k s) Hnd') as [g [Hg [Hkeys Hrel]]].
    { intros v t [s0 [Hget Ht]]. apply (Hclosed v t). exists s0.
      cbn [map_get]. destruct (v =? k) eqn:E; [| now split].
      apply Nat.eqb_eq in E. subst v. rewrite Hk in Hget. discriminate. }
    exists g. split; [exact Hg |]. split.
    + intro v. rewrite Hkeys, map_get_set. cbn [map_get].
      destruct (v =? k) eqn:E.
      * split; [intros [_ H]; discriminate | intros [H _]; discriminate].
      * tauto.
    + intros v w. rewrite Hrel. setoid_rewrite related_cons.
      rewrite related_set, map_get_cons_None.
      destruct (Nat.eq_dec v k) as [-> | Hne].
      * split.
        -- intros [[t [[s0 [Hget _]] _]] | [_ [[_ Hw] | [Hc _]]]].
           ++ rewrite Hk in Hget. discriminate.
           ++ apply Hin in Hw. destruct Hw as [t [Ht Hr]].
              left. exists t. split; [left; now split | assumption].
           ++ now contradiction Hc.
        -- intros [[t [[[_ Ht] | [Hc _]] Hr]] | [[Hc _] _]];
             try now contradiction Hc.
           right. split; [exact Hk |]. left. split; [reflexivity |].
           apply Hin. now exists t.
      * split.
        -- intros [[t [Ht Hr]] | [Hnone [[Hc _] | [_ Hr]]]].
           ++ left. exists t. split; [right; now split | assumption].
           ++ now contradiction Hne.
           ++ right. split; [now split | assumption].
        -- intros [[t [[[Hc _] | [_ Ht]] Hr]] | [[_ Hnone] Hr]].
           ++ now contradiction Hne.
           ++ left. now exists t.
           ++ right. split; [assumption |]. right. now split.
Qed.

Lemma register_inhabited (m : jsmap jsset) (k a : nat) :
  (forall k' s, map_get m k' = Some s -> s <> []) ->
  forall k' s,
    map_get (map_set m k (set_add (getOrNewSet m k) a)) k' = Some s -> s <> [].
Proof.
  intros H k' s. rewrite map_get_set. destruct (k' =? k).
  - intro E. injection E as <-. intro Hnil.
    assert (Hin : In a (set_add (getOrNewSet m k) a)) by (apply set_add_In; now right).
    rewrite Hnil in Hin. destruct Hin.
  - apply H.
Qed.

Lemma registerFrom_inhabited (triangles : list nat) :
  forall i d,
    (forall k s, map_get (vertexIndexToTriangleIndices d) k = Some s -> s <> []) ->
    forall k s,
      map_get (vertexIndexToTriangleIndices (registerFrom i triangles d)) k = Some s ->
      s <> [].
Proof.
  induction triangles as [| a rest IH]; intros i d H; cbn [registerFrom];
    [assumption |].
  apply IH. unfold registerCorner. cbn [vertexIndexToTriangleIndices].
  now apply register_inhabited.
Qed.

Lemma dualMaps_vertex_keys (triangles : list nat) (v : nat) :
  map_get (vertexIndexToTriangleIndices (dualMaps triangles)) v <> None
  <-> exists t, incident triangles v t.
Proof.
  split.
  - intro H.
    destruct (map_get (vertexIndexToTriangleIndices (dualMaps triangles)) v)
      as [s |] eqn:E; [| now contradiction H].
    assert (Hs : s <> []).
    { apply (registerFrom_inhabited triangles 0 (mkDual [] []))
        with (k := v); [intros k s0 H0; discriminate | exact E]. }
    destruct s as [| t s]; [now contradiction Hs |].
    exists t. apply dualMaps_vertex_side. exists (t :: s). split; [exact E | now left].
  - intros [t Ht]. apply dualMaps_vertex_side in Ht. destruct Ht as [s [Hs _]].
    rewrite Hs. discriminate.
Qed.

(** C5, as the code has it: for every point of the triangulation the
    adjacency set computed by [_computeVertexGraph] is the union of the
    point sets of all triangles that contain the point; the point itself is
    a member of that union and is not removed from it. *)
Theorem vertexGraph_union_including_self (triangles : list nat) :
  exists g,
    vertexGraphOf triangles = Ok g
    /\ forall v,
         (map_get g v <> None <-> exists t, incident triangles v t)
         /\ forall adj,
              map_get g v = Some adj ->
              In v adj
              /\ forall w, In w adj
                           <-> exists t, incident triangles v t
                                         /\ incident triangles w t.
Proof.
  unfold vertexGraphOf. cbv zeta.
  destruct (dualMaps_invariant triangles) as [Hv Ht Hvs Hts].
  destruct (computeVertexGraph_spec
              (vertexIndexToTriangleIndices (dualMaps triangles))
              (triangleIndexToVertexIndices (dualMaps triangles)) Hv)
    as [g [Hg [Hkeys Hrel]]].
  { intros v t Hr. apply dualMaps_vertex_side in Hr.
    apply dualMaps_triangle_side in Hr. destruct Hr as [s [Hs _]].
    rewrite Hs. discriminate. }
  exists g. split; [exact Hg |]. intro v.
  assert (Hchar : forall w, related g v w
                            <-> exists t, incident triangles v t
                                          /\ incident triangles w t).
  { intro w. rewrite Hrel. split; intros [t [H1 H2]]; exists t.
    - split; [now apply dualMaps_vertex_side | now apply dualMaps_triangle_side].
    - split; [now apply dualMaps_vertex_side | now apply dualMaps_triangle_side]. }
  split.
  - rewrite <- dualMaps_vertex_keys. rewrite Hkeys. tauto.
  - intros adj Hadj.
    assert (Hin : forall w, In w adj <-> related g v w).
    { intro w. split.
      - intro Hw. now exists adj.
      - intros [s [Hs Hw]]. rewrite Hadj in Hs. now injection Hs as <-. }
    split.
    + assert (Hkey : map_get g v <> None) by (rewrite Hadj; discriminate).
      rewrite Hkeys in Hkey. apply dualMaps_vertex_keys in Hkey.
      destruct Hkey as [t Hinc]. apply Hin, Hchar. now exists t.
    + intro w. rewrite Hin. apply Hchar.
Qed.

(** C5, as stated, fails on a single triangle: the adjacency set of point
    0 is [{0, 1, 2}], which contains 0. *)
Lemma adjacency_contains_self : ~ adjacencyExcludesSelf [0; 1; 2].
Proof.
  intro H.
  destruct (H [(0, [0; 1; 2]); (1, [0; 1; 2]); (2, [0; 1; 2])] 0 [0; 1; 2]
              eq_refl eq_refl 0) as [Hex _].
  destruct (Hex (or_introl eq_refl)) as [Hne _]. now apply Hne.
Qed.

(* ================================================================== *)
(** ** The border detector                                             *)
(* ================================================================== *)

Lemma arrayMap_total {A B : Type} (f : A -> result B) (g : A -> B) (xs : list A) :
  (forall a, In a xs -> f a = Ok (g a)) -> arrayMap f xs = Ok (map g xs).
Proof.
  induction xs as [| a xs IH]; intro H; cbn [arrayMap map]; [reflexivity |].
  rewrite (H a (or_introl eq_refl)). cbn [bind].
  rewrite IH; [reflexivity |]. intros a' Ha'. apply H. now right.
Qed.

Lemma filter_map_length {A B : Type} (p : B -> bool) (g : A -> B) (xs : list A) :
  List.length (filter p (map g xs)) = List.length (filter (fun a => p (g a)) xs).
Proof.
  induction xs as [| a xs IH]; cbn [map filter]; [reflexivity |].
  destruct (p (g a)); cbn [List.length]; now rewrite IH.
Qed.

Lemma getOrNewSet_get (m : jsmap jsset) (k : nat) (s : jsset) :
  map_get m k = Some s -> getOrNewSet m k = s.
Proof. unfold getOrNewSet. now intros ->. Qed.

Lemma trianglesWithTwoSharedVerticesOf_spec
  (triangleToPoints : jsmap jsset) (vs cs : jsset) :
  (forall c, In c cs -> map_get triangleToPoints c <> None) ->
  exists two,
    trianglesWithTwoSharedVerticesOf triangleToPoints vs cs = Ok two
    /\ List.length two = List.length (filter (sharesEdge triangleToPoints vs) cs).
Proof.
  intro H. unfold trianglesWithTwoSharedVerticesOf.
  rewrite (arrayMap_total _
             (fun c => mkCandidate
                         (intersectionOfSets (getOrNewSet triangleToPoints c) vs) c)).
  - cbn [bind]. eexists. split; [reflexivity |].
    now rewrite filter_map_length.
  - intros c Hc. destruct (map_get triangleToPoints c) as [vc |] eqn:E.
    + cbn [defined bind]. now rewrite (getOrNewSet_get _ _ _ E).
    + now contradiction (H c Hc).
Qed.

Lemma keys_le_edgeCount (triangleToPoints : jsmap jsset) (p q : nat) (ks : list nat) :
  NoDup ks ->
  (forall k, In k ks ->
             exists vk, map_get triangleToPoints k = Some vk
                        /\ set_has vk p = true /\ set_has vk q = true) ->
  List.length ks <= edgeCount triangleToPoints p q.
Proof.
  intros Hnd H. unfold edgeCount.
  rewrite <- (length_map fst
                (filter (fun e => set_has (snd e) p && set_has (snd e) q)
                   triangleToPoints)).
  apply NoDup_incl_length; [assumption |].
  intros k Hk. destruct (H k Hk) as [vk [Hget [Hp Hq]]].
  apply in_map_iff. exists (k, vk). split; [reflexivity |].
  apply filter_In. split; [now apply map_get_In |].
  cbn [snd]. now rewrite Hp, Hq.
Qed.

Lemma two_common_points (a b c : nat) (vx : list nat) :
  NoDup vx ->
  List.length (intersectionOfSets vx [a; b; c]) = 2 ->
  (set_has vx a && set_has vx b) || (set_has vx a && set_has vx c)
  || (set_has vx b && set_has vx c) = true.
Proof.
  intros Hnd Hlen. unfold intersectionOfSets in Hlen.
  assert (Hnd' : NoDup (filter (set_has [a; b; c]) vx)) by now apply NoDup_filter.
  assert (Hall : forall u, In u (filter (set_has [a; b; c]) vx) ->
                           set_has vx u = true /\ (u = a \/ u = b \/ u = c)).
  { intros u Hu. apply filter_In in Hu. destruct Hu as [Hin Hhas].
    split; [now apply set_has_In |].
    apply set_has_In in Hhas. cbn [In] in Hhas. intuition. }
  destruct (filter (set_has [a; b; c]) vx) as [| u [| w [| ? ?]]];
    try discriminate.
  destruct (Hall u (or_introl eq_refl)) as [Hu Hu'].
  destruct (Hall w (or_intror (or_introl eq_refl))) as [Hw Hw'].
  assert (Hne : u <> w).
  { inversion Hnd' as [| ? ? Hnin _]; subst. intro E. apply Hnin. now left. }
  destruct Hu' as [-> | [-> | ->]]; destruct Hw' as [-> | [-> | ->]];
    try (now contradiction Hne); rewrite Hu, Hw;
    destruct (set_has vx a), (set_has vx b), (set_has vx c); reflexivity.
Qed.

Lemma filter3_length {A : Type} (f g h : A -> bool) (l : list A) :
  (forall a, In a l -> f a || g a || h a = true) ->
  List.length l
  <= List.length (filter f l) + List.length (filter g l) + List.length (filter h l).
Proof.
  induction l as [| a l IH]; intro H; cbn [filter List.length]; [lia |].
  assert (IH' := IH (fun a' Ha' => H a' (or_intror Ha'))).
  assert (Ha := H a (or_introl eq_refl)).
  destruct (f a), (g a), (h a); cbn [List.length]; try discriminate; lia.
Qed.

Lemma intersection_self (vs : jsset) : intersectionOfSets vs vs = vs.
Proof.
  unfold intersectionOfSets.
  assert (H : forall l, (forall a, In a l -> In a vs) -> filter (set_has vs) l = l).
  { induction l as [| a l IH]; intro H; cbn [filter]; [reflexivity |].
    assert (Ha : set_has vs a = true) by (apply set_has_In, H; now left).
    rewrite Ha. f_equal. apply IH. intros a' Ha'. apply H. now right. }
  apply H. trivial.
Qed.

Lemma isTriangulation_three (triangleToPoints : jsmap jsset) (t : nat) (vs : jsset) :
  isTriangulation triangleToPoints = true ->
  map_get triangleToPoints t = Some vs ->
  List.length vs = 3.
Proof.
  unfold isTriangulation. intros H Hget. apply andb_prop in H. destruct H as [H _].
  rewrite forallb_forall in H. apply map_get_In in Hget.
  apply H in Hget. cbn [snd] in Hget. now apply Nat.eqb_eq.
Qed.

Lemma isTriangulation_edge (triangleToPoints : jsmap jsset)
  (t : nat) (vs : jsset) (p q : nat) :
  isTriangulation triangleToPoints = true ->
  map_get triangleToPoints t = Some vs ->
  In p vs -> In q vs -> p <> q ->
  edgeCount triangleToPoints p q <= 2.
Proof.
  unfold isTriangulation. intros H Hget Hp Hq Hne.
  apply andb_prop in H. destruct H as [_ H].
  rewrite forallb_forall in H. apply map_get_In in Hget.
  assert (Hin : forall a, In a vs -> In a (pointsOf triangleToPoints)).
  { intros a Ha. unfold pointsOf. apply in_flat_map. now exists (t, vs). }
  specialize (H p (Hin p Hp)). rewrite forallb_forall in H.
  specialize (H q (Hin q Hq)). apply orb_prop in H. destruct H as [H | H].
  - apply Nat.eqb_eq in H. now contradiction Hne.
  - now apply Nat.leb_le.
Qed.

(** Besides the triangle itself at most one triangle contains a given
    edge of it. *)
Lemma pair_neighbours_le_1 (triangleToPoints : jsmap jsset)
  (t : nat) (vs : jsset) (p q : nat) (F : list nat) :
  isTriangulation triangleToPoints = true ->
  map_get triangleToPoints t = Some vs ->
  In p vs -> In q vs -> p <> q ->
  NoDup F -> ~ In t F ->
  (forall c, In c F -> map_get triangleToPoints c <> None) ->
  List.length
    (filter (fun c => set_has (getOrNewSet triangleToPoints c) p
                      && set_has (getOrNewSet triangleToPoints c) q) F) <= 1.
Proof.
  intros Htri Hget Hp Hq Hne Hnd Hnin Hdef.
  set (G := filter _ F).
  assert (Hle : List.length (t :: G) <= edgeCount triangleToPoints p q).
  { apply keys_le_edgeCount.
    - constructor.
      + intro Hin. apply filter_In in Hin. now apply Hnin.
      + now apply NoDup_filter.
    - intros k [<- | Hk].
      + exists vs. repeat split; [assumption | |]; now apply set_has_In.
      + apply filter_In in Hk. destruct Hk as [HkF Hk].
        apply andb_prop in Hk. destruct Hk as [Hkp Hkq].
        destruct (map_get triangleToPoints k) as [vk |] eqn:E;
          [| now contradiction (Hdef k HkF)].
        rewrite (getOrNewSet_get _ _ _ E) in Hkp, Hkq.
        exists vk. now repeat split. }
  assert (H2 := isTriangulation_edge _ _ _ _ _ Htri Hget Hp Hq Hne).
  cbn [List.length] in Hle. lia.
Qed.

(** A triangle of a triangulation has at most three neighbours across an
    edge. *)
Lemma edge_neighbours_le_3 (triangleToPoints : jsmap jsset)
  (t : nat) (vs : jsset) (cs : list nat) :
  isTriangulation triangleToPoints = true ->
  setsNoDup triangleToPoints ->
  map_get triangleToPoints t = Some vs ->
  NoDup cs ->
  (forall c, In c cs -> map_get triangleToPoints c <> None) ->
  List.length (filter (sharesEdge triangleToPoints vs) cs) <= 3.
Proof.
  intros Htri Hsets Hget Hnd Hdef.
  assert (Hlen := isTriangulation_three _ _ _ Htri Hget).
  assert (Hvs := Hsets _ _ Hget).
  destruct vs as [| a [| b [| c [| ? ?]]]]; try discriminate.
  assert (Hab : a <> b /\ a <> c /\ b <> c).
  { inversion Hvs as [| ? ? Ha Hvs']; subst.
    inversion Hvs' as [| ? ? Hb _]; subst. cbn [In] in Ha, Hb. intuition. }
  destruct Hab as [Hab [Hac Hbc]].
  set (F := filter (sharesEdge triangleToPoints [a; b; c]) cs).
  assert (HF : forall k, In k F -> In k cs /\ sharesEdge triangleToPoints [a; b; c] k = true).
  { intros k Hk. now apply filter_In in Hk. }
  assert (HndF : NoDup F) by now apply NoDup_filter.
  assert (HdefF : forall k, In k F -> map_get triangleToPoints k <> None).
  { intros k Hk. now apply Hdef, HF. }
  assert (Hself : ~ In t F).
  { intro Hin. apply HF in Hin. destruct Hin as [_ Hin].
    unfold sharesEdge in Hin. rewrite (getOrNewSet_get _ _ _ Hget) in Hin.
    rewrite intersection_self in Hin. discriminate. }
  etransitivity.
  - apply (filter3_length
             (fun k => set_has (getOrNewSet triangleToPoints k) a
                       && set_has (getOrNewSet triangleToPoints k) b)
             (fun k => set_has (getOrNewSet triangleToPoints k) a
                       && set_has (getOrNewSet triangleToPoints k) c)
             (fun k => set_has (getOrNewSet triangleToPoints k) b
                       && set_has (getOrNewSet triangleToPoints k) c)).
    intros k Hk. apply two_common_points.
    + destruct (map_get triangleToPoints k) as [vk |] eqn:E;
        [| now contradiction (HdefF k Hk)].
      rewrite (getOrNewSet_get _ _ _ E). now apply (Hsets k).
    + apply HF in Hk. destruct Hk as [_ Hk]. unfold sharesEdge in Hk.
      now apply Nat.eqb_eq.
  - assert (H1 := pair_neighbours_le_1 triangleToPoints t [a; b; c] a b F
                    Htri Hget (or_introl eq_refl) (or_intror (or_introl eq_refl))
                    Hab HndF Hself HdefF).
    assert (H2 := pair_neighbours_le_1 triangleToPoints t [a; b; c] a c F
                    Htri Hget (or_introl eq_refl)
                    (or_intror (or_intror (or_introl eq_refl)))
                    Hac HndF Hself HdefF).
    assert (H3 := pair_neighbours_le_1 triangleToPoints t [a; b; c] b c F
                    Htri Hget (or_intror (or_introl eq_refl))
                    (or_intror (or_intror (or_introl eq_refl)))
                    Hbc HndF Hself HdefF).
    lia.
Qed.

(** On the dual mappings of a triangle array the count is defined: it is
    the number of candidates that share exactly two points. *)
Lemma edgeNeighbourCount_defined (triangles : list nat) (t : nat) (vs : jsset) :
  map_get (triangleIndexToVertexIndices (dualMaps triangles)) t = Some vs ->
  exists cs,
    NoDup cs
    /\ (forall c, In c cs ->
                  map_get (triangleIndexToVertexIndices (dualMaps triangles)) c <> None)
    /\ edgeNeighbourCount (triangleIndexToVertexIndices (dualMaps triangles))
         (vertexIndexToTriangleIndices (dualMaps triangles)) vs
       = Ok (List.length
               (filter (sharesEdge (triangleIndexToVertexIndices (dualMaps triangles)) vs)
                  cs)).
Proof.
  intro Hget. set (d := dualMaps triangles) in *.
  destruct (triangleCandidatesOf_spec (vertexIndexToTriangleIndices d) vs)
    as [cs [Hcs [Hnd Hin]]].
  { intros v Hv. apply dualMaps_vertex_keys. exists t.
    apply dualMaps_triangle_side. now exists vs. }
  assert (Hdef : forall c, In c cs -> map_get (triangleIndexToVertexIndices d) c <> None).
  { intros c Hc. apply Hin in Hc. destruct Hc as [v [_ Hr]].
    apply dualMaps_vertex_side, dualMaps_triangle_side in Hr.
    destruct Hr as [s [Hs _]]. fold d in Hs. rewrite Hs. discriminate. }
  destruct (trianglesWithTwoSharedVerticesOf_spec
              (triangleIndexToVertexIndices d) vs cs Hdef) as [two [Htwo Hlen]].
  exists cs. split; [assumption |]. split; [assumption |].
  unfold edgeNeighbourCount. rewrite Hcs. cbn [bind]. rewrite Htwo. cbn [bind].
  now rewrite Hlen.
Qed.

Lemma classifyTriangle_spec (triangleToPoints pointToTriangles : jsmap jsset)
  (b : BorderTriangles) (k : nat) (vs : jsset) (n : nat) :
  edgeNeighbourCount triangleToPoints pointToTriangles vs = Ok n ->
  exists b',
    classifyTriangle triangleToPoints pointToTriangles b (k, vs) = Ok b'
    /\ forall t, In t (borderTriangles b')
                 <-> In t (borderTriangles b) \/ (t = k /\ n < 3).
Proof.
  unfold edgeNeighbourCount, classifyTriangle.
  destruct (triangleCandidatesOf pointToTriangles vs) as [cs | |];
    cbn [bind]; try discriminate.
  destruct (trianglesWithTwoSharedVerticesOf triangleToPoints vs cs) as [two | |];
    cbn [bind]; try discriminate.
  intro H. injection H as <-.
  destruct (List.length two <? 3) eqn:E.
  - apply Nat.ltb_lt in E. eexists. split; [reflexivity |].
    intro t. cbn [borderTriangles]. rewrite set_add_In. tauto.
  - apply Nat.ltb_ge in E. exists b. split; [reflexivity |].
    intro t. split; [now left |]. intros [H | [_ H]]; [assumption | lia].
Qed.

Lemma forOf_classify (triangleToPoints pointToTriangles : jsmap jsset)
  (entries : jsmap jsset) :
  (forall k vs, In (k, vs) entries ->
                exists n, edgeNeighbourCount triangleToPoints pointToTriangles vs = Ok n) ->
  forall b,
  exists b',
    forOf entries (classifyTriangle triangleToPoints pointToTriangles) b = Ok b'
    /\ forall t, In t (borderTriangles b')
                 <-> In t (borderTriangles b)
                     \/ exists vs n,
                          In (t, vs) entries
                          /\ edgeNeighbourCount triangleToPoints pointToTriangles vs = Ok n
                          /\ n < 3.
Proof.
  induction entries as [| [k vs] entries IH]; intros H b; cbn [forOf].
  - exists b. split; [reflexivity |]. intro t. split; [now left |].
    intros [Ht | [vs [n [[] _]]]]. assumption.
  - destruct (H k vs (or_introl eq_refl)) as [n Hn].
    destruct (classifyTriangle_spec _ _ b k vs n Hn) as [b1 [Hb1 Hin1]].
    rewrite Hb1. cbn [bind].
    destruct (IH (fun k' vs' Hin => H k' vs' (or_intror Hin)) b1) as [b' [Hb' Hin']].
    exists b'. split; [exact Hb' |]. intro t. rewrite Hin', Hin1. split.
    + intros [[Ht | [-> Hlt]] | [vs' [n' [Hin [Hn' Hlt]]]]].
      * now left.
      * right. exists vs, n. repeat split; [now left | assumption | assumption].
      * right. exists vs', n'. repeat split; [now right | assumption | assumption].
    + intros [Ht | [vs' [n' [[Heq | Hin] [Hn' Hlt]]]]].
      * left. now left.
      * injection Heq as <- <-. rewrite Hn in Hn'. injection Hn' as <-.
        left. right. now split.
      * right. now exists vs', n'.
Qed.

Lemma intersection_In (a b : jsset) (v : nat) :
  In v (intersectionOfSets a b) <-> In v a /\ In v b.
Proof.
  unfold intersectionOfSets. rewrite filter_In, set_has_In. reflexivity.
Qed.

Lemma exactly_two_length (l : list nat) (a b : nat) :
  NoDup l -> a <> b -> (forall v, In v l <-> v = a \/ v = b) -> List.length l = 2.
Proof.
  intros Hnd Hab H. apply Nat.le_antisymm.
  - apply (NoDup_incl_length (l' := [a; b]) Hnd).
    intros v Hv. apply H in Hv. cbn [In]. intuition.
  - apply (NoDup_incl_length (l := [a; b])).
    + constructor; [| constructor; [intros [] | constructor]].
      intros [E | []]. now apply Hab.
    + intros v [<- | [<- | []]]; apply H; [now left | now right].
Qed.

Lemma length_two_members (l : list nat) :
  NoDup l -> List.length l = 2 ->
  exists a b, a <> b /\ forall v, In v l <-> v = a \/ v = b.
Proof.
  destruct l as [| a [| b [| c l]]]; try discriminate. intros Hnd _.
  exists a, b. split.
  - intros ->. inversion Hnd as [| ? ? Hn _]. apply Hn. now left.
  - intro v. cbn [In]. intuition.
Qed.

(** The test of line 148 is the specification's "shares exactly two
    points", read on the triangle array. *)
Lemma sharesEdge_spec (triangles : list nat) (t c : nat) (vs : jsset) :
  map_get (triangleIndexToVertexIndices (dualMaps triangles)) t = Some vs ->
  sharesEdge (triangleIndexToVertexIndices (dualMaps triangles)) vs c = true
  <-> sharesExactlyTwoPoints triangles t c.
Proof.
  intro Hget. destruct (dualMaps_invariant triangles) as [_ _ _ Hsets].
  set (d := dualMaps triangles) in *. unfold sharesEdge, getOrNewSet.
  assert (Hvs : forall v, In v vs <-> incident triangles v t).
  { intro v. rewrite <- dualMaps_triangle_side. fold d. split.
    - intro Hv. now exists vs.
    - intros [s [Hs Hv]]. rewrite Hget in Hs. now injection Hs as <-. }
  destruct (map_get (triangleIndexToVertexIndices d) c) as [vc |] eqn:Ec.
  - assert (Hvc : forall v, In v vc <-> incident triangles v c).
    { intro v. rewrite <- dualMaps_triangle_side. fold d. split.
      - intro Hv. now exists vc.
      - intros [s [Hs Hv]]. rewrite Ec in Hs. now injection Hs as <-. }
    assert (Hnd : NoDup (intersectionOfSets vc vs)).
    { unfold intersectionOfSets. apply NoDup_filter. exact (Hsets c vc Ec). }
    assert (Hin : forall v, In v (intersectionOfSets vc vs)
                            <-> incident triangles v t /\ incident triangles v c).
    { intro v. rewrite intersection_In, Hvs, Hvc. tauto. }
    rewrite Nat.eqb_eq. split.
    + intro Hlen. destruct (length_two_members _ Hnd Hlen) as [a [b [Hab H]]].
      exists a, b. split; [exact Hab |]. intro v. now rewrite <- Hin.
    + intros [a [b [Hab H]]]. apply (exactly_two_length _ a b Hnd Hab).
      intro v. now rewrite Hin.
  - split; [discriminate |]. intros [a [b [_ H]]].
    destruct (proj2 (H a) (or_introl eq_refl)) as [_ Hc].
    apply dualMaps_triangle_side in Hc. destruct Hc as [s [Hs _]].
    fold d in Hs. rewrite Ec in Hs. discriminate.
Qed.

(** The number the border detector counts for a triangle is the number of
    triangles that share an edge with it. *)
Lemma edgeNeighbours_counted (triangles : list nat) (t : nat) (vs : jsset) :
  map_get (triangleIndexToVertexIndices (dualMaps triangles)) t = Some vs ->
  exists cs,
    NoDup cs
    /\ (forall c, In c cs ->
                  map_get (triangleIndexToVertexIndices (dualMaps triangles)) c <> None)
    /\ edgeNeighbours triangles t
         (filter (sharesEdge (triangleIndexToVertexIndices (dualMaps triangles)) vs) cs)
    /\ edgeNeighbourCount (triangleIndexToVertexIndices (dualMaps triangles))
         (vertexIndexToTriangleIndices (dualMaps triangles)) vs
       = Ok (List.length
               (filter (sharesEdge (triangleIndexToVertexIndices (dualMaps triangles)) vs)
                  cs)).
Proof.
  intro Hget. set (d := dualMaps triangles) in *.
  destruct (triangleCandidatesOf_spec (vertexIndexToTriangleIndices d) vs)
    as [cs [Hcs [Hnd Hin]]].
  { intros v Hv. apply dualMaps_vertex_keys. exists t.
    apply dualMaps_triangle_side. now exists vs. }
  assert (Hdef : forall c, In c cs -> map_get (triangleIndexToVertexIndices d) c <> None).
  { intros c Hc. apply Hin in Hc. destruct Hc as [v [_ Hr]].
    apply dualMaps_vertex_side, dualMaps_triangle_side in Hr.
    destruct Hr as [s [Hs _]]. fold d in Hs. rewrite Hs. discriminate. }
  destruct (trianglesWithTwoSharedVerticesOf_spec
              (triangleIndexToVertexIndices d) vs cs Hdef) as [two [Htwo Hlen]].
  exists cs. split; [assumption |]. split; [assumption |]. split.
  - split; [now apply NoDup_filter |]. intro c.
    rewrite filter_In. unfold d. rewrite (sharesEdge_spec triangles t c vs Hget).
    split; [now intros [_ H] |]. intro H. split; [| exact H].
    apply Hin. destruct H as [a [b [_ H]]].
    destruct (proj2 (H a) (or_introl eq_refl)) as [Hat Hac].
    exists a. split.
    + apply dualMaps_triangle_side in Hat. destruct Hat as [s [Hs Ha]].
      fold d in Hs. rewrite Hget in Hs. now injection Hs as <-.
    + now apply dualMaps_vertex_side.
  - unfold edgeNeighbourCount. rewrite Hcs. cbn [bind]. rewrite Htwo. cbn [bind].
    now rewrite Hlen.
Qed.

(** C6: in a triangulation (every triangle has three points and no edge
    belongs to more than two triangles) a triangle has between 0 and 3
    edge-sharing neighbours, the triangles that have exactly two points in
    common with it; that number is the one the border detector counts,
    and the first loop of [_computeBorderVertices] puts a triangle into
    [borderTriangles] exactly when it has fewer than 3 such neighbours. *)
Theorem border_classification (triangles : list nat) :
  isTriangulation (triangleIndexToVertexIndices (dualMaps triangles)) = true ->
  exists b,
    classifyTriangles (triangleIndexToVertexIndices (dualMaps triangles))
      (vertexIndexToTriangleIndices (dualMaps triangles)) = Ok b
    /\ forall t vs,
         map_get (triangleIndexToVertexIndices (dualMaps triangles)) t = Some vs ->
         exists neighbours,
           edgeNeighbours triangles t neighbours
           /\ 0 <= List.length neighbours <= 3
           /\ edgeNeighbourCount (triangleIndexToVertexIndices (dualMaps triangles))
                (vertexIndexToTriangleIndices (dualMaps triangles)) vs
              = Ok (List.length neighbours)
           /\ (In t (borderTriangles b) <-> List.length neighbours < 3).
Proof.
  intro Htri. destruct (dualMaps_invariant triangles) as [_ Hkeys _ Hsets].
  set (d := dualMaps triangles) in *.
  assert (Hcount : forall k vs,
             In (k, vs) (triangleIndexToVertexIndices d) ->
             exists n, edgeNeighbourCount (triangleIndexToVertexIndices d)
                         (vertexIndexToTriangleIndices d) vs = Ok n).
  { intros k vs Hin. apply (In_map_get _ _ _ Hkeys) in Hin.
    destruct (edgeNeighbours_counted triangles k vs Hin) as [cs [_ [_ [_ H]]]].
    eexists. exact H. }
  destruct (forOf_classify _ _ (triangleIndexToVertexIndices d) Hcount (mkBorder [] []))
    as [b [Hb Hin]].
  exists b. split; [exact Hb |]. intros t vs Hget.
  destruct (edgeNeighbours_counted triangles t vs Hget)
    as [cs [Hnd [Hdef [Hspec Hn]]]].
  fold d in Hn, Hdef, Hspec. eexists. split; [exact Hspec |]. split; [| split].
  - split; [lia |]. now apply (edge_neighbours_le_3 _ t).
  - exact Hn.
  - rewrite Hin. cbn [borderTriangles In]. split.
    + intros [[] | [vs' [n' [Hin' [Hn' Hlt]]]]].
      apply (In_map_get _ _ _ Hkeys) in Hin'. rewrite Hget in Hin'.
      injection Hin' as <-. rewrite Hn in Hn'. now injection Hn' as ->.
    + intro Hlt. right. eexists. eexists. split; [| split; [exact Hn | exact Hlt]].
      now apply map_get_In.
Qed.

(** Two triangles over the corners of a square, sharing the diagonal. *)
Lemma border_classification_square :
  isTriangulation (triangleIndexToVertexIndices (dualMaps [0; 1; 2; 2; 1; 3])) = true
  /\ exists b,
       classifyTriangles (triangleIndexToVertexIndices (dualMaps [0; 1; 2; 2; 1; 3]))
         (vertexIndexToTriangleIndices (dualMaps [0; 1; 2; 2; 1; 3])) = Ok b
       /\ forall t vs,
            map_get (triangleIndexToVertexIndices (dualMaps [0; 1; 2; 2; 1; 3])) t
            = Some vs ->
            exists neighbours,
              edgeNeighbours [0; 1; 2; 2; 1; 3] t neighbours
              /\ 0 <= List.length neighbours <= 3
              /\ edgeNeighbourCount
                   (triangleIndexToVertexIndices (dualMaps [0; 1; 2; 2; 1; 3]))
                   (vertexIndexToTriangleIndices (dualMaps [0; 1; 2; 2; 1; 3])) vs
                 = Ok (List.length neighbours)
              /\ (In t (borderTriangles b) <-> List.length neighbours < 3).
Proof.
  split; [reflexivity |].
  apply (border_classification [0; 1; 2; 2; 1; 3]). reflexivity.
Defined.

(** Without the triangulation condition the bound fails: five triangles
    around the edge 0-1 give triangle 0 four edge-sharing neighbours. *)
Example fan_has_four_neighbours :
  edgeNeighbourCount
    (triangleIndexToVertexIndices (dualMaps [0;1;2; 0;1;3; 0;1;4; 0;1;5; 0;1;6]))
    (vertexIndexToTriangleIndices (dualMaps [0;1;2; 0;1;3; 0;1;4; 0;1;5; 0;1;6]))
    [0; 1; 2]
  = Ok 4.
Proof. reflexivity. Qed.

(* ================================================================== *)
(** ** The carrier loops                                               *)
(* ================================================================== *)

Lemma push_all {E : Type} (playerStars : list E) (start : nat) (connected : list nat) :
  forall loops,
    fold_left
      (fun loops end_ =>
         push loops
           (CarrierLoop.mk (nth_error playerStars start) (nth_error playerStars end_)))
      connected loops
    = loops
      ++ map (fun end_ =>
                Item (CarrierLoop.mk (nth_error playerStars start)
                                     (nth_error playerStars end_)))
           connected.
Proof.
  induction connected as [| e connected IH]; intro loops; cbn [fold_left map].
  - now rewrite app_nil_r.
  - rewrite IH. unfold push. now rewrite <- app_assoc.
Qed.

(** What the method returns: as many empty slots as the graph has
    sources, followed by one descriptor per edge. *)
Lemma computeCarrierLoops_shape {E : Type}
  (logisticsGraph : jsmap jsset) (playerStars : list E) :
  _computeCarrierLoopsFromGraph logisticsGraph playerStars
  = new_Array (List.length logisticsGraph)
    ++ map (fun edge =>
              Item (CarrierLoop.mk (nth_error playerStars (fst edge))
                                   (nth_error playerStars (snd edge))))
         (edgesOf logisticsGraph).
Proof.
  unfold _computeCarrierLoopsFromGraph.
  generalize (new_Array (A := CarrierLoop.t E) (List.length logisticsGraph)).
  induction logisticsGraph as [| [start connected] rest IH]; intro loops;
    cbn [fold_left edgesOf flat_map map].
  - now rewrite app_nil_r.
  - rewrite push_all, IH. unfold edgesOf.
    cbn [fst snd]. rewrite map_app, map_map. cbn [fst snd].
    now rewrite <- app_assoc.
Qed.

(** C8, the code at a graph with the single edge 0 -> 1: the array
    returned has two slots, an empty one in front of the only loop
    descriptor. *)
Theorem carrierLoops_empty_slot_before_loop :
  _computeCarrierLoopsFromGraph [(0, [1])] ["A"%string; "B"%string]
  = [Empty; Item (CarrierLoop.mk (Some "A"%string) (Some "B"%string))].
Proof. reflexivity. Qed.

(* ================================================================== *)
(** ** Numbers: the order [<]                                          *)
(* ================================================================== *)

Lemma Qltb_lt (a b : Q) : Qltb a b = true <-> (a < b)%Q.
Proof.
  unfold Qltb. rewrite negb_true_iff. split.
  - intro H. apply Qnot_le_lt. intro Hle. apply Qle_bool_iff in Hle. congruence.
  - intro H. destruct (Qle_bool b a) eqn:E; [| reflexivity].
    apply Qle_bool_iff in E. exfalso. now apply (Qlt_not_le a b).
Qed.

Lemma Qltb_ge (a b : Q) : Qltb a b = false <-> (b <= a)%Q.
Proof.
  unfold Qltb. rewrite negb_false_iff. apply Qle_bool_iff.
Qed.

Lemma Qltb_irrefl (a : Q) : Qltb a a = false.
Proof. apply Qltb_ge. apply Qle_refl. Qed.

Lemma Qltb_negtrans (a b c : Q) :
  Qltb a b = false -> Qltb b c = false -> Qltb a c = false.
Proof.
  rewrite !Qltb_ge. intros H1 H2. now apply (Qle_trans c b a).
Qed.

Lemma Qltb_asym (a b : Q) : Qltb a b = true -> Qltb b a = false.
Proof.
  rewrite Qltb_lt, Qltb_ge. apply Qlt_le_weak.
Qed.

Lemma num_lt_irrefl (a : number) : num_lt a a = false.
Proof.
  destruct a as [| [] | [] | q]; cbn [num_lt valueOf andb negb];
    try reflexivity; apply Qltb_irrefl.
Qed.

Lemma num_lt_asym (a b : number) : num_lt a b = true -> num_lt b a = false.
Proof.
  destruct a as [| [] | [] | p], b as [| [] | [] | q];
    cbn [num_lt valueOf andb negb]; try reflexivity; try discriminate;
    apply Qltb_asym.
Qed.

(** On numbers other than [NaN], "not less than" is transitive. *)
Lemma num_lt_negtrans (a b c : number) :
  isNaN b = false ->
  num_lt a b = false -> num_lt b c = false -> num_lt a c = false.
Proof.
  destruct a as [| [] | [] | p], b as [| [] | [] | q], c as [| [] | [] | r];
    cbn [num_lt valueOf andb negb isNaN]; try reflexivity; try discriminate;
    intros _; apply Qltb_negtrans.
Qed.

Lemma Qltb_ext (a b c d : Q) :
  ((a < b)%Q <-> (c < d)%Q) -> Qltb a b = Qltb c d.
Proof.
  intro H. destruct (Qltb a b) eqn:E1, (Qltb c d) eqn:E2; try reflexivity.
  - apply Qltb_lt, H, Qltb_lt in E1. congruence.
  - apply Qltb_lt, H, Qltb_lt in E2. congruence.
Qed.

(** [a - b < 0] and [a < b] agree, so the heap orders the entries the
    same way whichever of [compar] and [comparBefore] it uses. *)
Lemma compar_agrees_with_comparBefore (b1 b2 : BorderStar) :
  num_lt (Heap.compar borderStarOptions b1 b2) (Zero false)
  = Heap.comparBefore borderStarOptions b1 b2.
Proof.
  cbn [Heap.compar Heap.comparBefore borderStarOptions].
  destruct (score b1) as [| [] | [] | p], (score b2) as [| [] | [] | q];
    try reflexivity;
    cbn [num_sub num_neg num_add num_lt valueOf negb andb].
  - apply Qltb_ext. lra.
  - apply Qltb_ext. lra.
  - unfold ofQ. destruct (Qeq_bool (p + - q) 0) eqn:E; cbn [num_lt valueOf].
    + apply Qeq_bool_eq in E. apply Qltb_ext. lra.
    + apply Qltb_ext. lra.
Qed.

(* ================================================================== *)
(** ** The priority queue                                              *)
(* ================================================================== *)

Section HeapOrder.

Context {T : Type}.
Variable before : T -> T -> bool.
Variable comparable : T -> Prop.
Hypothesis before_irrefl : forall a, before a a = false.
Hypothesis before_asym : forall a b, before a b = true -> before b a = false.
Hypothesis before_negtrans :
  forall a b c, comparable b ->
                before a b = false -> before b c = false -> before a c = false.

Lemma extract_none (l : list T) : Heap.extract before l = None -> l = [].
Proof.
  destruct l as [| item l]; [reflexivity |]. cbn [Heap.extract].
  destruct (Heap.extract before l) as [[root rest] |]; [| discriminate].
  destruct (before root item); discriminate.
Qed.

Lemma extract_members (l : list T) (root : T) (rest : list T) :
  Heap.extract before l = Some (root, rest) ->
  forall e, In e l <-> e = root \/ In e rest.
Proof.
  revert root rest. induction l as [| item l IH]; intros root rest;
    cbn [Heap.extract]; [discriminate |].
  destruct (Heap.extract before l) as [[root' rest'] |] eqn:E.
  - destruct (before root' item).
    + intro H. injection H as <- <-. intro e. cbn [In].
      rewrite (IH root' rest' eq_refl e). intuition.
    + intro H. injection H as <- <-. intro e. cbn [In]. intuition.
  - intro H. injection H as <- <-. intro e.
    rewrite (extract_none l E). cbn [In]. intuition.
Qed.

Lemma extract_length (l : list T) (root : T) (rest : list T) :
  Heap.extract before l = Some (root, rest) ->
  List.length l = S (List.length rest).
Proof.
  revert root rest. induction l as [| item l IH]; intros root rest;
    cbn [Heap.extract]; [discriminate |].
  destruct (Heap.extract before l) as [[root' rest'] |] eqn:E.
  - destruct (before root' item); intro H; injection H as <- <-;
      cbn [List.length]; [| reflexivity].
    now rewrite (IH root' rest' eq_refl).
  - intro H. injection H as <- <-. now rewrite (extract_none l E).
Qed.

(** The root is an item that no item of the heap is ordered before. *)
Lemma extract_root (l : list T) (root : T) (rest : list T) :
  Forall comparable l ->
  Heap.extract before l = Some (root, rest) ->
  forall e, In e l -> before e root = false.
Proof.
  revert root rest. induction l as [| item l IH]; intros root rest Hall;
    cbn [Heap.extract]; [discriminate |].
  inversion Hall as [| ? ? Hitem Hall']; subst.
  destruct (Heap.extract before l) as [[root' rest'] |] eqn:E.
  - assert (Hmin := IH root' rest' Hall' eq_refl).
    assert (Hroot' : In root' l).
    { apply (extract_members l root' rest' E). now left. }
    destruct (before root' item) eqn:B; intro H; injection H as <- <-;
      intros e [<- | He].
    + now apply before_asym.
    + now apply Hmin.
    + apply before_irrefl.
    + apply (before_negtrans e root' item).
      * rewrite Forall_forall in Hall'. now apply Hall'.
      * now apply Hmin.
      * exact B.
  - intro H. injection H as <- <-. rewrite (extract_none l E).
    intros e [<- | []]. apply before_irrefl.
Qed.

End HeapOrder.

(** What [dequeue] returns from the border star queue: an entry whose
    score no entry of the queue undercuts, that is, a lowest score. *)
Lemma dequeue_lowest_score (h h' : Heap.t BorderStar) (root : BorderStar) :
  Heap.opts h = borderStarOptions ->
  Forall (fun e => isNaN (score e) = false) (Heap.items h) ->
  Heap.dequeue h = (Some root, h') ->
  In root (Heap.items h)
  /\ forall e, In e (Heap.items h) -> num_lt (score e) (score root) = false.
Proof.
  intros Hopts Hall. unfold Heap.dequeue, Heap.isBefore. rewrite Hopts.
  cbn [Heap.comparBefore borderStarOptions].
  destruct (Heap.extract _ (Heap.items h)) as [[r rest] |] eqn:E;
    [| discriminate].
  intro H. injection H as -> _. split.
  - apply (extract_members _ _ _ _ E). now left.
  - apply (extract_root (fun b1 b2 => num_lt (score b1) (score b2))
             (fun e => isNaN (score e) = false)) with (rest := rest).
    + intro a. apply num_lt_irrefl.
    + intros a b. apply num_lt_asym.
    + intros a b c Hb. now apply num_lt_negtrans.
    + exact Hall.
    + exact E.
Qed.

(** C1, the code at a queue holding the scores 2 and 1: [dequeue] returns
    the entry with score 1 although the entry with the greater score 2 is
    in the queue. *)
Theorem dequeue_returns_lower_score :
  let queue :=
    Heap.insert
      (Heap.insert (Heap.new borderStarOptions) (mkBorderStar (Finite 2) 0))
      (mkBorderStar (Finite 1) 1) in
  fst (Heap.dequeue queue) = Some (mkBorderStar (Finite 1) 1)
  /\ In (mkBorderStar (Finite 2) 0) (Heap.items queue)
  /\ num_lt (Finite 1) (Finite 2) = true.
Proof.
  cbv zeta. split; [reflexivity |]. split; [now left | reflexivity].
Qed.

(* ================================================================== *)
(** ** The threat scorer                                               *)
(* ================================================================== *)

(** Away from a relative distance of zero the scoring step is the guarded
    scorer of the specification. *)
Lemma scorer_refines_guarded_off_zero (distance maxRange : number) :
  (forall s, num_div distance maxRange <> Zero s) ->
  scorerRefinesGuarded distance maxRange.
Proof.
  intros Hnz borderVertex queue. unfold scoreBorderVertex, guardedScore.
  destruct (num_lt (num_div distance maxRange) (Finite (5 # 2))).
  - destruct (num_div distance maxRange) as [| s | s | q]; try reflexivity.
    now contradiction (Hnz s).
  - cbn [Heap.items]. now rewrite app_nil_r.
Qed.

(** C2, as stated, fails for a hostile point at distance 0 and a maximum
    range of 1: the score inserted is the quotient [1 / 0], not the
    greatest finite number. *)
Lemma zero_distance_not_guarded : ~ scorerRefinesGuarded (Zero false) one.
Proof.
  intro H. specialize (H 0 (Heap.new borderStarOptions)).
  unfold scoreBorderVertex, guardedScore in H. cbn in H. discriminate H.
Qed.

(** C2, as the code has it: with a positive maximum range and a distance
    of exactly 0 the scoring step has no guard; it inserts the border
    vertex with the score [1 / relDist], and that quotient is [+Infinity],
    which no score exceeds. *)
Theorem zero_distance_scores_infinity
  (maxRange : number) (borderVertex : nat) (queue : Heap.t BorderStar) :
  num_lt (Zero false) maxRange = true ->
  scoreBorderVertex (Zero false) maxRange borderVertex queue
  = Heap.insert queue
      (mkBorderStar (num_div one (num_div (Zero false) maxRange)) borderVertex)
  /\ num_div one (num_div (Zero false) maxRange) = Infinity false
  /\ forall s, num_lt (Infinity false) s = false.
Proof.
  intro Hpos. unfold scoreBorderVertex.
  assert (Hrel : num_div (Zero false) maxRange = Zero false).
  { destruct maxRange as [| [] | [] | q]; cbn [num_lt valueOf negb] in Hpos;
      try discriminate; cbn [num_div signOf xorb]; try reflexivity.
    unfold Qnegative. rewrite (Qltb_asym 0 q Hpos). reflexivity. }
  rewrite Hrel. split; [reflexivity |]. split; [reflexivity |].
  intros [| [] | [] | q]; reflexivity.
Qed.

Lemma zero_distance_scores_infinity_at_range_one :
  num_lt (Zero false) one = true
  /\ scoreBorderVertex (Zero false) one 3 (Heap.new borderStarOptions)
     = Heap.insert (Heap.new borderStarOptions)
         (mkBorderStar (num_div one (num_div (Zero false) one)) 3)
  /\ num_div one (num_div (Zero false) one) = Infinity false
  /\ forall s, num_lt (Infinity false) s = false.
Proof.
  split; [reflexivity |].
  apply (zero_distance_scores_infinity one 3 (Heap.new borderStarOptions)).
  reflexivity.
Defined.

(** Two stars at the same finite location are at squared distance [+0]. *)
Lemma coincident_distance_squared (a b : Q) :
  getDistanceSquaredBetweenLocations
    (mkLocation (ofQ a) (ofQ b)) (mkLocation (ofQ a) (ofQ b))
  = Zero false.
Proof.
  assert (H : forall q, num_sub (ofQ q) (ofQ q) = Zero false).
  { intro q. unfold ofQ. destruct (Qeq_bool q 0); [reflexivity |].
    unfold num_sub, num_neg, num_add, ofQ.
    assert (E : Qeq_bool (q + - q) 0 = true) by (apply Qeq_bool_iff; ring).
    now rewrite E. }
  unfold getDistanceSquaredBetweenLocations. cbn [x y]. rewrite !H. reflexivity.
Qed.

(** An [AIService] made by the constructor has no distance service, so
    the scorer never returns a queue. *)
Lemma computeBorderStarQueue_throws
  (Math_sqrt : number -> number)
  (maxBy : (Player -> number) -> list Player -> completion number)
  (upgrades : StarUpgradeService) (carriers : CarrierService)
  (stars : StarService) (distances : DistanceService)
  (game : Game) (borderVertices : jsset) (playerStars : list Star) :
  exists e,
    _computeBorderStarQueue Math_sqrt maxBy
      (constructor upgrades carriers stars distances)
      game borderVertices playerStars
    = Throw e.
Proof.
  unfold _computeBorderStarQueue.
  destruct (maxBy research_hyperspace_level (galaxy_players game)) as [level | e];
    cbn [lift bind constructor distanceService defined];
    eexists; reflexivity.
Qed.

(** C7, the code at a galaxy without hostile stars: the scorer does not
    return an empty queue, it throws when it reads
    [getHyperspaceDistance] of the missing distance service. *)
Theorem borderStarQueue_throws_without_hostile_stars :
  _computeBorderStarQueue (fun n => n) (fun _ _ => Returns one)
    aiService peacefulGame [0] (galaxy_stars peacefulGame)
  = Throw (TypeError
             "Cannot read properties of undefined (reading 'getHyperspaceDistance')").
Proof. reflexivity. Qed.

(* ================================================================== *)
(** ** The logistics graph                                             *)
(* ================================================================== *)

Lemma initialUnmarked_outcome (vertexGraph : jsmap jsset) :
  initialUnmarked vertexGraph
  = match vertexGraph with
    | [] => Ok []
    | _ :: _ => Throw (ReferenceError "borderVertices")
    end.
Proof. destruct vertexGraph; reflexivity. Qed.

(** No pass through the body of the [while] completes. *)
Lemma loopBody_throws (fuel : nat) (vertexGraph : jsmap jsset) (st : LoopState) :
  exists e, loopBody fuel vertexGraph st = Throw e.
Proof.
  unfold loopBody. destruct (Heap.dequeue (borderStarQueue st)) as [[item |] queue];
    cbn [defined bind unbound]; eexists; reflexivity.
Qed.

Lemma dequeue_nonempty {T : Type} (h : Heap.t T) :
  Heap.length h <> 0 -> exists root h', Heap.dequeue h = (Some root, h').
Proof.
  unfold Heap.length, Heap.dequeue. intro H.
  destruct (Heap.extract (Heap.isBefore h) (Heap.items h)) as [[root rest] |] eqn:E.
  - eexists. eexists. reflexivity.
  - apply extract_none in E. rewrite E in H. now contradiction H.
Qed.

Lemma loopBody_guarded (fuel : nat) (vertexGraph : jsmap jsset) (st : LoopState) :
  loopGuard st = true ->
  loopBody fuel vertexGraph st = Throw (ReferenceError "score").
Proof.
  unfold loopGuard. intro H. apply andb_prop in H. destruct H as [_ H].
  apply negb_true_iff, Nat.eqb_neq in H.
  destruct (dequeue_nonempty _ H) as [root [h' E]].
  unfold loopBody. rewrite E. reflexivity.
Qed.

(** The graph returned is the empty one, and it is returned only for an
    empty adjacency graph. *)
Lemma createLogisticsGraph_outcome
  (fuel : nat) (vertexGraph : jsmap jsset) (queue : Heap.t BorderStar) :
  _createLogisticsGraph fuel vertexGraph queue
  = match vertexGraph with
    | [] => Ok []
    | _ :: _ => Throw (ReferenceError "borderVertices")
    end.
Proof.
  unfold _createLogisticsGraph. rewrite initialUnmarked_outcome.
  destruct vertexGraph; [| reflexivity].
  cbn [bind]. destruct fuel; reflexivity.
Qed.

(** C9, the code at the adjacency graph of a single triangle: the loop
    that fills the unclaimed set throws on its first pass, so the set is
    never established. *)
Theorem unclaimed_set_is_never_built :
  initialUnmarked [(0, [0; 1; 2]); (1, [0; 1; 2]); (2, [0; 1; 2])]
  = Throw (ReferenceError "borderVertices")
  /\ _createLogisticsGraph 1 [(0, [0; 1; 2]); (1, [0; 1; 2]); (2, [0; 1; 2])]
       (Heap.new borderStarOptions)
     = Throw (ReferenceError "borderVertices").
Proof. split; reflexivity. Qed.

(* ------------------------------------------------------------------ *)
(** *** The connection search on its own                               *)
(* ------------------------------------------------------------------ *)

Lemma unmarked_delete_has (u : list member) (v : nat) :
  unmarked_has (unmarked_delete u v) v = false.
Proof.
  unfold unmarked_has, unmarked_delete.
  induction u as [| m u IH]; cbn [filter existsb]; [reflexivity |].
  destruct (isVertex v m) eqn:E; cbn [negb existsb]; [exact IH |].
  now rewrite E, IH.
Qed.

Lemma unmarked_delete_length (u : list member) (v : nat) :
  unmarked_has u v = true ->
  List.length (unmarked_delete u v) < List.length u.
Proof.
  unfold unmarked_has, unmarked_delete.
  induction u as [| m u IH]; cbn [filter existsb List.length]; [discriminate |].
  destruct (isVertex v m) eqn:E; cbn [negb orb List.length].
  - intros _. apply Nat.lt_succ_r. apply filter_length_le.
  - intro H. apply IH in H. lia.
Qed.

(** A connection the search returns claims a point that was unclaimed,
    is adjacent to the source and is not point 0; the point leaves the
    unclaimed set.  A search that finds nothing leaves the set as it was. *)
Lemma findNextLogisticsConnection_spec (fuel : nat) :
  forall vertexGraph graph u start found u',
    _findNextLogisticsConnection fuel vertexGraph graph u start = Ok (found, u') ->
    match found with
    | Some c =>
        unmarked_has u (to c) = true
        /\ u' = unmarked_delete u (to c)
        /\ to c <> 0
        /\ related vertexGraph (from c) (to c)
    | None => u' = u
    end.
Proof.
  induction fuel as [| fuel IH]; intros vertexGraph graph u start found u';
    cbn [_findNextLogisticsConnection]; [discriminate |].
  destruct (map_get vertexGraph start) as [possible |] eqn:Eget;
    cbn [defined bind]; [| discriminate].
  destruct (find (unmarked_has u) possible) as [[| d] |] eqn:Efind;
    cbn [truthyIndex].
  2: { intro H. injection H as <- <-. cbn [to from].
       apply find_some in Efind. destruct Efind as [Hin Hhas].
       repeat split; try assumption; [discriminate |].
       now exists possible. }
  all: destruct (map_get graph start) as [connected |] eqn:Egraph;
    cbn [defined bind]; [| discriminate].
  all: clear Egraph; induction connected as [| c connected IHc];
    [intro H; now injection H as <- <- |].
  all: destruct (_findNextLogisticsConnection fuel vertexGraph graph u c)
    as [[[c' |] u1] | |] eqn:Erec; cbn [bind]; try discriminate.
  all: try (intro H; injection H as <- <-; exact (IH _ _ _ _ _ _ Erec)).
  all: assert (Hu1 := IH _ _ _ _ _ _ Erec); cbn beta iota in Hu1; subst u1.
  all: apply IHc.
Qed.

(** The search returns a self-edge when the starting vertex is itself
    unclaimed, because the adjacency set of a vertex contains the vertex. *)
Example search_from_unclaimed_vertex :
  _findNextLogisticsConnection 1 [(1, [1; 2]); (2, [1; 2])] []
    [VertexIndex 1; VertexIndex 2] 1
  = Ok (Some (mkConnection 1 1), [VertexIndex 2]).
Proof. reflexivity. Qed.

(** Without a direct connection and without edges from the starting
    vertex the search throws instead of returning [null]. *)
Example search_without_edges_throws :
  _findNextLogisticsConnection 1 [(1, [1; 2]); (2, [1; 2])] [] [] 1
  = Throw (TypeError "connected is not iterable").
Proof. reflexivity. Qed.



(** C3: the loop of [_createLogisticsGraph] comes to an end.  The method
    ends for every adjacency graph and queue, whatever the fuel, and so
    does the loop started in any state: a pass that is entered stops at
    line 213, so no entry is ever re-inserted.  The rest of a pass (lines
    214-223), given a value for [oldScore], either removes a point from
    the unclaimed set and re-inserts the entry with [oldScore] times a
    factor below 1, or leaves the unclaimed set and the logistics graph as
    they are and the entry out of the queue. *)
Theorem logistics_loop_terminates :
  (forall fuel vertexGraph queue,
      settled (_createLogisticsGraph fuel vertexGraph queue))
  /\ (forall fuel vertexGraph st,
        settled (logisticsLoop (S fuel) vertexGraph st)
        /\ exists e, loopBody fuel vertexGraph st = Throw e)
  /\ (forall fuel vertexGraph st borderVertex oldScore st',
        loopTail fuel vertexGraph st borderVertex oldScore = Ok st' ->
        (List.length (unmarkedVertices st') < List.length (unmarkedVertices st)
         /\ exists decay,
              (0 < decay)%Q /\ (decay < 1)%Q
              /\ borderStarQueue st'
                 = Heap.insert (borderStarQueue st)
                     (mkBorderStar (num_mul oldScore (Finite decay)) borderVertex))
        \/ (unmarkedVertices st' = unmarkedVertices st
            /\ borderStarQueue st' = borderStarQueue st
            /\ logisticsGraph st' = logisticsGraph st)).
Proof.
  split; [| split].
  - intros fuel vertexGraph queue. rewrite createLogisticsGraph_outcome.
    destruct vertexGraph; discriminate.
  - intros fuel vertexGraph st. split; [| apply loopBody_throws].
    cbn [logisticsLoop]. destruct (loopGuard st); [| discriminate].
    destruct (loopBody_throws fuel vertexGraph st) as [e ->]. discriminate.
  - intros fuel vertexGraph st borderVertex oldScore st'. unfold loopTail.
    destruct (_findNextLogisticsConnection fuel vertexGraph (logisticsGraph st)
                (unmarkedVertices st) borderVertex)
      as [[[c |] u1] | |] eqn:E; cbn [bind]; try discriminate.
    + intro H. injection H as <-. cbn [unmarkedVertices borderStarQueue].
      left. apply findNextLogisticsConnection_spec in E.
      destruct E as [Hhas [-> _]]. split.
      * now apply unmarked_delete_length.
      * exists (1 # 2)%Q. repeat split; reflexivity.
    + intro H. injection H as <-.
      cbn [unmarkedVertices borderStarQueue logisticsGraph].
      right. apply findNextLogisticsConnection_spec in E. cbn beta iota in E.
      now subst u1.
Qed.

(** The rest of a pass for border vertex 1 where vertex 2 is unclaimed:
    vertex 2 is claimed and the entry comes back with half the score. *)
Lemma logistics_loop_terminates_claiming_pass :
  (List.length ([] : list member) < List.length [VertexIndex 2]
   /\ exists decay,
        (0 < decay)%Q /\ (decay < 1)%Q
        /\ Heap.insert (Heap.new borderStarOptions)
             (mkBorderStar (num_mul one (Finite (1 # 2))) 1)
           = Heap.insert (Heap.new borderStarOptions)
               (mkBorderStar (num_mul one (Finite decay)) 1))
  \/ (([] : list member) = [VertexIndex 2]
      /\ Heap.insert (Heap.new borderStarOptions)
           (mkBorderStar (num_mul one (Finite (1 # 2))) 1)
         = Heap.new borderStarOptions
      /\ [(1, [2])] = ([] : jsmap jsset)).
Proof.
  exact (proj2 (proj2 logistics_loop_terminates) 1
           [(1, [1; 2]); (2, [1; 2])]
           (mkLoopState [VertexIndex 2] (Heap.new borderStarOptions) [])
           1 one
           (mkLoopState []
              (Heap.insert (Heap.new borderStarOptions)
                 (mkBorderStar (num_mul one (Finite (1 # 2))) 1))
              [(1, [2])])
           eq_refl).
Defined.



(* ================================================================== *)
(** ** [play]                                                          *)
(* ================================================================== *)

Lemma settled_bind {A B : Type} (r : result A) (k : A -> result B) :
  settled r -> (forall a, settled (k a)) -> settled (bind r k).
Proof.
  unfold settled. destruct r as [a | e |]; cbn [bind]; intros H Hk.
  - apply Hk.
  - discriminate.
  - now contradiction H.
Qed.

Lemma settled_forOf {A S : Type} (xs : list A) (body : S -> A -> result S) :
  (forall s a, settled (body s a)) -> forall s, settled (forOf xs body s).
Proof.
  intro H. induction xs as [| a xs IH]; intro s; cbn [forOf].
  - discriminate.
  - apply settled_bind; [apply H | apply IH].
Qed.

Lemma settled_arrayMap {A B : Type} (f : A -> result B) (xs : list A) :
  (forall a, settled (f a)) -> settled (arrayMap f xs).
Proof.
  intro H. induction xs as [| a xs IH]; cbn [arrayMap]; [discriminate |].
  apply settled_bind; [apply H |]. intro b.
  apply settled_bind; [apply IH |]. discriminate.
Qed.

Lemma settled_arrayFilter {A : Type} (f : A -> result bool) (xs : list A) :
  (forall a, settled (f a)) -> settled (arrayFilter f xs).
Proof.
  intro H. induction xs as [| a xs IH]; cbn [arrayFilter]; [discriminate |].
  apply settled_bind; [apply H |]. intro b.
  apply settled_bind; [apply IH |]. discriminate.
Qed.

Lemma settled_defined {A : Type} (what : string) (v : option A) :
  settled (defined what v).
Proof. destruct v; discriminate. Qed.

Lemma settled_lift {A : Type} (c : completion A) : settled (lift c).
Proof. destruct c; discriminate. Qed.

Lemma settled_Ok {A : Type} (a : A) : settled (Ok a).
Proof. discriminate. Qed.

Lemma settled_Throw {A : Type} (e : error) : settled (Throw (A := A) e).
Proof. discriminate. Qed.

Create HintDb settle.
#[local] Hint Resolve settled_defined settled_lift settled_Ok settled_Throw : settle.

Ltac settle :=
  repeat first
    [ apply settled_bind; [| intro]
    | apply settled_forOf; intros
    | apply settled_arrayMap; intros
    | apply settled_arrayFilter; intros
    | solve [auto with settle] ].

Lemma settled_computeVertexGraph (pointToTriangles triangleToPoints : jsmap jsset) :
  settled (_computeVertexGraph pointToTriangles triangleToPoints).
Proof.
  unfold _computeVertexGraph, otherVerticesOf.
  apply settled_forOf. intros g [v ts]. settle.
Qed.

Lemma settled_computeBorderVertices (triangleToPoints pointToTriangles : jsmap jsset) :
  settled (_computeBorderVertices triangleToPoints pointToTriangles).
Proof.
  unfold _computeBorderVertices, classifyTriangles.
  apply settled_bind.
  - apply settled_forOf. intros b [t vs].
    unfold classifyTriangle, triangleCandidatesOf, trianglesWithTwoSharedVerticesOf.
    settle. destruct (_ <? 3); settle.
  - intro b. settle.
Qed.

Lemma settled_computeBorderStarQueue
  (Math_sqrt : number -> number)
  (maxBy : (Player -> number) -> list Player -> completion number)
  (this : AIService) (game : Game) (borderVertices : jsset)
  (playerStars : list Star) :
  settled (_computeBorderStarQueue Math_sqrt maxBy this game borderVertices playerStars).
Proof.
  unfold _computeBorderStarQueue.
  apply settled_bind; [apply settled_lift | intro level].
  apply settled_bind; [apply settled_defined | intros _]. cbv zeta.
  apply settled_bind.
  - apply settled_arrayFilter. intro star.
    destruct (ownedByPlayerId star); [apply settled_Throw | apply settled_Ok].
  - intro enemyStars. apply settled_forOf. intros queue borderVertex.
    apply settled_Throw.
Qed.

Lemma settled_createLogisticsGraph
  (fuel : nat) (vertexGraph : jsmap jsset) (queue : Heap.t BorderStar) :
  settled (_createLogisticsGraph fuel vertexGraph queue).
Proof.
  rewrite createLogisticsGraph_outcome. destruct vertexGraph; discriminate.
Qed.

Lemma settles_abind {A B : Type} (c : action A) (k : A -> action B) :
  settles c -> (forall a, settles (k a)) -> settles (abind c k).
Proof.
  unfold settles, abind. intros Hc Hk w. specialize (Hc w).
  destruct (c w) as [w' [a | e |]]; cbn [snd] in *.
  - apply Hk.
  - discriminate.
  - now contradiction Hc.
Qed.

Lemma settles_local {A : Type} (r : result A) : settled r -> settles (local r).
Proof. intros H w. exact H. Qed.

Lemma settles_call {A : Type} (method : World -> World * completion A) :
  settles (call method).
Proof.
  intro w. unfold call. destruct (method w) as [w' c]. apply settled_lift.
Qed.

Lemma settles_ret {A : Type} (a : A) : settles (ret a).
Proof. intro w. discriminate. Qed.

Lemma settles_getWorld : settles getWorld.
Proof. intro w. discriminate. Qed.

Lemma settles_modify (f : World -> World) : settles (modify f).
Proof. intro w. discriminate. Qed.

Lemma settles_forEach {A : Type} (xs : list A) (body : A -> action unit) :
  (forall a, settles (body a)) -> settles (forEach xs body).
Proof.
  intro H. induction xs as [| a xs IH]; cbn [forEach].
  - apply settles_ret.
  - apply settles_abind; [apply H | intros _; apply IH].
Qed.

Lemma abind_getWorld {B : Type} (k : World -> action B) (w : World) :
  abind getWorld k w = k w w.
Proof. reflexivity. Qed.

Lemma abind_Ok {A B : Type} (c : action A) (k : A -> action B)
  (w w' : World) (a : A) :
  c w = (w', Ok a) -> abind c k w = k a w'.
Proof. unfold abind. now intros ->. Qed.

Section Play.

Variable Math_sqrt : number -> number.
Variable maxBy : (Player -> number) -> list Player -> completion number.
Variable Delaunator_from : list (number * number) -> completion (list nat).
Variable floorPercent : number -> Z -> number.
Variable this : AIService.
Variable fuel : nat.

Lemma settles_setupAi :
  settles (_setupAi Math_sqrt maxBy Delaunator_from this fuel).
Proof.
  unfold _setupAi.
  apply settles_abind; [apply settles_call | intros _].
  apply settles_abind; [apply settles_modify | intros _].
  apply settles_abind; [apply settles_call | intro refs].
  apply settles_abind.
  { apply settles_forEach. intro star. unfold markNotIgnored.
    apply settles_abind; [apply settles_getWorld | intro w].
    apply settles_abind; [apply settles_local, settled_defined | intros _].
    apply settles_modify. }
  intros _.
  apply settles_abind; [apply settles_getWorld | intro w].
  apply settles_abind.
  { apply settles_local, settled_arrayMap. intro a. apply settled_defined. }
  intro playerStars. cbv zeta.
  apply settles_abind; [apply settles_local, settled_lift | intro triangles].
  apply settles_abind;
    [apply settles_local, settled_computeVertexGraph | intro vertexGraph].
  apply settles_abind;
    [apply settles_local, settled_computeBorderVertices | intro borderVertices].
  apply settles_abind;
    [apply settles_local, settled_computeBorderStarQueue | intro queue].
  apply settles_abind;
    [apply settles_local, settled_createLogisticsGraph | intro graph].
  apply settles_ret.
Qed.

Lemma settles_playFirstTick : settles (_playFirstTick floorPercent this).
Proof.
  unfold _playFirstTick.
  apply settles_abind; [apply settles_getWorld | intro w]. cbv zeta.
  destruct (_ || _)%bool; [apply settles_ret |].
  apply settles_abind.
  - destruct (num_truthy _); [apply settles_call | apply settles_ret].
  - intros _. destruct (num_truthy _); [apply settles_call | apply settles_ret].
Qed.

Lemma settles_playLastTick : settles (_playLastTick floorPercent this).
Proof.
  unfold _playLastTick.
  apply settles_abind; [apply settles_getWorld | intro w]. cbv zeta.
  destruct (_ || _)%bool; [apply settles_ret |].
  destruct (num_truthy _); [apply settles_call | apply settles_ret].
Qed.

(** Whatever happens inside the [try], the statement completes
    normally. *)
Lemma tryCatch_completes (body : action unit) :
  settles body ->
  forall w, exists w', tryCatch body (fun e => console_error e) w = (w', Ok tt).
Proof.
  intros H w. unfold tryCatch. specialize (H w).
  destruct (body w) as [w' [[] | e |]]; cbn [snd] in H.
  - now exists w'.
  - eexists. reflexivity.
  - now contradiction H.
Qed.

Lemma settles_planning :
  settles
    (w <~ getWorld ;;
     _ <~ (if negb (ai (player w)) then
             _ <~ setPlayer (withAi true) ;;
             _setupAi Math_sqrt maxBy Delaunator_from this fuel
           else ret tt) ;;
     w <~ getWorld ;;
     let tick := state_tick (game w) in
     let productionTicks := settings_galaxy_productionTicks (game w) in
     let isFirstTick := remainderIs tick productionTicks 1 in
     let isLastTick := remainderIs tick productionTicks (productionTicks - 1) in
     if isFirstTick then _playFirstTick floorPercent this
     else if isLastTick then _playLastTick floorPercent this
     else ret tt).
Proof.
  apply settles_abind; [apply settles_getWorld | intro w0].
  apply settles_abind.
  - destruct (negb (ai (player w0))); [| apply settles_ret].
    apply settles_abind; [apply settles_modify | intros _].
    apply settles_setupAi.
  - intros _. apply settles_abind; [apply settles_getWorld | intro w1].
    cbv zeta. destruct (remainderIs _ _ 1); [apply settles_playFirstTick |].
    destruct (remainderIs _ _ _); [apply settles_playLastTick | apply settles_ret].
Qed.

Lemma Math_max_zero_NaN : Math_max (Zero false) NaN = NaN.
Proof. reflexivity. Qed.

Lemma Math_max_zero_not_negative (c : number) :
  isNaN c = false -> num_le (Zero false) (Math_max (Zero false) c) = true.
Proof.
  destruct c as [| [|] | [|] | q]; try discriminate; try reflexivity.
  intros _. unfold Math_max. cbn [num_lt valueOf].
  destruct (Qltb 0 q) eqn:E; [| reflexivity].
  unfold num_le. cbn [isNaN negb andb num_lt valueOf].
  now rewrite (Qltb_asym _ _ E).
Qed.

(** C10, as the code has it: [play] throws exactly when the player is not
    defeated, and then with the message 'The player is not under AI
    control.'; for a defeated player every exception of the planning and
    of the spending rules is caught and [play] returns, having replaced
    the credits [c] the player then has by [Math.max(0, c)]: that is [NaN]
    when [c] is [NaN], and not negative otherwise. *)
Theorem play_outcome (w : World) :
  ((exists e, snd (play Math_sqrt maxBy Delaunator_from floorPercent this fuel w)
              = Throw e)
   <-> defeated (player w) = false)
  /\ (defeated (player w) = false ->
      play Math_sqrt maxBy Delaunator_from floorPercent this fuel w
      = (w, Throw (Error "The player is not under AI control.")))
  /\ (defeated (player w) = true ->
      exists w1,
        play Math_sqrt maxBy Delaunator_from floorPercent this fuel w
        = (clampCredits w1, Ok tt)
        /\ (isNaN (credits (player w1)) = true ->
            credits (player (clampCredits w1)) = NaN)
        /\ (isNaN (credits (player w1)) = false ->
            num_le (Zero false) (credits (player (clampCredits w1))) = true)).
Proof.
  assert (Hthrow : defeated (player w) = false ->
                   play Math_sqrt maxBy Delaunator_from floorPercent this fuel w
                   = (w, Throw (Error "The player is not under AI control."))).
  { intro D. unfold play. rewrite abind_getWorld. now rewrite D. }
  assert (Hreturn : defeated (player w) = true ->
                    exists w1,
                      play Math_sqrt maxBy Delaunator_from floorPercent this fuel w
                      = (clampCredits w1, Ok tt)
                      /\ (isNaN (credits (player w1)) = true ->
                          credits (player (clampCredits w1)) = NaN)
                      /\ (isNaN (credits (player w1)) = false ->
                          num_le (Zero false) (credits (player (clampCredits w1)))
                          = true)).
  { intro D. unfold play. rewrite abind_getWorld, D. cbn [negb].
    destruct (tryCatch_completes _ settles_planning w) as [w1 Htry].
    rewrite (abind_Ok _ _ _ _ _ Htry), abind_getWorld.
    exists w1. split; [reflexivity |].
    unfold clampCredits. cbn [player credits withCredits]. split.
    - intro N. destruct (credits (player w1)); try discriminate N. reflexivity.
    - apply Math_max_zero_not_negative. }
  split; [| split; assumption].
  split.
  - intros [e He]. destruct (defeated (player w)) eqn:D; [| reflexivity].
    destruct (Hreturn eq_refl) as [w' [Hw' _]]. rewrite Hw' in He. discriminate.
  - intro D. rewrite (Hthrow D). eexists. reflexivity.
Qed.

End Play.

(** C10, as stated, fails for a defeated player whose credits are [NaN]:
    the guard of line 250 takes [NaN] for no credits, [play] returns
    without spending and the credits are [Math.max(0, NaN)], which is
    [NaN] and not a number above or equal to 0. *)
Lemma credits_NaN_on_return :
  ~ creditsNotNegativeOnReturn
      (play (fun n => n) (fun _ _ => Returns one) (fun _ => Returns [])
         (fun c _ => c) aiService 1).
Proof.
  intro H.
  specialize (H (mkWorld peacefulGame (mkPlayer 7 true true NaN "" one) [])
                (mkWorld peacefulGame (mkPlayer 7 true true NaN "" one) [])
                eq_refl).
  discriminate H.
Qed.

(** The first activation of a defeated player: the planner throws inside
    [_setupAi], [play] logs the error and returns. *)
Example play_logs_the_planner_error :
  let w :=
    fst (play (fun n => n) (fun _ _ => Returns one) (fun _ => Returns [])
           (fun c _ => c) aiService 1
           (mkWorld peacefulGame defeatedPlayer [])) in
  console w
  = [TypeError "Cannot read properties of undefined (reading 'getHyperspaceDistance')"]
  /\ ai (player w) = true
  /\ credits (player w) = Finite 10.
Proof. cbv zeta. repeat split. Qed.

(* ================================================================== *)
(** ** Further properties of the dual mappings and the adjacency graph *)
(* ================================================================== *)

(** X1: the two maps that lines 63-77 of [_setupAi] fill are dual to each
    other: a triangle is registered under a vertex exactly when the vertex
    is registered under the triangle, which is the case exactly when the
    vertex stands at a position [i] of the flat array with
    [Math.floor(i / 3)] the triangle. *)
Theorem dualMaps_are_dual (triangles : list nat) (v t : nat) :
  (related (vertexIndexToTriangleIndices (dualMaps triangles)) v t
   <-> related (triangleIndexToVertexIndices (dualMaps triangles)) t v)
  /\ (related (triangleIndexToVertexIndices (dualMaps triangles)) t v
      <-> exists i, nth_error triangles i = Some v /\ i / 3 = t).
Proof.
  split.
  - rewrite dualMaps_vertex_side, dualMaps_triangle_side. reflexivity.
  - apply dualMaps_triangle_side.
Qed.

(** X2: the adjacency graph of a triangle array is symmetric: [w] is in
    the set stored for [v] exactly when [v] is in the set stored for [w]. *)
Theorem vertexGraph_symmetric (triangles : list nat) :
  exists g,
    vertexGraphOf triangles = Ok g
    /\ forall v w, related g v w <-> related g w v.
Proof.
  unfold vertexGraphOf. cbv zeta.
  destruct (dualMaps_invariant triangles) as [Hv _ _ _].
  destruct (computeVertexGraph_spec
              (vertexIndexToTriangleIndices (dualMaps triangles))
              (triangleIndexToVertexIndices (dualMaps triangles)) Hv)
    as [g [Hg [_ Hrel]]].
  { intros v t Hr. apply dualMaps_vertex_side, dualMaps_triangle_side in Hr.
    destruct Hr as [s [Hs _]]. rewrite Hs. discriminate. }
  exists g. split; [exact Hg |].
  assert (Hone : forall v w, related g v w -> related g w v).
  { intros v w Hvw. apply Hrel in Hvw. destruct Hvw as [t [H1 H2]].
    apply Hrel. exists t. split.
    - now apply dualMaps_vertex_side, dualMaps_triangle_side.
    - now apply dualMaps_triangle_side, dualMaps_vertex_side. }
  intros v w. split; apply Hone.
Qed.

Lemma forOf_union_cases (what : string) (m : jsmap jsset) (ks : list nat) :
  forall acc,
    (exists s,
        forOf ks
          (fun union k =>
             members <- defined what (map_get m k) ;;
             Ok (set_addAll union members))
          acc = Ok s
        /\ forall k, In k ks -> map_get m k <> None)
    \/ (forOf ks
          (fun union k =>
             members <- defined what (map_get m k) ;;
             Ok (set_addAll union members))
          acc = Throw (TypeError what)
        /\ exists k, In k ks /\ map_get m k = None).
Proof.
  induction ks as [| k ks IH]; intro acc; cbn [forOf].
  - left. exists acc. split; [reflexivity | intros k []].
  - destruct (map_get m k) as [vs |] eqn:E; cbn [defined bind].
    + destruct (IH (set_addAll acc vs)) as [[s [Hs Hall]] | [Ht [k' [Hin Hk']]]].
      * left. exists s. split; [exact Hs |].
        intros k' [<- | Hin]; [rewrite E; discriminate | now apply Hall].
      * right. split; [exact Ht |]. exists k'. split; [now right | assumption].
    + right. split; [reflexivity |]. exists k. split; [now left | assumption].
Qed.

Lemma computeVertexGraph_cases (entries triangleToPoints : jsmap jsset) :
  forall acc,
    (exists g,
        forOf entries
          (fun acc entry =>
             let '(vertexIndex, triangleIndices) := entry in
             otherVertices <- otherVerticesOf triangleToPoints triangleIndices ;;
             Ok (map_set acc vertexIndex otherVertices))
          acc = Ok g
        /\ forall v ts t, In (v, ts) entries -> In t ts ->
                          map_get triangleToPoints t <> None)
    \/ (forOf entries
          (fun acc entry =>
             let '(vertexIndex, triangleIndices) := entry in
             otherVertices <- otherVerticesOf triangleToPoints triangleIndices ;;
             Ok (map_set acc vertexIndex otherVertices))
          acc = Throw (TypeError "verticesForTriangle is not iterable")
        /\ exists v ts t, In (v, ts) entries /\ In t ts
                          /\ map_get triangleToPoints t = None).
Proof.
  induction entries as [| [k ts] entries IH]; intro acc; cbn [forOf].
  - left. exists acc. split; [reflexivity | intros v ts t []].
  - unfold otherVerticesOf at 1 3.
    destruct (forOf_union_cases "verticesForTriangle is not iterable"
                triangleToPoints ts [])
      as [[s [Hs Hall]] | [Ht [t [Hin Hmiss]]]].
    + rewrite Hs. cbn [bind].
      destruct (IH (map_set acc k s)) as [[g [Hg Hclosed]] | [Hthrow Hex]].
      * left. exists g. split; [exact Hg |].
        intros v ts' t [Heq | Hin] Ht.
        -- injection Heq as <- <-. now apply Hall.
        -- now apply (Hclosed v ts' t).
      * right. split; [exact Hthrow |].
        destruct Hex as [v [ts' [t [Hin [Ht Hmiss]]]]].
        exists v, ts', t. split; [now right | now split].
    + rewrite Ht. cbn [bind]. right. split; [reflexivity |].
      exists k, ts, t. split; [now left | now split].
Qed.

(** X3: [_computeVertexGraph] throws, and then a [TypeError], exactly when
    the vertex map refers to a triangle index the triangle map has no entry
    for; in every other case it returns a graph. *)
Theorem computeVertexGraph_throws_iff_missing_triangle
  (pointToTriangles triangleToPoints : jsmap jsset) :
  (_computeVertexGraph pointToTriangles triangleToPoints
   = Throw (TypeError "verticesForTriangle is not iterable")
   <-> exists v ts t, In (v, ts) pointToTriangles /\ In t ts
                      /\ map_get triangleToPoints t = None)
  /\ ((exists g, _computeVertexGraph pointToTriangles triangleToPoints = Ok g)
      <-> forall v ts t, In (v, ts) pointToTriangles -> In t ts ->
                         map_get triangleToPoints t <> None).
Proof.
  unfold _computeVertexGraph.
  destruct (computeVertexGraph_cases pointToTriangles triangleToPoints [])
    as [[g [Hg Hclosed]] | [Hthrow Hex]].
  - rewrite Hg. split; split.
    + discriminate.
    + intros [v [ts [t [Hin [Ht Hmiss]]]]]. now contradiction (Hclosed v ts t).
    + intros _. exact Hclosed.
    + intros _. now exists g.
  - rewrite Hthrow. split; split.
    + intros _. exact Hex.
    + reflexivity.
    + intros [g Hg]. discriminate.
    + intro Hclosed. destruct Hex as [v [ts [t [Hin [Ht Hmiss]]]]].
      now contradiction (Hclosed v ts t).
Qed.

(* ================================================================== *)
(** ** Further properties of the border detector                       *)
(* ================================================================== *)

(** The first loop stores, for every border triangle, the candidates it
    computed for that triangle. *)
Lemma forOf_classify_candidates
  (triangleToPoints pointToTriangles : jsmap jsset) (entries : jsmap jsset) :
  (forall k vs, In (k, vs) entries -> In (k, vs) triangleToPoints) ->
  forall b b',
    (forall t, In t (borderTriangles b) ->
               exists vs cs,
                 In (t, vs) triangleToPoints
                 /\ triangleCandidatesOf pointToTriangles vs = Ok cs
                 /\ map_get (borderTrianglesToTrianglesWithSharedVertices b) t
                    = Some cs) ->
    forOf entries (classifyTriangle triangleToPoints pointToTriangles) b = Ok b' ->
    forall t, In t (borderTriangles b') ->
              exists vs cs,
                In (t, vs) triangleToPoints
                /\ triangleCandidatesOf pointToTriangles vs = Ok cs
                /\ map_get (borderTrianglesToTrianglesWithSharedVertices b') t
                   = Some cs.
Proof.
  induction entries as [| [k vs] entries IH]; intros Hsub b b' Hb; cbn [forOf].
  - intro H. injection H as <-. exact Hb.
  - unfold classifyTriangle at 1.
    destruct (triangleCandidatesOf pointToTriangles vs) as [cs | |] eqn:Ecs;
      cbn [bind]; try discriminate.
    destruct (trianglesWithTwoSharedVerticesOf triangleToPoints vs cs)
      as [two | |]; cbn [bind]; try discriminate.
    assert (Hsub' : forall k' vs', In (k', vs') entries ->
                                   In (k', vs') triangleToPoints).
    { intros k' vs' Hin. apply Hsub. now right. }
    destruct (List.length two <? 3); cbn [bind]; [| now apply IH].
    apply IH; [exact Hsub' |].
    intros t Ht. cbn [borderTriangles borderTrianglesToTrianglesWithSharedVertices] in *.
    rewrite map_get_set. destruct (t =? k) eqn:E.
    + apply Nat.eqb_eq in E. subst t. exists vs, cs.
      split; [apply Hsub; now left | now split].
    + apply set_add_In in Ht. destruct Ht as [Ht | ->].
      * now apply Hb.
      * now rewrite Nat.eqb_refl in E.
Qed.

(** Lines 162-167 for one border triangle. *)
Lemma forOf_commonVertices (triangleToPoints : jsmap jsset)
  (borderTriangle : nat) (ofBorder : jsset) (shared : list nat) :
  map_get triangleToPoints borderTriangle = Some ofBorder ->
  (forall s, In s shared -> map_get triangleToPoints s <> None) ->
  forall acc,
  exists r,
    forOf shared
      (fun borderVertices sharedBorderTriangle =>
         ofBorder <-
           defined "intersectionOfSets of undefined"
             (map_get triangleToPoints borderTriangle) ;;
         ofShared <-
           defined "intersectionOfSets of undefined"
             (map_get triangleToPoints sharedBorderTriangle) ;;
         let commonVertices := intersectionOfSets ofBorder ofShared in
         Ok (set_addAll borderVertices commonVertices))
      acc = Ok r
    /\ forall v, In v r
                 <-> In v acc
                     \/ exists s, In s shared /\ In v ofBorder
                                  /\ related triangleToPoints s v.
Proof.
  intros Hget. induction shared as [| s shared IH]; intros Hdef acc; cbn [forOf].
  - exists acc. split; [reflexivity |]. intro v. split; [now left |].
    intros [H | [s [[] _]]]. assumption.
  - rewrite Hget. cbn [defined bind].
    destruct (map_get triangleToPoints s) as [ofShared |] eqn:Es;
      [| now contradiction (Hdef s (or_introl eq_refl))].
    cbn [defined bind].
    destruct (IH (fun s' Hs' => Hdef s' (or_intror Hs'))
                (set_addAll acc (intersectionOfSets ofBorder ofShared)))
      as [r [Hr Hin]].
    rewrite Hget in Hr. cbn [defined bind] in Hr.
    exists r. split; [exact Hr |]. intro v.
    rewrite Hin, set_addAll_In, intersection_In. split.
    + intros [[H | [H1 H2]] | [s' [Hs' [H1 H2]]]].
      * now left.
      * right. exists s. split; [now left |]. split; [assumption |].
        now exists ofShared.
      * right. exists s'. split; [now right |]. now split.
    + intros [H | [s' [[<- | Hs'] [H1 H2]]]].
      * left. now left.
      * left. right. split; [assumption |].
        destruct H2 as [vs [Hvs Hv]]. rewrite Es in Hvs. now injection Hvs as <-.
      * right. exists s'. now repeat split.
Qed.

(** On the dual mappings of any triangle array [_computeBorderVertices]
    returns, and the set it returns consists of all points of all border
    triangles: a border triangle is among its own candidates, so the
    second loop adds each of its points. *)
Lemma computeBorderVertices_spec (triangles : list nat) :
  exists b bv,
    classifyTriangles (triangleIndexToVertexIndices (dualMaps triangles))
      (vertexIndexToTriangleIndices (dualMaps triangles)) = Ok b
    /\ _computeBorderVertices (triangleIndexToVertexIndices (dualMaps triangles))
         (vertexIndexToTriangleIndices (dualMaps triangles)) = Ok bv
    /\ forall v,
         In v bv
         <-> exists t, In t (borderTriangles b)
                       /\ related (triangleIndexToVertexIndices (dualMaps triangles)) t v.
Proof.
  destruct (dualMaps_invariant triangles) as [_ Hkeys _ _].
  set (d := dualMaps triangles) in *.
  assert (Hcount : forall k vs,
             In (k, vs) (triangleIndexToVertexIndices d) ->
             exists n, edgeNeighbourCount (triangleIndexToVertexIndices d)
                         (vertexIndexToTriangleIndices d) vs = Ok n).
  { intros k vs Hin. apply (In_map_get _ _ _ Hkeys) in Hin.
    destruct (edgeNeighbourCount_defined triangles k vs Hin) as [cs [_ [_ H]]].
    eexists. exact H. }
  destruct (forOf_classify _ _ (triangleIndexToVertexIndices d) Hcount (mkBorder [] []))
    as [b [Hb _]].
  assert (Hcands := forOf_classify_candidates
                      (triangleIndexToVertexIndices d) (vertexIndexToTriangleIndices d)
                      (triangleIndexToVertexIndices d) (fun k vs H => H)
                      (mkBorder [] []) b (fun t (H : In t []) => match H with end) Hb).
  exists b. unfold _computeBorderVertices, classifyTriangles.
  rewrite Hb. cbn [bind].
  enough (Hloop : forall bl acc,
             (forall bt, In bt bl -> In bt (borderTriangles b)) ->
             exists r,
               forOf bl
                 (fun borderVertices borderTriangle =>
                    trianglesWithSharedVertices <-
                      defined "trianglesWithSharedVertices is not iterable"
                        (map_get (borderTrianglesToTrianglesWithSharedVertices b)
                           borderTriangle) ;;
                    let sharedBorderTriangles :=
                      filter (set_has (borderTriangles b)) trianglesWithSharedVertices in
                    forOf sharedBorderTriangles
                      (fun borderVertices sharedBorderTriangle =>
                         ofBorder <-
                           defined "intersectionOfSets of undefined"
                             (map_get (triangleIndexToVertexIndices d) borderTriangle) ;;
                         ofShared <-
                           defined "intersectionOfSets of undefined"
                             (map_get (triangleIndexToVertexIndices d)
                                sharedBorderTriangle) ;;
                         let commonVertices := intersectionOfSets ofBorder ofShared in
                         Ok (set_addAll borderVertices commonVertices))
                      borderVertices)
                 acc = Ok r
               /\ forall v, In v r
                            <-> In v acc
                                \/ exists bt, In bt bl
                                              /\ related (triangleIndexToVertexIndices d) bt v).
  { destruct (Hloop (borderTriangles b) [] (fun bt H => H)) as [r [Hr Hin]].
    exists r. split; [reflexivity |]. split; [exact Hr |].
    intro v. rewrite Hin. split; [intros [[] | H]; exact H | now right]. }
  induction bl as [| bt bl IH]; intros acc Hsub; cbn [forOf].
  - exists acc. split; [reflexivity |]. intro v. split; [now left |].
    intros [H | [bt [[] _]]]. assumption.
  - destruct (Hcands bt (Hsub bt (or_introl eq_refl))) as [vs [cs [Hin [Hcs Hmap]]]].
    rewrite Hmap. cbn [defined bind]. cbv zeta.
    apply (In_map_get _ _ _ Hkeys) in Hin.
    destruct (triangleCandidatesOf_spec (vertexIndexToTriangleIndices d) vs)
      as [cs' [Hcs' [_ Hchar]]].
    { intros v Hv. apply dualMaps_vertex_keys. exists bt.
      apply dualMaps_triangle_side. now exists vs. }
    rewrite Hcs in Hcs'. injection Hcs' as <-.
    destruct (forOf_commonVertices (triangleIndexToVertexIndices d) bt vs
                (filter (set_has (borderTriangles b)) cs) Hin) with (acc := acc)
      as [r1 [Hr1 Hin1]].
    { intros s Hs. apply filter_In in Hs. destruct Hs as [Hs _].
      apply Hchar in Hs. destruct Hs as [u [_ Hr]].
      apply dualMaps_vertex_side, dualMaps_triangle_side in Hr.
      destruct Hr as [s0 [Hs0 _]]. fold d in Hs0. rewrite Hs0. discriminate. }
    cbv zeta in Hr1. rewrite Hr1. cbn [bind].
    destruct (IH r1 (fun bt' H => Hsub bt' (or_intror H))) as [r [Hr Hinr]].
    exists r. split; [exact Hr |]. intro v. rewrite Hinr, Hin1. split.
    + intros [[H | [s [_ [Hv _]]]] | [bt' [Hbt' Hrel]]].
      * now left.
      * right. exists bt. split; [now left | now exists vs].
      * right. exists bt'. split; [now right | assumption].
    + intros [H | [bt' [[<- | Hbt'] Hrel]]].
      * left. now left.
      * left. right. exists bt.
        assert (Hv : In v vs).
        { destruct Hrel as [vs' [Hvs' Hv]]. rewrite Hin in Hvs'.
          now injection Hvs' as <-. }
        split; [| split; [exact Hv | exact Hrel]].
        apply filter_In. split.
        -- apply Hchar. exists v. split; [exact Hv |].
           now apply dualMaps_vertex_side, dualMaps_triangle_side.
        -- apply set_has_In. apply Hsub. now left.
      * right. now exists bt'.
Qed.

(** X4: on the dual mappings of any triangle array [_computeBorderVertices]
    returns, and a point is in the set it returns exactly when the point
    is a corner of some triangle that has fewer than three edge-sharing
    neighbours (triangles with exactly two points in common with it);
    sharing the point with a second border triangle is not required. *)
Theorem borderVertices_are_points_of_border_triangles (triangles : list nat) :
  exists bv,
    _computeBorderVertices (triangleIndexToVertexIndices (dualMaps triangles))
      (vertexIndexToTriangleIndices (dualMaps triangles)) = Ok bv
    /\ forall v,
         In v bv
         <-> exists t neighbours,
               incident triangles v t
               /\ edgeNeighbours triangles t neighbours
               /\ List.length neighbours < 3.
Proof.
  destruct (computeBorderVertices_spec triangles) as [b [bv [Hb [Hbv Hin]]]].
  destruct (dualMaps_invariant triangles) as [_ Hkeys _ _].
  set (d := dualMaps triangles) in *.
  assert (Hcount : forall k vs,
             In (k, vs) (triangleIndexToVertexIndices d) ->
             exists n, edgeNeighbourCount (triangleIndexToVertexIndices d)
                         (vertexIndexToTriangleIndices d) vs = Ok n).
  { intros k vs Hk. apply (In_map_get _ _ _ Hkeys) in Hk.
    destruct (edgeNeighbours_counted triangles k vs Hk) as [cs [_ [_ [_ H]]]].
    eexists. exact H. }
  destruct (forOf_classify _ _ (triangleIndexToVertexIndices d) Hcount (mkBorder [] []))
    as [b' [Hb' Hborder]].
  unfold classifyTriangles in Hb. rewrite Hb in Hb'. injection Hb' as <-.
  exists bv. split; [exact Hbv |]. intro v. rewrite Hin. split.
  - intros [t [Ht [vs [Hvs Hv]]]]. apply Hborder in Ht.
    destruct Ht as [[] | [vs' [n [Hin' [Hn Hlt]]]]].
    apply (In_map_get _ _ _ Hkeys) in Hin'. rewrite Hvs in Hin'.
    injection Hin' as <-.
    destruct (edgeNeighbours_counted triangles t vs Hvs)
      as [cs [_ [_ [Hspec Hcounted]]]].
    fold d in Hcounted. rewrite Hn in Hcounted. injection Hcounted as ->.
    eexists. eexists. split; [| split; [exact Hspec | exact Hlt]].
    apply dualMaps_triangle_side. now exists vs.
  - intros [t [neighbours [Hinc [[Hnd Hspec] Hlt]]]].
    apply dualMaps_triangle_side in Hinc. destruct Hinc as [vs [Hvs Hv]].
    fold d in Hvs. exists t. split; [| now exists vs].
    destruct (edgeNeighbours_counted triangles t vs Hvs)
      as [cs [_ [_ [[Hnd' Hspec'] Hcounted]]]].
    fold d in Hcounted. apply Hborder. right. exists vs. eexists.
    split; [apply map_get_In; exact Hvs |]. split; [exact Hcounted |].
    assert (Hlen : List.length
                     (filter (sharesEdge (triangleIndexToVertexIndices d) vs) cs)
                   <= List.length neighbours).
    { apply NoDup_incl_length; [exact Hnd' |].
      intros c Hc. apply Hspec. now apply Hspec'. }
    lia.
Qed.

(** Four points of a square: every corner is a border point. *)
Example square_corners_are_border :
  _computeBorderVertices (triangleIndexToVertexIndices (dualMaps [0; 1; 2; 2; 1; 3]))
    (vertexIndexToTriangleIndices (dualMaps [0; 1; 2; 2; 1; 3]))
  = Ok [0; 1; 2; 3].
Proof. vm_compute. reflexivity. Qed.

(** A 3 x 3 grid (points 0..8 row by row, centre 4) triangulated with
    the four diagonals through the centre: the centre is a point of
    triangles that lie on the hull and so is returned as a border point. *)
Example grid_centre_is_border :
  exists bv,
    _computeBorderVertices
      (triangleIndexToVertexIndices
         (dualMaps [0;1;4; 0;4;3; 1;2;4; 2;5;4; 3;4;6; 4;7;6; 4;5;8; 4;8;7]))
      (vertexIndexToTriangleIndices
         (dualMaps [0;1;4; 0;4;3; 1;2;4; 2;5;4; 3;4;6; 4;7;6; 4;5;8; 4;8;7]))
    = Ok bv
    /\ In 4 bv.
Proof.
  exists [0; 1; 4; 3; 2; 5; 6; 7; 8]. split; [vm_compute; reflexivity |].
  cbn [In]. tauto.
Qed.

(* ================================================================== *)
(** ** Further properties of the queue and of the scoring step         *)
(* ================================================================== *)

(** X5: with the ordering of lines 178-181 and scores other than [NaN],
    [dequeue] on a non-empty border star queue returns an entry of the
    queue whose score no entry of the queue is below, and the queue that
    remains holds exactly the other entries, one fewer than before. *)
Theorem borderStarQueue_dequeue_minimum
  (h h' : Heap.t BorderStar) (root : BorderStar) :
  Heap.opts h = borderStarOptions ->
  Forall (fun e => isNaN (score e) = false) (Heap.items h) ->
  Heap.dequeue h = (Some root, h') ->
  In root (Heap.items h)
  /\ (forall e, In e (Heap.items h) -> num_lt (score e) (score root) = false)
  /\ (forall e, In e (Heap.items h) <-> e = root \/ In e (Heap.items h'))
  /\ Heap.length h = S (Heap.length h')
  /\ Heap.opts h' = borderStarOptions.
Proof.
  intros Hopts Hall Hdeq.
  destruct (dequeue_lowest_score h h' root Hopts Hall Hdeq) as [Hin Hmin].
  split; [exact Hin |]. split; [exact Hmin |].
  unfold Heap.dequeue in Hdeq.
  destruct (Heap.extract (Heap.isBefore h) (Heap.items h)) as [[r rest] |] eqn:E;
    [| discriminate].
  injection Hdeq as -> <-. cbn [Heap.items Heap.opts]. split; [| split].
  - apply (extract_members _ _ _ _ E).
  - unfold Heap.length. cbn [Heap.items]. apply (extract_length _ _ _ _ E).
  - exact Hopts.
Qed.

Lemma borderStarQueue_dequeue_minimum_two_entries :
  let h :=
    Heap.insert
      (Heap.insert (Heap.new borderStarOptions) (mkBorderStar (Finite 2) 0))
      (mkBorderStar (Finite 1) 1) in
  let h' := Heap.insert (Heap.new borderStarOptions) (mkBorderStar (Finite 2) 0) in
  let root := mkBorderStar (Finite 1) 1 in
  Heap.dequeue h = (Some root, h')
  /\ In root (Heap.items h)
  /\ (forall e, In e (Heap.items h) -> num_lt (score e) (score root) = false)
  /\ (forall e, In e (Heap.items h) <-> e = root \/ In e (Heap.items h'))
  /\ Heap.length h = S (Heap.length h')
  /\ Heap.opts h' = borderStarOptions.
Proof.
  cbv zeta. split; [reflexivity |].
  apply (borderStarQueue_dequeue_minimum
           (Heap.insert
              (Heap.insert (Heap.new borderStarOptions) (mkBorderStar (Finite 2) 0))
              (mkBorderStar (Finite 1) 1))
           (Heap.insert (Heap.new borderStarOptions) (mkBorderStar (Finite 2) 0))
           (mkBorderStar (Finite 1) 1)).
  - reflexivity.
  - repeat constructor.
  - reflexivity.
Defined.

Lemma num_div_one_not_NaN (r : number) :
  num_lt r (Finite (5 # 2)) = true -> isNaN (num_div one r) = false.
Proof.
  destruct r as [| [] | [] | q]; cbn [num_lt]; try discriminate; reflexivity.
Qed.

(** X6: the scoring step of lines 186-195 either leaves the queue as it
    is, when the relative distance is not below 2.5 (in particular when
    the distance or the range is [NaN]), or appends one entry for the
    border vertex with the score [1 / relDist]; a score it inserts is
    never [NaN]. *)
Theorem scoring_step_outcome
  (distance maxRange : number) (borderVertex : nat) (queue : Heap.t BorderStar) :
  ((num_lt (num_div distance maxRange) (Finite (5 # 2)) = true
    /\ scoreBorderVertex distance maxRange borderVertex queue
       = Heap.insert queue
           (mkBorderStar (num_div one (num_div distance maxRange)) borderVertex)
    /\ isNaN (num_div one (num_div distance maxRange)) = false)
   \/ (num_lt (num_div distance maxRange) (Finite (5 # 2)) = false
       /\ scoreBorderVertex distance maxRange borderVertex queue = queue))
  /\ (isNaN distance = true \/ isNaN maxRange = true ->
      scoreBorderVertex distance maxRange borderVertex queue = queue).
Proof.
  split.
  - unfold scoreBorderVertex.
    destruct (num_lt (num_div distance maxRange) (Finite (5 # 2))) eqn:E.
    + left. split; [reflexivity |]. split; [reflexivity |].
      now apply num_div_one_not_NaN.
    + right. now split.
  - intros [H | H]; unfold scoreBorderVertex.
    + destruct distance; try discriminate. reflexivity.
    + destruct maxRange; try discriminate. destruct distance; reflexivity.
Qed.

(** X7: for a positive finite range and two positive finite distances,
    the nearer one first: when the scoring step inserts the border vertex
    with the farther enemy, it inserts the one with the nearer enemy as
    well, and the score of the nearer one is not lower.  (The order is
    not strict: the statement also holds when both quotients round to
    the same double.) *)
Theorem closer_enemy_scores_not_lower
  (near far range : Q) (v1 v2 : nat) (queue : Heap.t BorderStar) :
  (0 < near)%Q -> (near <= far)%Q -> (0 < range)%Q ->
  num_lt (num_div (Finite far) (Finite range)) (Finite (5 # 2)) = true ->
  scoreBorderVertex (Finite near) (Finite range) v1 queue
  = Heap.insert queue
      (mkBorderStar (num_div one (num_div (Finite near) (Finite range))) v1)
  /\ scoreBorderVertex (Finite far) (Finite range) v2 queue
     = Heap.insert queue
         (mkBorderStar (num_div one (num_div (Finite far) (Finite range))) v2)
  /\ num_lt (num_div one (num_div (Finite near) (Finite range)))
            (num_div one (num_div (Finite far) (Finite range))) = false.
Proof.
  intros Hnear Hle Hrange Hfar.
  assert (Hinv : (0 < / range)%Q) by now apply Qinv_lt_0_compat.
  assert (Hdiv : (near / range <= far / range)%Q).
  { unfold Qdiv. apply Qmult_le_compat_r; [exact Hle | now apply Qlt_le_weak]. }
  assert (Hpos : (0 < near / range)%Q).
  { unfold Qdiv. now apply Qmult_lt_0_compat. }
  assert (Hpos' : (0 < far / range)%Q) by now apply (Qlt_le_trans _ (near / range)).
  unfold scoreBorderVertex. cbn [num_div num_lt valueOf] in *.
  assert (H1 : Qltb (near / range) (5 # 2) = true).
  { apply Qltb_lt. apply (Qle_lt_trans _ (far / range)); [exact Hdiv |].
    now apply Qltb_lt. }
  rewrite H1, Hfar. split; [reflexivity |]. split; [reflexivity |].
  unfold one. cbn [num_div num_lt valueOf]. apply Qltb_ge.
  assert (E : forall z, (1 / z == / z)%Q).
  { intro z. unfold Qdiv. apply Qmult_1_l. }
  rewrite !E.
  apply Qle_lteq in Hdiv. destruct Hdiv as [Hlt | Heq].
  - apply Qlt_le_weak.
    now apply (proj1 (Qinv_lt_contravar (near / range) (far / range) Hpos Hpos')).
  - rewrite Heq. apply Qle_refl.
Qed.

Lemma closer_enemy_scores_not_lower_at_1_and_2 :
  (0 < 1)%Q /\ (1 <= 2)%Q /\ (0 < 1)%Q
  /\ num_lt (num_div (Finite 2) (Finite 1)) (Finite (5 # 2)) = true
  /\ scoreBorderVertex (Finite 1) (Finite 1) 0 (Heap.new borderStarOptions)
     = Heap.insert (Heap.new borderStarOptions)
         (mkBorderStar (num_div one (num_div (Finite 1) (Finite 1))) 0)
  /\ scoreBorderVertex (Finite 2) (Finite 1) 1 (Heap.new borderStarOptions)
     = Heap.insert (Heap.new borderStarOptions)
         (mkBorderStar (num_div one (num_div (Finite 2) (Finite 1))) 1)
  /\ num_lt (num_div one (num_div (Finite 1) (Finite 1)))
            (num_div one (num_div (Finite 2) (Finite 1))) = false.
Proof.
  assert (H1 : (0 < 1)%Q) by reflexivity.
  assert (H2 : (1 <= 2)%Q) by discriminate.
  assert (H3 : num_lt (num_div (Finite 2) (Finite 1)) (Finite (5 # 2)) = true)
    by reflexivity.
  split; [exact H1 |]. split; [exact H2 |]. split; [exact H1 |].
  split; [exact H3 |].
  exact (closer_enemy_scores_not_lower 1 2 1 0 1 (Heap.new borderStarOptions)
           H1 H2 H1 H3).
Defined.

(* ================================================================== *)
(** ** Further properties of the logistics graph code                  *)
(* ================================================================== *)

(** X8: when [_findNextLogisticsConnection] returns a connection, its
    destination was unclaimed, is adjacent to its source, is not vertex 0,
    and is the one vertex removed from the unclaimed set, which thereby
    shrinks; when it returns [null] the unclaimed set is unchanged. *)
Theorem search_claims_an_unclaimed_point
  (fuel : nat) (vertexGraph graph : jsmap jsset) (u : list member)
  (start : nat) (found : option Connection) (u' : list member) :
  _findNextLogisticsConnection fuel vertexGraph graph u start = Ok (found, u') ->
  (forall c, found = Some c ->
             unmarked_has u (to c) = true
             /\ u' = unmarked_delete u (to c)
             /\ unmarked_has u' (to c) = false
             /\ List.length u' < List.length u
             /\ to c <> 0
             /\ related vertexGraph (from c) (to c))
  /\ (found = None -> u' = u).
Proof.
  intro H. apply findNextLogisticsConnection_spec in H. split.
  - intros c ->. destruct H as [Hhas [-> [Hnz Hadj]]].
    repeat split; try assumption.
    + apply unmarked_delete_has.
    + now apply unmarked_delete_length.
  - intros ->. exact H.
Qed.

Lemma search_claims_an_unclaimed_point_direct :
  _findNextLogisticsConnection 1 [(1, [1; 2]); (2, [1; 2])] [] [VertexIndex 2] 1
  = Ok (Some (mkConnection 1 2), [])
  /\ (forall c, Some (mkConnection 1 2) = Some c ->
                unmarked_has [VertexIndex 2] (to c) = true
                /\ [] = unmarked_delete [VertexIndex 2] (to c)
                /\ unmarked_has [] (to c) = false
                /\ List.length (A := member) [] < List.length [VertexIndex 2]
                /\ to c <> 0
                /\ related [(1, [1; 2]); (2, [1; 2])] (from c) (to c))
  /\ (Some (mkConnection 1 2) = None -> [] = [VertexIndex 2]).
Proof.
  split; [reflexivity |].
  apply (search_claims_an_unclaimed_point 1 [(1, [1; 2]); (2, [1; 2])] []
           [VertexIndex 2] 1 (Some (mkConnection 1 2)) []).
  reflexivity.
Defined.

(** X9: on a logistics graph whose stored sets are not empty (lines
    216-218 only store a set after adding to it) the search never comes
    to its [return null]: it returns a connection, or it throws a
    [TypeError] on a vertex without an entry in one of the two graphs, or
    the recursion does not come to an end within the given depth. *)
Theorem search_never_returns_null
  (fuel : nat) (vertexGraph graph : jsmap jsset) (u : list member)
  (start : nat) :
  (forall k s, map_get graph k = Some s -> s <> []) ->
  (exists c u',
      _findNextLogisticsConnection fuel vertexGraph graph u start = Ok (Some c, u'))
  \/ _findNextLogisticsConnection fuel vertexGraph graph u start
     = Throw (TypeError "possibleConnections is not iterable")
  \/ _findNextLogisticsConnection fuel vertexGraph graph u start
     = Throw (TypeError "connected is not iterable")
  \/ _findNextLogisticsConnection fuel vertexGraph graph u start = OutOfFuel.
Proof.
  intro Hne. revert u start.
  induction fuel as [| fuel IH]; intros u start;
    cbn [_findNextLogisticsConnection]; [now repeat right |].
  destruct (map_get vertexGraph start) as [possible |];
    cbn [defined bind]; [| right; now left].
  destruct (truthyIndex (find (unmarked_has u) possible));
    [left; eexists; eexists; reflexivity |].
  destruct (map_get graph start) as [connected |] eqn:Egraph;
    cbn [defined bind]; [| right; right; now left].
  destruct connected as [| c connected]; [now contradiction (Hne start []) |].
  destruct (IH u c) as [[c' [u1 H]] | [H | [H | H]]]; rewrite H; cbn [bind].
  - left. eexists. eexists. reflexivity.
  - right. now left.
  - right. right. now left.
  - now repeat right.
Qed.

Lemma search_never_returns_null_without_edges :
  (forall k s, map_get (V := jsset) [] k = Some s -> s <> [])
  /\ ((exists c u',
         _findNextLogisticsConnection 1 [(1, [1; 2]); (2, [1; 2])] [] [] 1
         = Ok (Some c, u'))
      \/ _findNextLogisticsConnection 1 [(1, [1; 2]); (2, [1; 2])] [] [] 1
         = Throw (TypeError "possibleConnections is not iterable")
      \/ _findNextLogisticsConnection 1 [(1, [1; 2]); (2, [1; 2])] [] [] 1
         = Throw (TypeError "connected is not iterable")
      \/ _findNextLogisticsConnection 1 [(1, [1; 2]); (2, [1; 2])] [] [] 1
         = OutOfFuel).
Proof.
  assert (H : forall k s, map_get (V := jsset) [] k = Some s -> s <> [])
    by (intros k s H; discriminate H).
  split; [exact H |].
  exact (search_never_returns_null 1 [(1, [1; 2]); (2, [1; 2])] [] [] 1 H).
Defined.

(** Around a cycle of the logistics graph with nothing left to claim the
    recursion does not end at any depth (in the engine: until the call
    stack is exhausted). *)
Example search_around_a_cycle (fuel : nat) :
  _findNextLogisticsConnection fuel [(1, [1; 2]); (2, [1; 2])]
    [(1, [2]); (2, [1])] [] 1 = OutOfFuel
  /\ _findNextLogisticsConnection fuel [(1, [1; 2]); (2, [1; 2])]
       [(1, [2]); (2, [1])] [] 2 = OutOfFuel.
Proof.
  induction fuel as [| fuel [IH1 IH2]]; [split; reflexivity |].
  split; cbn [_findNextLogisticsConnection map_get Nat.eqb defined bind find
              unmarked_has existsb truthyIndex].
  - now rewrite IH2.
  - now rewrite IH1.
Qed.

(** X10: whatever the queue and however long it may run,
    [_createLogisticsGraph] returns the empty graph when the adjacency
    graph has no entry and throws [ReferenceError] for [borderVertices]
    when it has one; it never returns a graph with an edge. *)
Theorem createLogisticsGraph_empty_or_throws
  (fuel : nat) (vertexGraph : jsmap jsset) (queue : Heap.t BorderStar) :
  (vertexGraph = [] /\ _createLogisticsGraph fuel vertexGraph queue = Ok [])
  \/ (vertexGraph <> []
      /\ _createLogisticsGraph fuel vertexGraph queue
         = Throw (ReferenceError "borderVertices")).
Proof.
  rewrite createLogisticsGraph_outcome. destruct vertexGraph.
  - left. now split.
  - right. split; [discriminate | reflexivity].
Qed.

Lemma arrayFilter_Ok {A : Type} (f : A -> result bool) (xs kept : list A) :
  arrayFilter f xs = Ok kept -> forall a, In a xs -> exists b, f a = Ok b.
Proof.
  revert kept. induction xs as [| a xs IH]; intros kept; cbn [arrayFilter].
  - intros _ a [].
  - destruct (f a) as [b | |] eqn:E; cbn [bind]; try discriminate.
    destruct (arrayFilter f xs) as [kept' | |]; cbn [bind]; try discriminate.
    intros _ a' [<- | Hin]; [now exists b | now apply (IH kept')].
Qed.

(** X11: [_computeBorderStarQueue] returns a queue only when the service
    has a distance service, the galaxy has no star with an owner and
    there is no border vertex, and the queue it returns is empty: the
    method never returns a queue that holds an entry. *)
Theorem computeBorderStarQueue_returns_only_empty
  (Math_sqrt : number -> number)
  (maxBy : (Player -> number) -> list Player -> completion number)
  (this : AIService) (game : Game) (borderVertices : jsset)
  (playerStars : list Star) (queue : Heap.t BorderStar) :
  _computeBorderStarQueue Math_sqrt maxBy this game borderVertices playerStars
  = Ok queue ->
  Heap.items queue = []
  /\ borderVertices = []
  /\ (forall star, In star (galaxy_stars game) -> ownedByPlayerId star = None)
  /\ distanceService this <> None.
Proof.
  unfold _computeBorderStarQueue.
  destruct (maxBy research_hyperspace_level (galaxy_players game)) as [level | e];
    cbn [lift bind]; [| discriminate].
  destruct (distanceService this) as [ds |]; cbn [defined bind]; [| discriminate].
  destruct (arrayFilter _ (galaxy_stars game)) as [enemyStars | |] eqn:E;
    cbn [bind]; try discriminate.
  destruct borderVertices as [| v vs]; cbn [forOf unbound bind]; [| discriminate].
  intro H. injection H as <-. split; [reflexivity |]. split; [reflexivity |].
  split; [| discriminate].
  intros star Hin. destruct (arrayFilter_Ok _ _ _ E star Hin) as [b Hb].
  destruct (ownedByPlayerId star); [discriminate Hb | reflexivity].
Qed.

Lemma computeBorderStarQueue_returns_only_empty_unowned_galaxy :
  let this := mkAIService idleUpgrades idleCarriers firstStarOnly (Some mkDistanceService) in
  let game := mkGame [mkStar None origin false] [defeatedPlayer] 1 10 (Finite 50) in
  _computeBorderStarQueue (fun n => n) (fun _ _ => Returns one) this game [] []
  = Ok (Heap.new borderStarOptions)
  /\ Heap.items (Heap.new borderStarOptions) = []
  /\ @nil nat = []
  /\ (forall star, In star (galaxy_stars game) -> ownedByPlayerId star = None)
  /\ distanceService this <> None.
Proof.
  cbv zeta. split; [reflexivity |].
  apply (computeBorderStarQueue_returns_only_empty (fun n => n)
           (fun _ _ => Returns one)
           (mkAIService idleUpgrades idleCarriers firstStarOnly (Some mkDistanceService))
           (mkGame [mkStar None origin false] [defeatedPlayer] 1 10 (Finite 50))
           [] [] (Heap.new borderStarOptions)).
  reflexivity.
Defined.

(* ================================================================== *)
(** ** Further properties of [play] and [_setupAi]                     *)
(* ================================================================== *)

Lemma neverReturns_abind_l {A B : Type} (c : action A) (k : A -> action B) :
  neverReturns c -> neverReturns (abind c k).
Proof.
  unfold neverReturns, abind. intros H w w' b.
  destruct (c w) as [w1 [a | e |]] eqn:E; try discriminate.
  now contradiction (H w w1 a).
Qed.

Lemma neverReturns_abind_r {A B : Type} (c : action A) (k : A -> action B) :
  (forall a, neverReturns (k a)) -> neverReturns (abind c k).
Proof.
  unfold neverReturns, abind. intros H w w' b.
  destruct (c w) as [w1 [a | e |]]; try discriminate. apply H.
Qed.

Lemma abind_Throw {A B : Type} (c : action A) (k : A -> action B)
  (w w' : World) (e : error) :
  c w = (w', Throw e) -> abind c k w = (w', Throw e).
Proof. unfold abind. now intros ->. Qed.

Lemma setupAi_never_returns
  (Math_sqrt : number -> number)
  (maxBy : (Player -> number) -> list Player -> completion number)
  (Delaunator_from : list (number * number) -> completion (list nat))
  (upgrades : StarUpgradeService) (carriers : CarrierService)
  (stars : StarService) (distances : DistanceService) (fuel : nat) :
  neverReturns
    (_setupAi Math_sqrt maxBy Delaunator_from
       (constructor upgrades carriers stars distances) fuel).
Proof.
  unfold _setupAi.
  do 6 (apply neverReturns_abind_r; intro). cbv zeta.
  do 3 (apply neverReturns_abind_r; intro).
  apply neverReturns_abind_l. intros w w' queue. unfold local.
  match goal with
  | |- context [_computeBorderStarQueue _ _ _ ?g ?b ?p] =>
      destruct (computeBorderStarQueue_throws Math_sqrt maxBy upgrades carriers
                  stars distances g b p) as [e He]
  end.
  rewrite He. discriminate.
Qed.

Lemma setupAi_throws
  (Math_sqrt : number -> number)
  (maxBy : (Player -> number) -> list Player -> completion number)
  (Delaunator_from : list (number * number) -> completion (list nat))
  (upgrades : StarUpgradeService) (carriers : CarrierService)
  (stars : StarService) (distances : DistanceService) (fuel : nat) (w : World) :
  exists w' e,
    _setupAi Math_sqrt maxBy Delaunator_from
      (constructor upgrades carriers stars distances) fuel w
    = (w', Throw e).
Proof.
  assert (Hs := settles_setupAi Math_sqrt maxBy Delaunator_from
                  (constructor upgrades carriers stars distances) fuel w).
  assert (Hn := setupAi_never_returns Math_sqrt maxBy Delaunator_from
                  upgrades carriers stars distances fuel w).
  destruct (_setupAi _ _ _ _ _ w) as [w' [[] | e |]]; cbn [snd] in Hs.
  - now contradiction (Hn w' tt).
  - now exists w', e.
  - now contradiction Hs.
Qed.

(** X12: for a service made by the constructor [_setupAi] never completes:
    whatever the collaborators do, it ends in an exception. *)
Theorem setupAi_always_throws
  (Math_sqrt : number -> number)
  (maxBy : (Player -> number) -> list Player -> completion number)
  (Delaunator_from : list (number * number) -> completion (list nat))
  (upgrades : StarUpgradeService) (carriers : CarrierService)
  (stars : StarService) (distances : DistanceService) (fuel : nat) (w : World) :
  exists w' e,
    _setupAi Math_sqrt maxBy Delaunator_from
      (constructor upgrades carriers stars distances) fuel w
    = (w', Throw e).
Proof.
  exact (setupAi_throws Math_sqrt maxBy Delaunator_from upgrades carriers stars
           distances fuel w).
Qed.

(** X13: the first activation of a player (its [ai] flag is not yet set)
    by a service made by the constructor never reaches the spending
    rules: the outcome of [play] is the same whatever the star upgrade
    service is, and for a defeated player [_setupAi] throws, the error is
    appended to the console, and [play] returns after replacing the
    credits by [Math.max(0, credits)]. *)
Theorem first_activation_never_upgrades
  (Math_sqrt : number -> number)
  (maxBy : (Player -> number) -> list Player -> completion number)
  (Delaunator_from : list (number * number) -> completion (list nat))
  (floorPercent : number -> Z -> number)
  (upgrades1 upgrades2 : StarUpgradeService) (carriers : CarrierService)
  (stars : StarService) (distances : DistanceService) (fuel : nat) (w : World) :
  ai (player w) = false ->
  play Math_sqrt maxBy Delaunator_from floorPercent
    (constructor upgrades1 carriers stars distances) fuel w
  = play Math_sqrt maxBy Delaunator_from floorPercent
      (constructor upgrades2 carriers stars distances) fuel w
  /\ (defeated (player w) = true ->
      exists w1 e,
        _setupAi Math_sqrt maxBy Delaunator_from
          (constructor upgrades1 carriers stars distances) fuel
          (mkWorld (game w) (withAi true (player w)) (console w))
        = (w1, Throw e)
        /\ play Math_sqrt maxBy Delaunator_from floorPercent
             (constructor upgrades1 carriers stars distances) fuel w
           = (clampCredits (mkWorld (game w1) (player w1) (console w1 ++ [e])),
              Ok tt)).
Proof.
  intro Hai. unfold play. rewrite !abind_getWorld.
  destruct (defeated (player w)); cbn [negb]; [| split; [reflexivity | discriminate]].
  set (w0 := mkWorld (game w) (withAi true (player w)) (console w)).
  destruct (setupAi_throws Math_sqrt maxBy Delaunator_from upgrades1 carriers
              stars distances fuel w0) as [w' [e H1]].
  assert (H2 : _setupAi Math_sqrt maxBy Delaunator_from
                 (constructor upgrades2 carriers stars distances) fuel w0
               = (w', Throw e)) by exact H1.
  assert (Hbody : forall this,
             _setupAi Math_sqrt maxBy Delaunator_from this fuel w0 = (w', Throw e) ->
             tryCatch
               (w <~ getWorld ;;
                _ <~ (if negb (ai (player w)) then
                        _ <~ setPlayer (withAi true) ;;
                        _setupAi Math_sqrt maxBy Delaunator_from this fuel
                      else ret tt) ;;
                w <~ getWorld ;;
                let tick := state_tick (game w) in
                let productionTicks := settings_galaxy_productionTicks (game w) in
                let isFirstTick := remainderIs tick productionTicks 1 in
                let isLastTick :=
                  remainderIs tick productionTicks (productionTicks - 1) in
                if isFirstTick then _playFirstTick floorPercent this
                else if isLastTick then _playLastTick floorPercent this
                else ret tt)
               (fun e => console_error e) w
             = console_error e w').
  { intros this Hthis. unfold tryCatch. rewrite abind_getWorld, Hai. cbn [negb].
    erewrite abind_Throw; [reflexivity |].
    erewrite abind_Ok; [exact Hthis | reflexivity]. }
  rewrite (abind_Ok _ _ w (fst (console_error e w')) tt);
    [| exact (Hbody _ H1)].
  rewrite (abind_Ok _ _ w (fst (console_error e w')) tt);
    [| exact (Hbody _ H2)].
  split; [reflexivity |]. intros _. exists w', e. split; [exact H1 |].
  reflexivity.
Qed.

Lemma first_activation_never_upgrades_peaceful :
  ai (player (mkWorld peacefulGame defeatedPlayer [])) = false
  /\ play (fun n => n) (fun _ _ => Returns one) (fun _ => Returns [])
       (fun c _ => c)
       (constructor idleUpgrades idleCarriers firstStarOnly mkDistanceService) 1
       (mkWorld peacefulGame defeatedPlayer [])
     = play (fun n => n) (fun _ _ => Returns one) (fun _ => Returns [])
         (fun c _ => c)
         (constructor
            (mkStarUpgradeService
               (fun _ _ _ _ w => (w, Throws (Error "no upgrade expected"))))
            idleCarriers firstStarOnly mkDistanceService) 1
         (mkWorld peacefulGame defeatedPlayer [])
  /\ (defeated (player (mkWorld peacefulGame defeatedPlayer [])) = true ->
      exists w1 e,
        _setupAi (fun n => n) (fun _ _ => Returns one) (fun _ => Returns [])
          (constructor idleUpgrades idleCarriers firstStarOnly mkDistanceService) 1
          (mkWorld (game (mkWorld peacefulGame defeatedPlayer []))
             (withAi true (player (mkWorld peacefulGame defeatedPlayer [])))
             (console (mkWorld peacefulGame defeatedPlayer [])))
        = (w1, Throw e)
        /\ play (fun n => n) (fun _ _ => Returns one) (fun _ => Returns [])
             (fun c _ => c)
             (constructor idleUpgrades idleCarriers firstStarOnly mkDistanceService)
             1 (mkWorld peacefulGame defeatedPlayer [])
           = (clampCredits (mkWorld (game w1) (player w1) (console w1 ++ [e])),
              Ok tt)).
Proof.
  split; [reflexivity |].
  exact (first_activation_never_upgrades (fun n => n) (fun _ _ => Returns one)
           (fun _ => Returns []) (fun c _ => c)
           idleUpgrades
           (mkStarUpgradeService
              (fun _ _ _ _ w => (w, Throws (Error "no upgrade expected"))))
           idleCarriers firstStarOnly mkDistanceService 1
           (mkWorld peacefulGame defeatedPlayer []) eq_refl).
Defined.

Lemma abind_ret {A B : Type} (a : A) (k : A -> action B) (w : World) :
  abind (ret a) k w = k a w.
Proof. reflexivity. Qed.

Lemma firstTick_guard (c : number) :
  num_lt c (Zero false) = true \/ (exists negative, c = Zero negative) ->
  negb (num_truthy c) || num_lt c (Zero false) = true.
Proof.
  intros [H | [negative ->]]; [| reflexivity].
  rewrite H. apply orb_true_r.
Qed.

Lemma lastTick_guard (c : number) :
  num_lt c (Zero false) = true \/ (exists negative, c = Zero negative) ->
  negb (num_truthy c) || num_le c (Zero false) = true.
Proof.
  intros [H | [negative ->]]; [| reflexivity].
  apply orb_true_iff. right. unfold num_le.
  destruct c as [| [|] | [|] | q]; try discriminate H; try reflexivity.
  cbn [isNaN negb andb]. cbn [num_lt valueOf] in *.
  now rewrite (Qltb_asym _ _ H).
Qed.

Lemma Math_max_zero_of_negative (c : number) :
  num_lt c (Zero false) = true \/ (exists negative, c = Zero negative) ->
  Math_max (Zero false) c = Zero false.
Proof.
  intros [H | [negative ->]]; [| reflexivity].
  destruct c as [| [|] | [|] | q]; try discriminate H; try reflexivity.
  unfold Math_max. cbn [num_lt valueOf] in *.
  now rewrite (Qltb_asym _ _ H).
Qed.

(** X14: for a defeated player that is already under AI control, on a
    tick that is neither the first nor the last of a production cycle
    (also when the cycle length is 0), [play] calls no collaborator and
    changes nothing except that the credits become [Math.max(0, credits)]. *)
Theorem play_idle_tick
  (Math_sqrt : number -> number)
  (maxBy : (Player -> number) -> list Player -> completion number)
  (Delaunator_from : list (number * number) -> completion (list nat))
  (floorPercent : number -> Z -> number) (this : AIService) (fuel : nat) (w : World) :
  defeated (player w) = true ->
  ai (player w) = true ->
  remainderIs (state_tick (game w)) (settings_galaxy_productionTicks (game w)) 1
  = false ->
  remainderIs (state_tick (game w)) (settings_galaxy_productionTicks (game w))
    (settings_galaxy_productionTicks (game w) - 1) = false ->
  play Math_sqrt maxBy Delaunator_from floorPercent this fuel w
  = (clampCredits w, Ok tt).
Proof.
  intros Hd Ha H1 H2.
  unfold play. rewrite abind_getWorld, Hd. cbn [negb].
  erewrite abind_Ok; [rewrite abind_getWorld; reflexivity |].
  unfold tryCatch. rewrite abind_getWorld, Ha. cbn [negb].
  rewrite abind_ret, abind_getWorld. cbv zeta. rewrite H1, H2. reflexivity.
Qed.

Lemma play_idle_tick_cycle_of_length_zero :
  let w :=
    mkWorld (mkGame [] [] 5 0 (Finite 50)) (mkPlayer 7 true true (Finite (-3)) "" one) [] in
  defeated (player w) = true
  /\ ai (player w) = true
  /\ remainderIs (state_tick (game w)) (settings_galaxy_productionTicks (game w)) 1
     = false
  /\ remainderIs (state_tick (game w)) (settings_galaxy_productionTicks (game w))
       (settings_galaxy_productionTicks (game w) - 1) = false
  /\ play (fun n => n) (fun _ _ => Returns one) (fun _ => Returns [])
       (fun c _ => c) aiService 1 w
     = (clampCredits w, Ok tt).
Proof.
  cbv zeta. repeat (split; [reflexivity |]).
  apply (play_idle_tick (fun n => n) (fun _ _ => Returns one) (fun _ => Returns [])
           (fun c _ => c) aiService 1
           (mkWorld (mkGame [] [] 5 0 (Finite 50))
              (mkPlayer 7 true true (Finite (-3)) "" one) []));
    reflexivity.
Defined.

(** X15: a defeated player under AI control that has no credits, or
    negative credits, never has anything upgraded: on every tick [play]
    calls no collaborator, returns, and leaves the player with 0 credits. *)
Theorem play_without_credits
  (Math_sqrt : number -> number)
  (maxBy : (Player -> number) -> list Player -> completion number)
  (Delaunator_from : list (number * number) -> completion (list nat))
  (floorPercent : number -> Z -> number) (this : AIService) (fuel : nat) (w : World) :
  defeated (player w) = true ->
  ai (player w) = true ->
  (num_lt (credits (player w)) (Zero false) = true
   \/ exists negative, credits (player w) = Zero negative) ->
  play Math_sqrt maxBy Delaunator_from floorPercent this fuel w
  = (clampCredits w, Ok tt)
  /\ credits (player (clampCredits w)) = Zero false.
Proof.
  intros Hd Ha Hc. split.
  - unfold play. rewrite abind_getWorld, Hd. cbn [negb].
    erewrite abind_Ok; [rewrite abind_getWorld; reflexivity |].
    unfold tryCatch. rewrite abind_getWorld, Ha. cbn [negb].
    rewrite abind_ret, abind_getWorld. cbv zeta.
    destruct (remainderIs _ _ 1).
    { unfold _playFirstTick. rewrite abind_getWorld. cbv zeta.
      now rewrite (firstTick_guard _ Hc). }
    destruct (remainderIs _ _ _); [| reflexivity].
    unfold _playLastTick. rewrite abind_getWorld. cbv zeta.
    now rewrite (lastTick_guard _ Hc).
  - unfold clampCredits. cbn [player credits withCredits].
    now apply Math_max_zero_of_negative.
Qed.

Lemma play_without_credits_first_tick :
  let w := mkWorld peacefulGame (mkPlayer 7 true true (Finite (-3)) "" one) [] in
  defeated (player w) = true
  /\ ai (player w) = true
  /\ (num_lt (credits (player w)) (Zero false) = true
      \/ exists negative, credits (player w) = Zero negative)
  /\ play (fun n => n) (fun _ _ => Returns one) (fun _ => Returns [])
       (fun c _ => c) aiService 1 w
     = (clampCredits w, Ok tt)
  /\ credits (player (clampCredits w)) = Zero false.
Proof.
  cbv zeta. split; [reflexivity |]. split; [reflexivity |].
  assert (H : num_lt (Finite (-3)) (Zero false) = true
              \/ exists negative, Finite (-3) = Zero negative)
    by (left; reflexivity).
  split; [exact H |].
  apply (play_without_credits (fun n => n) (fun _ _ => Returns one)
           (fun _ => Returns []) (fun c _ => c) aiService 1
           (mkWorld peacefulGame (mkPlayer 7 true true (Finite (-3)) "" one) []));
    [reflexivity | reflexivity | exact H].
Defined.

(* ================================================================== *)
(** ** Properties of the distance service                              *)
(* ================================================================== *)

Lemma num_sub_swap (a b : number) : opposite (num_sub a b) (num_sub b a).
Proof.
  destruct a as [| [] | [] | p], b as [| [] | [] | q];
    cbn [num_sub num_neg num_add opposite negb andb Bool.eqb];
    try exact I; try reflexivity.
  - ring.
  - ring.
  - unfold ofQ.
    destruct (Qeq_bool (p + - q) 0) eqn:E1, (Qeq_bool (q + - p) 0) eqn:E2;
      cbn [opposite]; try exact I.
    + apply Qeq_bool_iff in E1. apply Qeq_bool_neq in E2. apply E2. lra.
    + apply Qeq_bool_iff in E2. apply Qeq_bool_neq in E1. apply E1. lra.
    + ring.
Qed.

Lemma square_opposite (a b : number) :
  opposite a b -> num_eqv (num_mul a a) (num_mul b b).
Proof.
  destruct a as [| [] | [] | p], b as [| [] | [] | q];
    cbn [opposite num_mul num_eqv signOf xorb negb];
    try tauto; try discriminate; try reflexivity.
  intro H. rewrite H. ring.
Qed.

Lemma ofQ_eqv (p q : Q) : (p == q)%Q -> num_eqv (ofQ p) (ofQ q).
Proof.
  intro H. unfold ofQ.
  destruct (Qeq_bool p 0) eqn:E1, (Qeq_bool q 0) eqn:E2; cbn [num_eqv];
    try reflexivity; try exact H.
  - apply Qeq_bool_iff in E1. apply Qeq_bool_neq in E2. apply E2.
    now rewrite <- H.
  - apply Qeq_bool_iff in E2. apply Qeq_bool_neq in E1. apply E1.
    now rewrite H.
Qed.

Lemma num_add_eqv (a a' b b' : number) :
  num_eqv a a' -> num_eqv b b' -> num_eqv (num_add a b) (num_add a' b').
Proof.
  destruct a as [| [] | [] | p], a' as [| [] | [] | p'];
    cbn [num_eqv]; try tauto; try discriminate; intros Ha;
    destruct b as [| [] | [] | q], b' as [| [] | [] | q'];
    cbn [num_eqv]; try tauto; try discriminate; intros Hb;
    cbn [num_add num_eqv Bool.eqb andb]; try reflexivity; try assumption.
  apply ofQ_eqv. now rewrite Ha, Hb.
Qed.

(** X16: the squared distance does not depend on the order of the two
    locations. *)
Theorem distanceSquared_symmetric (loc1 loc2 : Location) :
  num_eqv (getDistanceSquaredBetweenLocations loc1 loc2)
          (getDistanceSquaredBetweenLocations loc2 loc1).
Proof.
  unfold getDistanceSquaredBetweenLocations. cbv zeta.
  apply num_add_eqv; apply square_opposite, num_sub_swap.
Qed.

Lemma Qsquare_not_negative (p : Q) : Qnegative (p * p) = false.
Proof.
  unfold Qnegative. apply Qltb_ge.
  destruct (Qlt_le_dec p 0) as [H | H].
  - assert (E : (p * p == (- p) * (- p))%Q) by ring. rewrite E.
    apply Qmult_le_0_compat; lra.
  - now apply Qmult_le_0_compat.
Qed.

Lemma square_sign (a : number) : signOf (num_mul a a) = false.
Proof.
  destruct a as [| [] | [] | p]; cbn [num_mul signOf xorb]; try reflexivity.
  apply Qsquare_not_negative.
Qed.

Lemma num_add_sign (a b : number) :
  signOf a = false -> signOf b = false -> signOf (num_add a b) = false.
Proof.
  destruct a as [| [] | [] | p], b as [| [] | [] | q];
    cbn [signOf num_add Bool.eqb andb]; try reflexivity; try discriminate;
    try (intros; assumption).
  unfold Qnegative. rewrite !Qltb_ge. intros Hp Hq. unfold ofQ.
  destruct (Qeq_bool (p + q) 0); [reflexivity |].
  cbn [signOf]. unfold Qnegative. apply Qltb_ge. lra.
Qed.

(** X17: the squared distance is never negative and never the negative
    zero, whatever the coordinates are: it is [NaN], [+Infinity], [+0] or
    a positive number. *)
Theorem distanceSquared_not_negative (loc1 loc2 : Location) :
  signOf (getDistanceSquaredBetweenLocations loc1 loc2) = false
  /\ num_lt (getDistanceSquaredBetweenLocations loc1 loc2) (Zero false) = false.
Proof.
  assert (H : signOf (getDistanceSquaredBetweenLocations loc1 loc2) = false).
  { unfold getDistanceSquaredBetweenLocations. cbv zeta.
    apply num_add_sign; apply square_sign. }
  split; [exact H |].
  destruct (getDistanceSquaredBetweenLocations loc1 loc2) as [| [] | [] | q];
    cbn [signOf] in H; try discriminate; try reflexivity.
  exact H.
Qed.

(** X18: with a positive length of the light year, the hyperspace range
    of a level that is [NaN] or not negative is positive; a level of 0 or
    [NaN] counts as level 1. *)
Theorem hyperspaceDistance_positive (game : Game) (level : number) :
  num_lt (Zero false) (constants_distances_lightYear game) = true ->
  isNaN level = true \/ signOf level = false ->
  num_lt (Zero false) (getHyperspaceDistance game level) = true
  /\ (num_truthy level = false ->
      getHyperspaceDistance game level = getHyperspaceDistance game one).
Proof.
  intros Hly Hlevel. split.
  - unfold getHyperspaceDistance.
    assert (Hsum : exists q, (0 < q)%Q
                     /\ (num_add (num_or level one) (Finite (3 # 2)) = Finite q
                         \/ num_add (num_or level one) (Finite (3 # 2))
                            = Infinity false)).
    { destruct level as [| [] | s | q]; cbn [num_or num_truthy one num_add ofQ].
      - exists (1 + (3 # 2))%Q. split; [reflexivity | now left].
      - destruct Hlevel as [H | H]; discriminate H.
      - exists 1%Q. split; [reflexivity | now right].
      - exists (1 + (3 # 2))%Q. split; [reflexivity | now left].
      - destruct Hlevel as [H | H]; [discriminate H |].
        cbn [signOf] in H. unfold Qnegative in H. apply Qltb_ge in H.
        exists (q + (3 # 2))%Q. split; [lra |]. left. unfold ofQ.
        destruct (Qeq_bool (q + (3 # 2)) 0) eqn:E; [| reflexivity].
        apply Qeq_bool_iff in E. lra. }
    destruct Hsum as [q [Hq [-> | ->]]];
      destruct (constants_distances_lightYear game) as [| [] | [] | r];
      cbn [num_lt valueOf negb] in Hly; try discriminate;
      cbn [num_mul signOf xorb num_lt valueOf negb]; try reflexivity.
    + unfold Qnegative. apply Qltb_lt in Hq. now rewrite (Qltb_asym _ _ Hq).
    + apply Qltb_lt. apply Qltb_lt in Hly. now apply Qmult_lt_0_compat.
    + unfold Qnegative. now rewrite (Qltb_asym _ _ Hly).
  - intro H. unfold getHyperspaceDistance, num_or. now rewrite H.
Qed.

Lemma hyperspaceDistance_positive_level_zero :
  num_lt (Zero false) (constants_distances_lightYear peacefulGame) = true
  /\ (isNaN (Zero false) = true \/ signOf (Zero false) = false)
  /\ num_lt (Zero false) (getHyperspaceDistance peacefulGame (Zero false)) = true
  /\ (num_truthy (Zero false) = false ->
      getHyperspaceDistance peacefulGame (Zero false)
      = getHyperspaceDistance peacefulGame one).
Proof.
  split; [reflexivity |]. split; [now right |].
  apply (hyperspaceDistance_positive peacefulGame (Zero false));
    [reflexivity | now right].
Defined.

Lemma num_sub_negative (a b : number) :
  num_lt (num_sub a b) (Zero false) = num_lt a b.
Proof.
  destruct a as [| [] | [] | p], b as [| [] | [] | q];
    try reflexivity;
    cbn [num_sub num_neg num_add num_lt valueOf negb andb].
  - apply Qltb_ext. lra.
  - apply Qltb_ext. lra.
  - unfold ofQ. destruct (Qeq_bool (p + - q) 0) eqn:E; cbn [num_lt valueOf].
    + apply Qeq_bool_eq in E. apply Qltb_ext. lra.
    + apply Qltb_ext. lra.
Qed.

Lemma sortInsert_In {A : Type} (compare : A -> A -> number) (a : A) (l : list A) :
  forall b, In b (sortInsert compare a l) <-> b = a \/ In b l.
Proof.
  induction l as [| c l IH]; intro b; cbn [sortInsert In].
  - intuition.
  - destruct (num_lt (compare c a) (Zero false)); cbn [In].
    + rewrite IH. intuition.
    + intuition.
Qed.

Lemma arraySort_In {A : Type} (compare : A -> A -> number) (l : list A) :
  forall b, In b (arraySort compare l) <-> In b l.
Proof.
  unfold arraySort. induction l as [| a l IH]; intro b; cbn [fold_right In].
  - reflexivity.
  - rewrite sortInsert_In, IH. intuition.
Qed.

Lemma sortInsert_length {A : Type} (compare : A -> A -> number) (a : A) (l : list A) :
  List.length (sortInsert compare a l) = S (List.length l).
Proof.
  induction l as [| c l IH]; cbn [sortInsert List.length]; [reflexivity |].
  destruct (num_lt (compare c a) (Zero false)); cbn [List.length];
    [now rewrite IH | reflexivity].
Qed.

Lemma arraySort_length {A : Type} (compare : A -> A -> number) (l : list A) :
  List.length (arraySort compare l) = List.length l.
Proof.
  unfold arraySort. induction l as [| a l IH]; cbn [fold_right List.length];
    [reflexivity |].
  now rewrite sortInsert_length, IH.
Qed.

(** The first element of a sorted array is one that no element is
    strictly before, when the sort key is never [NaN]. *)
Lemma arraySort_head {A : Type} (key : A -> number) (l : list A) (first : A) :
  (forall a, In a l -> isNaN (key a) = false) ->
  nth_error (arraySort (fun a b => num_sub (key a) (key b)) l) 0 = Some first ->
  forall b, In b l -> num_lt (key b) (key first) = false.
Proof.
  unfold arraySort. revert first.
  induction l as [| a l IH]; intros first Hkeys; cbn [fold_right];
    [discriminate |].
  fold (arraySort (fun a b => num_sub (key a) (key b)) l).
  destruct (arraySort (fun a b => num_sub (key a) (key b)) l) as [| c sorted] eqn:E.
  - cbn [sortInsert nth_error]. intro H. injection H as <-.
    assert (Hl : l = []).
    { apply (f_equal (@List.length A)) in E. rewrite arraySort_length in E.
      now destruct l. }
    subst l. intros b [<- | []]. apply num_lt_irrefl.
  - assert (Hc : forall b, In b l -> num_lt (key b) (key c) = false).
    { apply IH; [intros a' Ha'; apply Hkeys; now right |].
      unfold arraySort in E. now rewrite E. }
    assert (Hcl : In c l).
    { apply (arraySort_In (fun a b => num_sub (key a) (key b))). rewrite E. now left. }
    cbn [sortInsert]. rewrite num_sub_negative.
    destruct (num_lt (key c) (key a)) eqn:Eca; cbn [nth_error];
      intro H; injection H as <-; intros b [<- | Hb].
    + now apply num_lt_asym.
    + now apply Hc.
    + apply num_lt_irrefl.
    + apply (num_lt_negtrans _ (key c)).
      * apply Hkeys. now right.
      * now apply Hc.
      * exact Eca.
Qed.

Lemma firstn_In {A : Type} (n : nat) (l : list A) (a : A) :
  In a (firstn n l) -> In a l.
Proof.
  intro H. rewrite <- (firstn_skipn n l). apply in_or_app. now left.
Qed.

Lemma last_cons {A : Type} (l : list A) :
  forall c d, last (c :: l) d = last l c.
Proof.
  induction l as [| e l IH]; intros c d; [reflexivity |].
  change (last (c :: e :: l) d) with (last (e :: l) d).
  now rewrite !IH.
Qed.

Section DistanceProperties.

Variable Math_sqrt : number -> number.

(** X19: [getDistanceAlongLocationList] returns [null] exactly for a
    missing list and for a list of fewer than two locations, and a
    further location at the end of a list of at least two adds the
    distance of the last leg to the sum. *)
Theorem distanceAlong_append (locations : list Location) (final : Location) :
  (getDistanceAlongLocationList Math_sqrt None = None)
  /\ (getDistanceAlongLocationList Math_sqrt (Some locations) = None
      <-> List.length locations < 2)
  /\ forall d,
       getDistanceAlongLocationList Math_sqrt (Some locations) = Some d ->
       getDistanceAlongLocationList Math_sqrt (Some (locations ++ [final]))
       = Some (num_add d
                 (getDistanceBetweenLocations Math_sqrt
                    (last locations final) final)).
Proof.
  split; [reflexivity |]. split.
  - destruct locations as [| a [| b rest]]; cbn [getDistanceAlongLocationList
      List.length Nat.ltb Nat.leb]; split; intro H; try reflexivity;
      try lia; try discriminate.
  - intros d. destruct locations as [| a [| b rest]]; try discriminate.
    set (step := fun (state : number * Location) (current : Location) =>
                   let '(distance, last) := state in
                   (num_add distance
                      (getDistanceBetweenLocations Math_sqrt last current),
                    current)).
    change (getDistanceAlongLocationList Math_sqrt (Some (a :: b :: rest)))
      with (Some (fst (fold_left step (b :: rest) (Zero false, a)))).
    change (getDistanceAlongLocationList Math_sqrt
              (Some ((a :: b :: rest) ++ [final])))
      with (Some (fst (fold_left step ((b :: rest) ++ [final]) (Zero false, a)))).
    intro H.
    assert (Hd : fst (fold_left step (b :: rest) (Zero false, a)) = d)
      by congruence.
    clear H. rewrite <- Hd. clear Hd d. rewrite fold_left_app.
    assert (Hlast : forall l state,
               snd (fold_left step l state) = last l (snd state)).
    { induction l as [| c l IH]; intro state; [reflexivity |].
      cbn [fold_left]. rewrite IH. destruct state as [dist prev]. cbn [snd step].
      symmetry. apply last_cons. }
    specialize (Hlast (b :: rest) (Zero false, a)).
    destruct (fold_left step (b :: rest) (Zero false, a)) as [dist prev].
    cbn [snd fst step fold_left] in *. subst prev. f_equal. f_equal. f_equal.
    now rewrite !last_cons.
Qed.

(** X20: [getClosestLocations] returns at most [amount] locations, all
    of them taken from [locs], and never one that has the x coordinate or
    the y coordinate of [loc]. *)
Theorem closestLocations_members (loc : Location) (locs : list Location)
  (amount : nat) :
  List.length (getClosestLocations Math_sqrt loc locs amount) <= amount
  /\ List.length (getClosestLocations Math_sqrt loc locs amount) <= List.length locs
  /\ forall a,
       In a (getClosestLocations Math_sqrt loc locs amount) ->
       In a locs
       /\ num_strictEq (x a) (x loc) = false
       /\ num_strictEq (y a) (y loc) = false.
Proof.
  unfold getClosestLocations. cbv zeta. split; [apply firstn_le_length |]. split.
  - rewrite length_firstn, arraySort_length.
    etransitivity; [apply Nat.le_min_r | apply filter_length_le].
  - intros a Ha. apply firstn_In in Ha. apply arraySort_In in Ha.
    apply filter_In in Ha. destruct Ha as [Hin Hd].
    unfold differsInBothCoordinates in Hd. apply andb_prop in Hd.
    destruct Hd as [H1 H2]. apply negb_true_iff in H1, H2. now repeat split.
Qed.

(** X21: when no distance from [loc] is [NaN], the location that
    [getClosestLocation] returns is one that no qualifying location of
    [locs] is nearer than. *)
Theorem closestLocation_is_nearest (loc : Location) (locs : list Location)
  (closest : Location) :
  (forall a, In a locs ->
             isNaN (getDistanceBetweenLocations Math_sqrt loc a) = false) ->
  getClosestLocation Math_sqrt loc locs = Some closest ->
  In closest locs
  /\ forall b, In b locs -> differsInBothCoordinates loc b = true ->
               num_lt (getDistanceBetweenLocations Math_sqrt loc b)
                      (getDistanceBetweenLocations Math_sqrt loc closest) = false.
Proof.
  intros Hkeys. unfold getClosestLocation, getClosestLocations. cbv zeta.
  set (qualifying := filter (differsInBothCoordinates loc) locs).
  set (sorted := arraySort _ qualifying).
  intro H.
  assert (Hhead : nth_error sorted 0 = Some closest).
  { destruct sorted as [| c rest]; [discriminate H | exact H]. }
  split.
  - assert (Hin : In closest sorted) by (eapply nth_error_In; exact Hhead).
    apply arraySort_In in Hin. unfold qualifying in Hin.
    now apply filter_In in Hin.
  - intros b Hb Hd.
    apply (arraySort_head (getDistanceBetweenLocations Math_sqrt loc) qualifying).
    + intros a Ha. apply Hkeys. unfold qualifying in Ha.
      now apply filter_In in Ha.
    + exact Hhead.
    + unfold qualifying. apply filter_In. now split.
Qed.

(** X22: [getDistanceToClosestLocation] throws a [TypeError] exactly when
    every location of [locs] shares a coordinate with [loc], in
    particular for an empty list; otherwise it returns. *)
Theorem distanceToClosest_throws_iff_none_qualifies
  (loc : Location) (locs : list Location) :
  (getDistanceToClosestLocation Math_sqrt loc locs
   = Throw (TypeError "Cannot read properties of undefined (reading 'x')")
   <-> forall a, In a locs -> differsInBothCoordinates loc a = false)
  /\ ((exists d, getDistanceToClosestLocation Math_sqrt loc locs = Ok d)
      <-> exists a, In a locs /\ differsInBothCoordinates loc a = true).
Proof.
  unfold getDistanceToClosestLocation, getClosestLocation, getClosestLocations.
  cbv zeta.
  set (qualifying := filter (differsInBothCoordinates loc) locs).
  assert (Hq : forall a, In a qualifying
                         <-> In a locs /\ differsInBothCoordinates loc a = true).
  { intro a. apply filter_In. }
  destruct (arraySort _ qualifying) as [| c rest] eqn:E.
  - assert (Hnil : qualifying = []).
    { apply (f_equal (@List.length Location)) in E.
      rewrite arraySort_length in E. now destruct qualifying. }
    cbn [firstn nth_error defined bind]. split; split.
    + intros _ a Ha. destruct (differsInBothCoordinates loc a) eqn:Ed;
        [| reflexivity].
      assert (Hin : In a qualifying) by now apply Hq.
      rewrite Hnil in Hin. destruct Hin.
    + reflexivity.
    + intros [d Hd]. discriminate.
    + intros [a Ha]. apply Hq in Ha. rewrite Hnil in Ha. destruct Ha.
  - assert (Hc : In c qualifying).
    { apply (arraySort_In
               (fun a b =>
                  num_sub (getDistanceBetweenLocations Math_sqrt loc a)
                          (getDistanceBetweenLocations Math_sqrt loc b))).
      rewrite E. now left. }
    apply Hq in Hc. destruct Hc as [Hin Hd].
    cbn [firstn nth_error defined bind]. split; split.
    + discriminate.
    + intro H. rewrite (H c Hin) in Hd. discriminate.
    + intros _. now exists c.
    + intros _. eexists. reflexivity.
Qed.

(** X23: asked for as many locations as [locs] has, [getFurthestLocations]
    returns the result of [getClosestLocations] in reverse order. *)
Theorem furthestLocations_reverse_closest (loc : Location) (locs : list Location) :
  getFurthestLocations Math_sqrt loc locs (List.length locs)
  = rev (getClosestLocations Math_sqrt loc locs (List.length locs)).
Proof.
  unfold getFurthestLocations. apply firstn_all2. rewrite length_rev.
  unfold getClosestLocations. cbv zeta. rewrite length_firstn, arraySort_length.
  apply Nat.le_min_l.
Qed.

End DistanceProperties.

(** A witness of [closestLocation_is_nearest], with the identity for the
    square root: of (3, 4) and (1, 1), the second is nearest to the origin. *)
Lemma closestLocation_is_nearest_of_two :
  In (mkLocation (Finite 1) (Finite 1))
     [mkLocation (Finite 3) (Finite 4); mkLocation (Finite 1) (Finite 1)]
  /\ forall b,
       In b [mkLocation (Finite 3) (Finite 4); mkLocation (Finite 1) (Finite 1)] ->
       differsInBothCoordinates origin b = true ->
       num_lt (getDistanceBetweenLocations (fun n => n) origin b)
              (getDistanceBetweenLocations (fun n => n) origin
                 (mkLocation (Finite 1) (Finite 1))) = false.
Proof.
  apply (closestLocation_is_nearest (fun n => n) origin
           [mkLocation (Finite 3) (Finite 4); mkLocation (Finite 1) (Finite 1)]).
  - intros a [<- | [<- | []]]; reflexivity.
  - reflexivity.
Defined.

(* ================================================================== *)
(** ** [GameService]: quitting, conceding, deleting, readiness         *)
(* ================================================================== *)

Lemma filter_all_iff {A : Type} (f : A -> bool) (l : list A) :
  (List.length (filter f l) =? List.length l) = true
  <-> forall a, In a l -> f a = true.
Proof.
  rewrite Nat.eqb_eq. split.
  - induction l as [| a l IH]; intros H b Hb; [destruct Hb |].
    cbn [filter] in H. destruct (f a) eqn:Ea.
    + cbn [List.length] in H. injection H as H.
      destruct Hb as [<- | Hb]; [exact Ea | now apply IH].
    + pose proof (filter_length_le f l) as Hle. cbn [List.length] in H. lia.
  - induction l as [| a l IH]; intro H; [reflexivity |].
    cbn [filter]. rewrite (H a (or_introl eq_refl)). cbn [List.length].
    f_equal. apply IH. intros b Hb. apply H. now right.
Qed.

Section GameServiceProperties.

Import GameService.

Variable Outside : Type.
Variable this : Services Outside.

(** X24: [quit] refuses a game that has started, and otherwise one that
    has finished, with the validation error of that case; no collaborator
    is called and the game and the player are left as they were. *)
Theorem quit_rejects_started_or_finished (w : World Outside) :
  (state_startDate (game w) <> None ->
   quit this w
   = (w, Fail (ValidationError "Cannot quit a game that has started.")))
  /\ (state_startDate (game w) = None -> state_endDate (game w) <> None ->
      quit this w
      = (w, Fail (ValidationError "Cannot quit a game that has finished."))).
Proof.
  unfold quit, andThen, readWorld. split.
  - intro H. destruct (state_startDate (game w)); [reflexivity | now contradiction H].
  - intros -> H. cbn [isSome].
    destruct (state_endDate (game w)); [reflexivity | now contradiction H].
Qed.

(** X25: [concedeDefeat] checks, in this order, that the player is not
    yet defeated, that the game has started and that it has not finished;
    the first check that fails decides the validation error, and nothing
    is changed. *)
Theorem concedeDefeat_rejects_in_order (openSlot : bool) (w : World Outside) :
  (defeated (player w) = true ->
   concedeDefeat this openSlot w
   = (w, Fail (ValidationError "The player has already been defeated.")))
  /\ (defeated (player w) = false -> state_startDate (game w) = None ->
      concedeDefeat this openSlot w
      = (w, Fail (ValidationError
                    "Cannot concede defeat in a game that has not yet started.")))
  /\ (defeated (player w) = false -> state_startDate (game w) <> None ->
      state_endDate (game w) <> None ->
      concedeDefeat this openSlot w
      = (w, Fail (ValidationError
                    "Cannot concede defeat in a game that has finished."))).
Proof.
  unfold concedeDefeat, andThen, readWorld. repeat split.
  - now intros ->.
  - now intros -> ->.
  - intros -> Hs He.
    destruct (state_startDate (game w)); [| now contradiction Hs].
    destruct (state_endDate (game w)); [reflexivity | now contradiction He].
Qed.

(** X26: a user cannot delete a game that has started, nor a game that
    another user created; both are refused before anything is changed.  *)
Theorem delete_rejects_for_user (user : nat) (w : World Outside) :
  (state_startDate (game w) <> None ->
   delete this (Some user) w
   = (w, Fail (ValidationError
                 "Cannot delete games that are in progress or completed.")))
  /\ (forall creator,
        state_startDate (game w) = None ->
        settings_general_createdByUserId (game w) = Some creator ->
        creator <> user ->
        delete this (Some user) w
        = (w, Fail (ValidationError
                      "Cannot delete this game, you did not create it."))).
Proof.
  unfold delete, andThen, readWorld. split.
  - intro H. destruct (state_startDate (game w)); [reflexivity | now contradiction H].
  - intros creator -> -> Hne. cbn [isSome andb].
    apply Nat.eqb_neq in Hne. now rewrite Hne.
Qed.

(** X27: when [concedeDefeat] returns for a game that is not a tutorial,
    and the collaborators it hands the game to leave the log of quitters
    and the number of active players alone, the player's user id (also
    when it is [null]) has been appended to the quitters and the number of
    active players is one less. *)
Theorem concedeDefeat_logs_and_decrements (openSlot : bool)
  (w w' : World Outside) :
  isTutorialGame this (game w) = false ->
  (forall b, keepsLog (setPlayerAsDefeated this b)) ->
  keepsLog (clearPlayerCarrierWaypointsLooped this) ->
  keepsLog (save this) ->
  concedeDefeat this openSlot w = (w', Done tt) ->
  quitters (game w') = quitters (game w) ++ [userId (player w)]
  /\ state_players (game w') = (state_players (game w) - 1)%Z.
Proof.
  intros Htut Hset Hclear Hsave.
  unfold concedeDefeat, andThen, readWorld, throwValidation.
  destruct (defeated (player w)); [discriminate |].
  destruct (negb (isSome (state_startDate (game w)))); [discriminate |].
  destruct (isSome (state_endDate (game w))); [discriminate |].
  rewrite Htut.
  unfold writeGame, invoke, when, elsewhere, done. cbn [game player outside].
  pose proof (Hset openSlot
    (mkWorld (pushQuitter (userId (player w)) (game w)) (player w) (outside w)))
    as [Hq1 Hp1].
  destruct (setPlayerAsDefeated this openSlot _) as [w1 [[] | e1]];
    [| discriminate].
  cbn [fst game pushQuitter quitters state_players] in Hq1, Hp1.
  set (w2 := mkWorld (decrementPlayers (game w1)) (player w1) (outside w1)).
  assert (H2 : quitters (game w2) = quitters (game w) ++ [userId (player w)]
               /\ state_players (game w2) = (state_players (game w) - 1)%Z).
  { cbn [w2 game decrementPlayers quitters state_players]. now rewrite Hq1, Hp1. }
  assert (H3 : forall w3 o,
             (if (settings_general_advancedAI (game w2) =? "disabled")%string
              then
                fun w0 : World Outside =>
                  let (w'0, c) := clearPlayerCarrierWaypointsLooped this w0 in
                  match c with
                  | Returns a => (w'0, Done a)
                  | Throws e => (w'0, Fail (Raised e))
                  end
              else fun w0 : World Outside => (w0, Done tt)) w2 = (w3, o) ->
             quitters (game w3) = quitters (game w) ++ [userId (player w)]
             /\ state_players (game w3) = (state_players (game w) - 1)%Z).
  { intros w3 o.
    destruct (settings_general_advancedAI (game w2) =? "disabled")%string.
    - pose proof (Hclear w2) as [Hq Hp].
      destruct (clearPlayerCarrierWaypointsLooped this w2) as [w3' c].
      cbn [fst] in Hq, Hp. destruct H2 as [H2q H2p].
      destruct c; intro E; injection E as <- _; now rewrite Hq, Hp.
    - intro E. injection E as <- _. exact H2. }
  match goal with
  | |- (let (_, _) := ?c in _) = _ -> _ => destruct c as [w3 o3] eqn:E3
  end.
  apply H3 in E3. clear H3.
  destruct o3 as [[] | f]; [| discriminate].
  assert (H4 : forall w4 o,
             match userId (player w3) with
             | Some user =>
                 if negb (isTutorialGame this (game w3))
                 then
                   fun w0 : World Outside =>
                     let (w'1, c) :=
                       let (o0, c) := incrementDefeated this user 1 (outside w0) in
                       (mkWorld (game w0) (player w0) o0, c) in
                     match c with
                     | Returns a0 => (w'1, Done a0)
                     | Throws e => (w'1, Fail (Raised e))
                     end
                 else fun w0 : World Outside => (w0, Done tt)
             | None => fun w0 : World Outside => (w0, Done tt)
             end w3 = (w4, o) ->
             game w4 = game w3).
  { intros w4 o. destruct (userId (player w3)) as [user |].
    - destruct (negb (isTutorialGame this (game w3))).
      + destruct (incrementDefeated this user 1 (outside w3)) as [o0 c].
        destruct c; intro E; now injection E as <- _.
      + intro E. now injection E as <- _.
    - intro E. now injection E as <- _. }
  match goal with
  | |- (let (_, _) := ?c in _) = _ -> _ => destruct c as [w4 o4] eqn:E4
  end.
  apply H4 in E4. clear H4.
  destruct o4 as [[] | f]; [| discriminate].
  pose proof (Hsave w4) as [Hq5 Hp5].
  destruct (save this w4) as [w5 [[] | e5]]; cbv beta iota; [| discriminate].
  cbn [fst] in Hq5, Hp5.
  destruct (emit this _ (outside w5)) as [o6 [[] | e6]]; cbv beta iota;
    [| discriminate].
  intro E. injection E as <-. cbn [game].
  rewrite Hq5, Hp5, E4. exact E3.
Qed.

(** X28: when [quit] returns the player, and the collaborators it hands
    the game to leave the log of quitters alone, the player's user id has
    been appended to the quitters if the player has a user and the game
    is not a new-player game, and the log is unchanged otherwise. *)
Theorem quit_logs_registered_quitter (w w' : World Outside) (p : Player) :
  keepsQuitters (resetPlayerForGameStart this) ->
  keepsQuitters (updateStatePlayerCount this) ->
  keepsQuitters (save this) ->
  quit this w = (w', Done (Some p)) ->
  quitters (game w')
  = match userId (player w) with
    | Some user =>
        if isNewPlayerGame this (game w)
        then quitters (game w)
        else quitters (game w) ++ [Some user]
    | None => quitters (game w)
    end.
Proof.
  intros Hreset Hupdate Hsave.
  unfold quit, andThen, readWorld, throwValidation.
  destruct (isSome (state_startDate (game w))); [discriminate |].
  destruct (isSome (state_endDate (game w))); [discriminate |].
  destruct (isTutorialGame this (game w)) eqn:Htut.
  { destruct (delete this None w) as [w0 [[] | f]]; discriminate. }
  set (logged := match userId (player w) with
                 | Some user =>
                     if isNewPlayerGame this (game w)
                     then quitters (game w)
                     else quitters (game w) ++ [Some user]
                 | None => quitters (game w)
                 end).
  match goal with
  | |- (let (_, _) := ?c in _) = _ -> _ => destruct c as [w1 o1] eqn:E1
  end.
  assert (H1 : quitters (game w1) = logged).
  { unfold when, writeGame, done in E1. unfold logged.
    destruct (userId (player w)) as [user |]; cbn [isSome andb] in E1.
    - destruct (isNewPlayerGame this (game w)); cbn [negb] in E1;
        now injection E1 as <- _.
    - now injection E1 as <- _. }
  clear E1. destruct o1 as [[] | f]; [| discriminate].
  match goal with
  | |- (let (_, _) := ?c in _) = _ -> _ => destruct c as [w2 o2] eqn:E2
  end.
  assert (H2 : game w2 = game w1).
  { unfold invoke, elsewhere, done in E2.
    destruct (userId (player w1)) as [user |].
    - destruct (negb (isTutorialGame this (game w1))).
      + destruct (incrementQuit this user (outside w1)) as [o c].
        destruct c; now injection E2 as <- _.
      + now injection E2 as <- _.
    - now injection E2 as <- _. }
  clear E2. destruct o2 as [[] | f]; [| discriminate].
  unfold invoke, elsewhere, done.
  pose proof (Hreset w2) as H3.
  destruct (resetPlayerForGameStart this w2) as [w3 [[] | e3]]; [| discriminate].
  pose proof (Hupdate w3) as H4.
  destruct (updateStatePlayerCount this w3) as [w4 [[] | e4]]; [| discriminate].
  pose proof (Hsave w4) as H5.
  destruct (save this w4) as [w5 [[] | e5]]; [| discriminate].
  cbn [fst] in H3, H4, H5.
  destruct (emit this _ (outside w5)) as [o6 [[] | e6]]; [| discriminate].
  intro E. injection E as <- _. cbn [game].
  now rewrite H5, H4, H3, H2.
Qed.

(** X29: [isAllUndefeatedPlayersReady] holds exactly when every player
    that [listAllUndefeatedPlayers] keeps (in a tutorial the players with
    a user, otherwise the undefeated ones) is ready, and
    [isAllUndefeatedPlayersReadyToQuit] likewise for ready to quit; both
    hold when no player is kept. *)
Theorem allUndefeatedPlayersReady_iff_each_is (g : Game) :
  (isAllUndefeatedPlayersReady this g = true
   <-> forall p, In p (galaxy_players g) -> counted this g p -> ready p = true)
  /\ (isAllUndefeatedPlayersReadyToQuit this g = true
      <-> forall p, In p (galaxy_players g) -> counted this g p ->
                    readyToQuit p = true).
Proof.
  assert (Hlist : forall p,
             In p (listAllUndefeatedPlayers this g)
             <-> In p (galaxy_players g) /\ counted this g p).
  { intro p. unfold listAllUndefeatedPlayers, counted.
    destruct (isTutorialGame this g); rewrite filter_In.
    - destruct (userId p); cbn [isSome]; intuition congruence.
    - now rewrite negb_true_iff. }
  unfold isAllUndefeatedPlayersReady, isAllUndefeatedPlayersReadyToQuit.
  cbv zeta. rewrite !filter_all_iff. split; split; intro H.
  - intros p Hp Hc. apply H, Hlist. now split.
  - intros p Hp. apply Hlist in Hp. now apply H.
  - intros p Hp Hc. apply H, Hlist. now split.
  - intros p Hp. apply Hlist in Hp. now apply H.
Qed.

End GameServiceProperties.

(** A witness of [concedeDefeat_logs_and_decrements]: the registered
    player of a game in progress concedes to a service whose collaborators
    do nothing. *)
Lemma concedeDefeat_logs_and_decrements_quiet :
  GameService.quitters
    (GameService.game
       (fst (GameService.concedeDefeat GameService.quietServices true
               (GameService.mkWorld GameService.gameInProgress
                  GameService.registered tt))))
  = [] ++ [Some 10]
  /\ GameService.state_players
       (GameService.game
          (fst (GameService.concedeDefeat GameService.quietServices true
                  (GameService.mkWorld GameService.gameInProgress
                     GameService.registered tt))))
     = (2 - 1)%Z.
Proof.
  apply (concedeDefeat_logs_and_decrements unit GameService.quietServices true
           (GameService.mkWorld GameService.gameInProgress
              GameService.registered tt)).
  - reflexivity.
  - intros b w. split; reflexivity.
  - intros w. split; reflexivity.
  - intros w. split; reflexivity.
  - reflexivity.
Defined.

(** A witness of [quit_logs_registered_quitter]: the registered player
    quits a game that has not started. *)
Lemma quit_logs_registered_quitter_quiet :
  GameService.quitters
    (GameService.game
       (fst (GameService.quit GameService.quietServices
               (GameService.mkWorld GameService.gameNotStarted
                  GameService.registered tt))))
  = [] ++ [Some 10].
Proof.
  apply (quit_logs_registered_quitter unit GameService.quietServices
           (GameService.mkWorld GameService.gameNotStarted
              GameService.registered tt) _ GameService.registered).
  - intros w. reflexivity.
  - intros w. reflexivity.
  - intros w. reflexivity.
  - reflexivity.
Defined.
